(** * Enhanced search engine (src/src/enhanced-search.ts): a shallow embedding

    The TypeScript class [EnhancedSearchEngine] is embedded function by function.
    JavaScript numbers are IEEE-754 binary64 values and are modelled by Rocq's
    primitive floats, so every score below is computed bit for bit as the
    program computes it.  Asynchronous calls are modelled by their results:
    a rejected promise or a thrown exception is the [Err] case of [result].
    Collaborators outside the class (vault, embedding provider, vector index,
    rerank provider, text generator, regular expressions, dates) are fields of
    an environment record.  The saved searches and the settings the engine
    writes are embedded with the engine in [Plugin]; the text generator
    (vercel-ai.ts), the rerank provider (src/src/voyage-ai.ts) and
    the search command of the plugin (main.ts) follow in sections of their
    own. *)

From Stdlib Require Import ZArith Floats Lia String Ascii Bool List Sorted Permutation.
From Stdlib Require Import DecimalString DecimalNat Setoid.
From Stdlib Require Uint63 DecimalZ DecimalPos.
Import ListNotations.

Set Warnings "-inexact-float".

(* ------------------------------------------------------------------------- *)
(** ** JavaScript values *)

Local Open Scope string_scope.
Local Open Scope float_scope.
Local Open Scope list_scope.

(** A JavaScript number. *)
Definition num := float.

(** [0], [-0] and [NaN] are the falsy numbers. *)
Definition falsy (x : num) : bool := (x =? 0) || is_nan x.

(** [x || y] on numbers. *)
Definition num_or (x y : num) : num := if falsy x then y else x.

(** [x || y] where [x] may be [undefined]. *)
Definition opt_num_or (x : option num) (y : num) : num :=
  match x with
  | Some v => num_or v y
  | None => y
  end.

(** [!s] is false for a non-empty string; [undefined] and [''] are falsy. *)
Definition truthy_str (s : option string) : bool :=
  match s with
  | Some s => negb (String.eqb s "")
  | None => false
  end.

(** An integer quantity (a length, a count) as a number: exact below [2^53];
    no string or array of the run time is longer. *)
Definition num_of_nat (n : nat) : num := PrimFloat.of_uint63 (Uint63.of_Z (Z.of_nat n)).

(** The number a comparison function such as [localeCompare] returns. *)
Definition num_of_comparison (c : comparison) : num :=
  match c with
  | Lt => -1
  | Eq => 0
  | Gt => 1
  end.

(** [`${n}`] for an array index. *)
Definition string_of_index (n : nat) : string := NilZero.string_of_uint (Nat.to_uint n).

(** [arr.slice(0, n)]: a negative [n] counts from the end. *)
Definition slice0 {A : Type} (n : Z) (l : list A) : list A :=
  if (n <? 0)%Z then firstn (Z.to_nat (Z.of_nat (length l) + n)) l
  else firstn (Z.to_nat n) l.

(** [s.substring(0, n)] *)
Definition prefix_of (n : nat) (s : string) : string := substring 0 n s.

(** A thrown exception or rejected promise carries a message. *)
Inductive result (A : Type) : Type :=
  | Ok (a : A)
  | Err (e : string).
Arguments Ok {A} a.
Arguments Err {A} e.

(** *** [Map]: keys in insertion order; [set] on a present key keeps its place *)

Section JsMap.
Context {K V : Type} (eqb : K -> K -> bool).

Fixpoint map_get (k : K) (m : list (K * V)) : option V :=
  match m with
  | [] => None
  | (k', v) :: m' => if eqb k k' then Some v else map_get k m'
  end.

Fixpoint map_set (k : K) (v : V) (m : list (K * V)) : list (K * V) :=
  match m with
  | [] => [(k, v)]
  | (k', v') :: m' => if eqb k k' then (k', v) :: m' else (k', v') :: map_set k v m'
  end.

Definition map_values (m : list (K * V)) : list V := map snd m.
End JsMap.

(** *** [Array.prototype.sort]

    The sort is stable, and the comparator's result matters only through its
    sign: [after a b] says that the comparator applied to [(a, b)] is positive,
    so [a] has to come after [b].  For a comparator that is a consistent order
    the result is this stable insertion sort's; for an inconsistent one (a NaN
    key) ECMAScript leaves the order to the implementation. *)

Section JsSort.
Context {A : Type} (after : A -> A -> bool).

Fixpoint sort_insert (x : A) (l : list A) : list A :=
  match l with
  | [] => [x]
  | y :: l' => if after x y then y :: sort_insert x l' else x :: l
  end.

Definition js_sort (l : list A) : list A := fold_right sort_insert [] l.
End JsSort.

(** The comparator is a number: positive means "after". *)
Definition is_positive (c : num) : bool := 0 <? c.

Definition sort_by_comparator {A : Type} (cmp : A -> A -> num) : list A -> list A :=
  js_sort (fun a b => is_positive (cmp a b)).

(* ------------------------------------------------------------------------- *)
(** ** Data model (interfaces [SearchResult], [SearchOptions]) *)

(** Obsidian's [TFile] as far as the engine reads it. *)
Record TFile := {
  f_path : string;
  f_basename : string;
  f_extension : string;
  f_ctime : num;
  f_mtime : num
}.

Inductive ResultKind := KFile | KNode | KExternal.

Record Metadata := {
  m_type : ResultKind;
  m_source : string;
  m_path : option string;
  m_tags : option (list string);
  m_created : option string;
  m_modified : option string;
  m_wordCount : option num;
  m_highlights : option (list string)
}.

Record SearchResult := {
  r_id : string;
  r_title : string;
  r_content : string;
  r_file : option TFile;
  r_score : num;
  r_rerankScore : option num;
  r_finalScore : option num;
  r_metadata : Metadata
}.

Inductive SearchType := Semantic | Keyword | Hybrid | AiEnhanced.
Inductive SortBy := ByRelevance | ByDate | ByTitle | BySize.
Inductive SortOrder := Asc | Desc.

(** The two [Date]s of a range, as their time values (NaN for an invalid date). *)
Record DateRange := { dr_from : num; dr_to : num }.

Record SearchOptions := {
  o_query : string;
  o_searchType : SearchType;
  o_maxResults : Z;
  o_useRerank : bool;
  o_rerankThreshold : num;
  o_includeContent : bool;
  o_fileTypes : list string;
  o_dateRange : option DateRange;
  o_tags : option (list string);
  o_folders : option (list string);
  o_sortBy : SortBy;
  o_sortOrder : SortOrder
}.

(** [{ ...options, query }] *)
Definition with_query (o : SearchOptions) (q : string) : SearchOptions :=
  {| o_query := q; o_searchType := o_searchType o; o_maxResults := o_maxResults o;
     o_useRerank := o_useRerank o; o_rerankThreshold := o_rerankThreshold o;
     o_includeContent := o_includeContent o; o_fileTypes := o_fileTypes o;
     o_dateRange := o_dateRange o; o_tags := o_tags o; o_folders := o_folders o;
     o_sortBy := o_sortBy o; o_sortOrder := o_sortOrder o |}.

Definition with_searchType (o : SearchOptions) (t : SearchType) : SearchOptions :=
  {| o_query := o_query o; o_searchType := t; o_maxResults := o_maxResults o;
     o_useRerank := o_useRerank o; o_rerankThreshold := o_rerankThreshold o;
     o_includeContent := o_includeContent o; o_fileTypes := o_fileTypes o;
     o_dateRange := o_dateRange o; o_tags := o_tags o; o_folders := o_folders o;
     o_sortBy := o_sortBy o; o_sortOrder := o_sortOrder o |}.

(** [{ ...result, finalScore: f }] *)
Definition with_finalScore (r : SearchResult) (f : num) : SearchResult :=
  {| r_id := r_id r; r_title := r_title r; r_content := r_content r; r_file := r_file r;
     r_score := r_score r; r_rerankScore := r_rerankScore r; r_finalScore := Some f;
     r_metadata := r_metadata r |}.

(** [{ ...result, rerankScore: s, finalScore: f }] *)
Definition with_rerank (r : SearchResult) (s f : num) : SearchResult :=
  {| r_id := r_id r; r_title := r_title r; r_content := r_content r; r_file := r_file r;
     r_score := r_score r; r_rerankScore := Some s; r_finalScore := Some f;
     r_metadata := r_metadata r |}.

Definition with_highlights (m : Metadata) (h : list string) : Metadata :=
  {| m_type := m_type m; m_source := m_source m; m_path := m_path m; m_tags := m_tags m;
     m_created := m_created m; m_modified := m_modified m; m_wordCount := m_wordCount m;
     m_highlights := Some h |}.

(** [existing.finalScore = f; existing.metadata.highlights = h] *)
Definition update_existing (r : SearchResult) (f : num) (h : list string) : SearchResult :=
  {| r_id := r_id r; r_title := r_title r; r_content := r_content r; r_file := r_file r;
     r_score := r_score r; r_rerankScore := r_rerankScore r; r_finalScore := Some f;
     r_metadata := with_highlights (r_metadata r) h |}.

(** [r.finalScore || r.score], the key of every relevance comparator. *)
Definition sortKey (r : SearchResult) : num := opt_num_or (r_finalScore r) (r_score r).

(** [(a, b) => (b.finalScore || b.score) - (a.finalScore || a.score)] *)
Definition byRelevance (a b : SearchResult) : num := sortKey b - sortKey a.

(* ------------------------------------------------------------------------- *)
(** ** Collaborators *)

(** One point of the vector index's answer: [payload?.text] and [score]. *)
Record Point := { p_text : option string; p_score : option num }.

(** One item of the rerank provider's answer. *)
Record RerankItem := { ri_index : nat; ri_relevance_score : num }.

Record ChatMessage := { cm_role : string; cm_content : string }.

(** What the engine observes of the world: calls on collaborators, and the
    dispatch to a strategy. *)
Inductive Event :=
  | EvStrategy (t : SearchType)
  | EvEmbedQuery (q : string)
  | EvVectorSearch (limit : Z)
  | EvListFiles
  | EvReadFile (path : string)
  | EvRerank (q : string) (documents : list string) (topK : Z)
  | EvGenerateQuestions (content : string)
  | EvGenerateText (messages : list ChatMessage).

(** The environment of one call.  A function field is the answer the
    collaborator gives to a request; [Err] is a thrown exception. *)
Record Env := {
  (** [plugin.embeddings], absent when no API key is configured *)
  embeddings : option (string -> result (list num));
  (** [plugin.qdrantClient.search] *)
  qdrantClient : option (list num -> Z -> result (list Point));
  (** [plugin.app.vault] *)
  getMarkdownFiles : result (list TFile);
  vault_read : TFile -> result string;
  (** [VoyageAIIntegration]: [isEnabled], [provider] and its HTTP [rerank] *)
  voyage_isEnabled : bool;
  voyage_provider : option (string -> list string -> Z -> result (list RerankItem));
  (** [VercelAIIntegration]: [isInitialized] and its provider *)
  vercel_isInitialized : bool;
  generateQuestions : string -> nat -> result (list string);
  generateText : list ChatMessage -> result string;
  (** String, RegExp and Date primitives of the run time *)
  toLowerCase : string -> string;
  trim : string -> string;
  split_ws : string -> list string;             (* s.split(/\s+/) *)
  split_lines : string -> list string;          (* s.split('\n') *)
  re_count : string -> string -> result nat;    (* (s.match(new RegExp(w, 'g')) || []).length *)
  re_word_exec : string -> string -> result (list nat);
                                                (* indices of the successive regex.exec(s) for
                                                   new RegExp(`\\b${w}\\b`, 'gi') *)
  strip_heading : string -> string;             (* s.replace(/^#+\s*/, '') *)
  strip_markup : string -> string;              (* s.replace(/#+\s*/g, '').replace(/\n+/g, ' ') *)
  parseFloat : string -> num;
  date_time : string -> num;                    (* new Date(s).getTime() *)
  date_iso : num -> result string;              (* new Date(t).toISOString() *)
  localeCompare : string -> string -> comparison
}.

(** *** Computations: a trace of events and a value or an exception *)

Definition M (A : Type) : Type := (list Event * result A)%type.

Definition ret {A} (a : A) : M A := ([], Ok a).
Definition throw {A} (e : string) : M A := ([], Err e).

Definition bind {A B} (m : M A) (f : A -> M B) : M B :=
  match m with
  | (t, Ok a) => let (t', r) := f a in (t ++ t', r)
  | (t, Err e) => (t, Err e)
  end.

(** [try { m } catch (e) { h e }] *)
Definition try_catch {A} (m : M A) (h : string -> M A) : M A :=
  match m with
  | (t, Ok a) => (t, Ok a)
  | (t, Err e) => let (t', r) := h e in (t ++ t', r)
  end.

(** A call on a collaborator: the event, then its answer. *)
Definition call {A} (ev : Event) (answer : result A) : M A := ([ev], answer).

(** A pure step that may throw. *)
Definition lift {A} (r : result A) : M A := ([], r).

Notation "x <- m ;; k" := (bind m (fun x => k))
  (at level 61, m at next level, right associativity).

Definition trace {A} (m : M A) : list Event := fst m.
Definition outcome {A} (m : M A) : result A := snd m.

(** [for (const x of l) { acc = await f(acc, x) }] *)
Fixpoint foldM {A B} (f : B -> A -> M B) (l : list A) (acc : B) : M B :=
  match l with
  | [] => ret acc
  | x :: l' => acc' <- f acc x ;; foldM f l' acc'
  end.

(** [await Promise.all(l.map(f))]: every call is started; the first rejection
    in array order is the result. *)
Fixpoint promise_all {A B} (f : A -> M B) (l : list A) : M (list B) :=
  match l with
  | [] => ret []
  | x :: l' =>
      let (t1, r1) := f x in
      let (t2, r2) := promise_all f l' in
      (t1 ++ t2,
       match r1, r2 with
       | Ok b, Ok bs => Ok (b :: bs)
       | Err e, _ => Err e
       | Ok _, Err e => Err e
       end)
  end.

(** Pure steps that may throw. *)
Definition rbind {A B} (r : result A) (f : A -> result B) : result B :=
  match r with
  | Ok a => f a
  | Err e => Err e
  end.

Fixpoint foldR {A B} (f : B -> A -> result B) (l : list A) (acc : B) : result B :=
  match l with
  | [] => Ok acc
  | x :: l' => rbind (f acc x) (foldR f l')
  end.

(** [l.map(f)] where [f] may throw. *)
Fixpoint mapR {A B} (f : A -> result B) (l : list A) : result (list B) :=
  match l with
  | [] => Ok []
  | x :: l' => rbind (f x) (fun b => rbind (mapR f l') (fun bs => Ok (b :: bs)))
  end.

(** [l.map((x, index) => f(x, index))], the index starting at [i]. *)
Fixpoint mapi_from {A B} (i : nat) (f : A -> nat -> B) (l : list A) : list B :=
  match l with
  | [] => []
  | x :: l' => f x i :: mapi_from (S i) f l'
  end.

(* ------------------------------------------------------------------------- *)
(** ** Utility methods of the engine *)

Definition extractTitle (env : Env) (content : string) : string :=
  match find (fun line => String.prefix "#" line) (split_lines env content) with
  | Some firstHeading => strip_heading env firstHeading
  | None => String.append (trim env (prefix_of 50 content)) "..."
  end.

Definition extractSummary (env : Env) (content : string) : string :=
  let cleaned := trim env (strip_markup env content) in
  if (200 <? String.length cleaned)%nat
  then String.append (prefix_of 200 cleaned) "..."
  else cleaned.

(** The loop stops after two matches; [contextLength] is 50. *)
Definition findWordContext (env : Env) (content word : string) : result (list string) :=
  rbind (re_word_exec env content word) (fun indices =>
  Ok (map (fun index =>
             let start := (index - 50)%nat in
             let stop := Nat.min (String.length content) (index + String.length word + 50) in
             trim env (substring start (stop - start) content))
          (firstn 2 indices))).

Definition extractHighlights (env : Env) (content query : string) : result (list string) :=
  rbind (foldR (fun highlights word =>
                  rbind (findWordContext env content word) (fun contexts =>
                  Ok (highlights ++ contexts)))
               (split_ws env (toLowerCase env query)) [])
        (fun highlights => Ok (firstn 3 highlights)).

(* ------------------------------------------------------------------------- *)
(** ** Semantic strategy *)

(** [RAGIntegrator.searchSimilar] (main.ts): no client or a failing search is
    an empty answer; a missing text is [''], a missing or falsy score is [0]. *)
Definition searchSimilar (env : Env) (queryEmbedding : list num) (limit : Z)
  : M (list (string * num)) :=
  match qdrantClient env with
  | None => ret []
  | Some search =>
      try_catch
        (points <- call (EvVectorSearch limit) (search queryEmbedding limit) ;;
         ret (map (fun point =>
                     (match p_text point with
                      | Some text => text
                      | None => ""
                      end,
                      opt_num_or (p_score point) 0))
                  points))
        (fun _ => ret [])
  end.

Definition semanticResult (env : Env) (options : SearchOptions)
    (neighbor : string * num) (index : nat) : result SearchResult :=
  rbind (extractHighlights env (fst neighbor) (o_query options)) (fun highlights =>
  Ok {| r_id := String.append "semantic_" (string_of_index index);
        r_title := extractTitle env (fst neighbor);
        r_content := fst neighbor;
        r_file := None;
        r_score := snd neighbor;
        r_rerankScore := None;
        r_finalScore := None;
        r_metadata := {| m_type := KNode; m_source := "rag"; m_path := None;
                         m_tags := None; m_created := None; m_modified := None;
                         m_wordCount := None; m_highlights := Some highlights |} |}).

Definition semanticSearch (env : Env) (options : SearchOptions) : M (list SearchResult) :=
  match embeddings env with
  | None => throw "Embeddings not available for semantic search"
  | Some embedQuery =>
      queryEmbedding <- call (EvEmbedQuery (o_query options)) (embedQuery (o_query options)) ;;
      ragResults <- searchSimilar env queryEmbedding (o_maxResults options * 2)%Z ;;
      lift (mapR (fun ri => semanticResult env options (fst ri) (snd ri))
                 (mapi_from 0 (fun r i => (r, i)) ragResults))
  end.

(* ------------------------------------------------------------------------- *)
(** ** Lexical strategy *)

(** The inner loop over the query words: the match count and the highlights. *)
Definition scoreWords (env : Env) (content contentLower : string) (queryWords : list string)
  : result (nat * list string) :=
  foldR (fun (acc : nat * list string) word =>
           let (score, highlights) := acc in
           rbind (re_count env contentLower word) (fun matches =>
           if (0 <? matches)%nat
           then rbind (findWordContext env content word) (fun contexts =>
                Ok ((score + matches)%nat, highlights ++ contexts))
           else Ok ((score + matches)%nat, highlights)))
        queryWords (0%nat, []).

(** The body of the [try] for one file, after its content was read. *)
Definition keywordResult (env : Env) (options : SearchOptions) (queryWords : list string)
    (file : TFile) (content : string) : result (option SearchResult) :=
  rbind (scoreWords env content (toLowerCase env content) queryWords) (fun sh =>
  let (score, highlights) := sh in
  if (0 <? score)%nat then
    rbind (date_iso env (f_ctime file)) (fun created =>
    rbind (date_iso env (f_mtime file)) (fun modified =>
    Ok (Some
      {| r_id := String.append "keyword_" (f_path file);
         r_title := f_basename file;
         r_content := if o_includeContent options then content else extractSummary env content;
         r_file := Some file;
         r_score := num_of_nat score / num_of_nat (length queryWords);
         r_rerankScore := None;
         r_finalScore := None;
         r_metadata := {| m_type := KFile; m_source := "vault"; m_path := Some (f_path file);
                          m_tags := None; m_created := Some created;
                          m_modified := Some modified;
                          m_wordCount := Some (num_of_nat (length (split_ws env content)));
                          m_highlights := Some (firstn 3 highlights) |} |})))
  else Ok None).

(** [(a, b) => b.score - a.score] *)
Definition byScore (a b : SearchResult) : num := r_score b - r_score a.

Definition keywordSearch (env : Env) (options : SearchOptions) : M (list SearchResult) :=
  files <- call EvListFiles (getMarkdownFiles env) ;;
  let queryWords := split_ws env (toLowerCase env (o_query options)) in
  results <- foldM (fun results file =>
                      try_catch
                        (content <- call (EvReadFile (f_path file)) (vault_read env file) ;;
                         found <- lift (keywordResult env options queryWords file content) ;;
                         ret (match found with
                              | Some r => results ++ [r]
                              | None => results
                              end))
                        (fun _ => ret results))
                   files [] ;;
  ret (sort_by_comparator byScore results).

(* ------------------------------------------------------------------------- *)
(** ** Hybrid combiner *)

(** [combinedResults.set(result.id, { ...result, finalScore: result.score * 0.7 })] *)
Definition addSemantic (combinedResults : list (string * SearchResult)) (result : SearchResult)
  : list (string * SearchResult) :=
  map_set String.eqb (r_id result) (with_finalScore result (r_score result * 0.7)) combinedResults.

Definition highlights_or_empty (r : SearchResult) : list string :=
  match m_highlights (r_metadata r) with
  | Some h => h
  | None => []
  end.

(** The object found under the id is updated in place, which leaves it at its
    position in the map. *)
Definition addKeyword (combinedResults : list (string * SearchResult)) (result : SearchResult)
  : list (string * SearchResult) :=
  match map_get String.eqb (r_id result) combinedResults with
  | Some existing =>
      map_set String.eqb (r_id result)
        (update_existing existing
           (opt_num_or (r_finalScore existing) (r_score existing) + r_score result * 0.3)
           (firstn 5 (highlights_or_empty existing ++ highlights_or_empty result)))
        combinedResults
  | None =>
      map_set String.eqb (r_id result) (with_finalScore result (r_score result * 0.3))
        combinedResults
  end.

Definition combine (semanticResults keywordResults : list SearchResult)
  : list (string * SearchResult) :=
  fold_left addKeyword keywordResults (fold_left addSemantic semanticResults []).

Definition hybridMerge (semanticResults keywordResults : list SearchResult) : list SearchResult :=
  sort_by_comparator byRelevance (map_values (combine semanticResults keywordResults)).

(** The two searches of [Promise.all] are both started; the trace lists the
    semantic one first. *)
Definition hybridSearch (env : Env) (options : SearchOptions) : M (list SearchResult) :=
  semanticResults <- try_catch (semanticSearch env options) (fun _ => ret []) ;;
  keywordResults <- keywordSearch env options ;;
  ret (hybridMerge semanticResults keywordResults).

(* ------------------------------------------------------------------------- *)
(** ** Query expansion and AI relevance *)

Definition vercel_isReady (env : Env) : bool := vercel_isInitialized env.

(** [result.file?.path || result.title] *)
Definition dedupKey (r : SearchResult) : string :=
  match r_file r with
  | Some f => if String.eqb (f_path f) "" then r_title r else f_path f
  | None => r_title r
  end.

Definition deduplicateResults (results : list SearchResult) : list SearchResult :=
  map_values
    (fold_left (fun seen result =>
                  match map_get String.eqb (dedupKey result) seen with
                  | None => map_set String.eqb (dedupKey result) result seen
                  | Some existing =>
                      if sortKey existing <? sortKey result
                      then map_set String.eqb (dedupKey result) result seen
                      else seen
                  end)
               results []).

Definition quote : string := String (ascii_of_nat 34) EmptyString.
Definition newline : string := String (ascii_of_nat 10) EmptyString.

Definition relevancePrompt (query : string) (r : SearchResult) : list ChatMessage :=
  [ {| cm_role := "system";
       cm_content := "You are a search relevance analyzer. Rate the relevance of the given content to the search query on a scale of 0-1." |};
    {| cm_role := "user";
       cm_content :=
         String.concat ""
           [ "Query: "; quote; query; quote; newline; newline;
             "Content: "; quote; prefix_of 500 (r_content r); quote; newline; newline;
             "Relevance score (0-1):" ] |} ].

Definition analyzeResultsWithAI (env : Env) (query : string) (results : list SearchResult)
  : M (list SearchResult) :=
  if negb (vercel_isReady env) || (length results =? 0)%nat then ret results
  else
    try_catch
      (analyzedResults <-
         promise_all
           (fun r =>
              try_catch
                (analysis <- call (EvGenerateText (relevancePrompt query r))
                                  (generateText env (relevancePrompt query r)) ;;
                 let aiScore := num_or (parseFloat env (trim env analysis)) (r_score r) in
                 ret (with_finalScore r (r_score r * 0.5 + aiScore * 0.5)))
                (fun _ => ret r))
           results ;;
       ret (sort_by_comparator byRelevance analyzedResults))
      (fun _ => ret results).

Definition aiEnhancedSearch (env : Env) (options : SearchOptions) : M (list SearchResult) :=
  if negb (vercel_isReady env) then hybridSearch env options
  else
    try_catch
      (expandedQueries <-
         call (EvGenerateQuestions (String.append "Search query: " (o_query options)))
              (generateQuestions env (String.append "Search query: " (o_query options)) 3) ;;
       allResults <-
         foldM (fun allResults query =>
                  results <- hybridSearch env (with_query options query) ;;
                  ret (allResults ++ results))
               (o_query options :: expandedQueries) [] ;;
       analyzeResultsWithAI env (o_query options) (deduplicateResults allResults))
      (fun _ => hybridSearch env options).

(* ------------------------------------------------------------------------- *)
(** ** Reranker *)

(** [VoyageAIIntegration.isReady] *)
Definition voyage_isReady (env : Env) : bool :=
  voyage_isEnabled env &&
  match voyage_provider env with
  | Some _ => true
  | None => false
  end.

(** [VoyageAIIntegration.rerankOnly]; the provider sends [top_k || 10].
    [None] is the [null] answer. *)
Definition rerankOnly (env : Env) (query : string) (documents : list string) (topK : Z)
  : M (option (list RerankItem)) :=
  match voyage_provider env with
  | Some rerank =>
      if voyage_isReady env
      then
        let top_k := if (topK =? 0)%Z then 10%Z else topK in
        data <- call (EvRerank query documents top_k) (rerank query documents top_k) ;;
        ret (Some data)
      else ret None
  | None => ret None
  end.

(** The callback of [.map]: [results[item.index]] is [undefined] out of range,
    and reading its score throws. *)
Definition rerankedResult (results : list SearchResult) (item : RerankItem)
  : result SearchResult :=
  match nth_error results (ri_index item) with
  | Some originalResult =>
      Ok (with_rerank originalResult (ri_relevance_score item)
            (r_score originalResult * 0.3 + ri_relevance_score item * 0.7))
  | None => Err "TypeError"
  end.

Definition rerankResults (env : Env) (query : string) (results : list SearchResult)
    (options : SearchOptions) : M (list SearchResult) :=
  if negb (voyage_isReady env) || (length results =? 0)%nat then ret results
  else
    try_catch
      (rerankResponse <- rerankOnly env query (map r_content results) (o_maxResults options) ;;
       match rerankResponse with
       | None => ret results
       | Some data =>
           rerankedResults <-
             lift (mapR (rerankedResult results)
                        (filter (fun item => o_rerankThreshold options <=? ri_relevance_score item)
                                data)) ;;
           ret (sort_by_comparator byRelevance rerankedResults)
       end)
      (fun _ => ret results).

(* ------------------------------------------------------------------------- *)
(** ** Filters *)

Definition includes (l : list string) (s : string) : bool := existsb (String.eqb s) l.

(** [s.startsWith(p)] *)
Definition startsWith (s p : string) : bool := String.prefix p s.

Definition fileTypeTest (options : SearchOptions) (result : SearchResult) : bool :=
  match r_file result with
  | None => true
  | Some f => includes (o_fileTypes options) (f_extension f)
  end.

Definition dateRangeTest (env : Env) (range : DateRange) (result : SearchResult) : bool :=
  if negb (truthy_str (m_modified (r_metadata result))) then true
  else
    match m_modified (r_metadata result) with
    | Some modified =>
        (dr_from range <=? date_time env modified) && (date_time env modified <=? dr_to range)
    | None => true
    end.

Definition tagsTest (tags : list string) (result : SearchResult) : bool :=
  match m_tags (r_metadata result) with
  | None => false
  | Some resultTags => existsb (fun tag => includes resultTags tag) tags
  end.

Definition foldersTest (folders : list string) (result : SearchResult) : bool :=
  if negb (truthy_str (m_path (r_metadata result))) then false
  else
    match m_path (r_metadata result) with
    | Some path => existsb (fun folder => startsWith path folder) folders
    | None => false
    end.

Definition fileTypeConfigured (options : SearchOptions) : bool :=
  (0 <? length (o_fileTypes options))%nat.

Definition tagsConfigured (options : SearchOptions) : option (list string) :=
  match o_tags options with
  | Some tags => if (0 <? length tags)%nat then Some tags else None
  | None => None
  end.

Definition foldersConfigured (options : SearchOptions) : option (list string) :=
  match o_folders options with
  | Some folders => if (0 <? length folders)%nat then Some folders else None
  | None => None
  end.

Definition applyFilters (env : Env) (results : list SearchResult) (options : SearchOptions)
  : list SearchResult :=
  let filtered := results in
  let filtered :=
    if fileTypeConfigured options then filter (fileTypeTest options) filtered else filtered in
  let filtered :=
    match o_dateRange options with
    | Some range => filter (dateRangeTest env range) filtered
    | None => filtered
    end in
  let filtered :=
    match tagsConfigured options with
    | Some tags => filter (tagsTest tags) filtered
    | None => filtered
    end in
  let filtered :=
    match foldersConfigured options with
    | Some folders => filter (foldersTest folders) filtered
    | None => filtered
    end in
  filtered.

(* ------------------------------------------------------------------------- *)
(** ** Sorting *)

(** [new Date(r.metadata.modified || 0).getTime()] *)
Definition modifiedTime (env : Env) (r : SearchResult) : num :=
  if truthy_str (m_modified (r_metadata r)) then
    match m_modified (r_metadata r) with
    | Some modified => date_time env modified
    | None => 0
    end
  else 0.

Definition comparison_of (env : Env) (options : SearchOptions) (a b : SearchResult) : num :=
  match o_sortBy options with
  | ByRelevance => byRelevance a b
  | ByDate => modifiedTime env b - modifiedTime env a
  | ByTitle => num_of_comparison (localeCompare env (r_title a) (r_title b))
  | BySize => opt_num_or (m_wordCount (r_metadata b)) 0 - opt_num_or (m_wordCount (r_metadata a)) 0
  end.

(** [return options.sortOrder === 'desc' ? comparison : -comparison] *)
Definition sortComparator (env : Env) (options : SearchOptions) (a b : SearchResult) : num :=
  match o_sortOrder options with
  | Desc => comparison_of env options a b
  | Asc => - comparison_of env options a b
  end.

Definition sortResults (env : Env) (results : list SearchResult) (options : SearchOptions)
  : list SearchResult :=
  sort_by_comparator (sortComparator env options) results.

(* ------------------------------------------------------------------------- *)
(** ** Engine state: cache and history *)

(** The object given to [JSON.stringify] in [generateCacheKey]; two options
    have the same key string exactly when these six fields agree. *)
Record CacheKey := {
  k_query : string;
  k_searchType : SearchType;
  k_useRerank : bool;
  k_fileTypes : list string;
  k_tags : option (list string);
  k_folders : option (list string)
}.

Definition generateCacheKey (options : SearchOptions) : CacheKey :=
  {| k_query := o_query options; k_searchType := o_searchType options;
     k_useRerank := o_useRerank options; k_fileTypes := o_fileTypes options;
     k_tags := o_tags options; k_folders := o_folders options |}.

Definition searchType_eqb (a b : SearchType) : bool :=
  match a, b with
  | Semantic, Semantic | Keyword, Keyword | Hybrid, Hybrid | AiEnhanced, AiEnhanced => true
  | _, _ => false
  end.

Fixpoint strings_eqb (a b : list string) : bool :=
  match a, b with
  | [], [] => true
  | x :: a', y :: b' => String.eqb x y && strings_eqb a' b'
  | _, _ => false
  end.

Definition opt_strings_eqb (a b : option (list string)) : bool :=
  match a, b with
  | None, None => true
  | Some x, Some y => strings_eqb x y
  | _, _ => false
  end.

Definition cacheKey_eqb (a b : CacheKey) : bool :=
  String.eqb (k_query a) (k_query b) &&
  searchType_eqb (k_searchType a) (k_searchType b) &&
  Bool.eqb (k_useRerank a) (k_useRerank b) &&
  strings_eqb (k_fileTypes a) (k_fileTypes b) &&
  opt_strings_eqb (k_tags a) (k_tags b) &&
  opt_strings_eqb (k_folders a) (k_folders b).

Record HistoryEntry := { h_query : string; h_timestamp : string; h_resultCount : nat }.

Record CacheEntry := { c_results : list SearchResult; c_timestamp : Z }.

Record Engine := {
  searchHistory : list HistoryEntry;
  searchCache : list (CacheKey * CacheEntry)
}.

(** The state of a new engine. *)
Definition newEngine : Engine := {| searchHistory := []; searchCache := [] |}.

(** [5 * 60 * 1000] milliseconds *)
Definition cacheTimeout : Z := (5 * 60 * 1000)%Z.

(** The clock as one call of [search] reads it: [Date.now()] at the cache
    lookup, [Date.now()] at the cache store, and [new Date().toISOString()]
    for the history entry. *)
Record Clock := { now_lookup : Z; now_store : Z; now_iso : string }.

(** [unshift] then [slice(0, 100)] *)
Definition addToHistory (history : list HistoryEntry) (query timestamp : string)
    (resultCount : nat) : list HistoryEntry :=
  firstn 100 ({| h_query := query; h_timestamp := timestamp; h_resultCount := resultCount |}
              :: history).

Definition getSearchHistory (st : Engine) : list HistoryEntry := searchHistory st.

Definition clearSearchHistory (st : Engine) : Engine :=
  {| searchHistory := []; searchCache := searchCache st |}.

Definition clearCache (st : Engine) : Engine :=
  {| searchHistory := searchHistory st; searchCache := [] |}.

(* ------------------------------------------------------------------------- *)
(** ** Orchestrator *)

Definition dispatch (env : Env) (options : SearchOptions) : M (list SearchResult) :=
  _ <- call (EvStrategy (o_searchType options)) (Ok tt) ;;
  match o_searchType options with
  | Semantic => semanticSearch env options
  | Keyword => keywordSearch env options
  | Hybrid => hybridSearch env options
  | AiEnhanced => aiEnhancedSearch env options
  end.

(** After the strategy: reranking if enabled, filters, sorting, truncation. *)
Definition postProcess (env : Env) (options : SearchOptions) (results : list SearchResult)
  : M (list SearchResult) :=
  results <- (if o_useRerank options && voyage_isReady env
              then rerankResults env (o_query options) results options
              else ret results) ;;
  let results := applyFilters env results options in
  let results := sortResults env results options in
  ret (slice0 (o_maxResults options) results).

(** The body of the [try] of [search] up to the truncation. *)
Definition pipeline (env : Env) (options : SearchOptions) : M (list SearchResult) :=
  results <- dispatch env options ;;
  postProcess env options results.

Definition cacheLookup (clock : Clock) (options : SearchOptions) (st : Engine)
  : option (list SearchResult) :=
  match map_get cacheKey_eqb (generateCacheKey options) (searchCache st) with
  | Some cached =>
      if (now_lookup clock - c_timestamp cached <? cacheTimeout)%Z
      then Some (c_results cached)
      else None
  | None => None
  end.

(** [search]: the events and the outcome of the call, and the engine after it. *)
Definition search (env : Env) (clock : Clock) (options : SearchOptions) (st : Engine)
  : M (list SearchResult) * Engine :=
  match cacheLookup clock options st with
  | Some results => (ret results, st)
  | None =>
      match pipeline env options with
      | (events, Ok results) =>
          ((events, Ok results),
           {| searchCache :=
                map_set cacheKey_eqb (generateCacheKey options)
                  {| c_results := results; c_timestamp := now_store clock |}
                  (searchCache st);
              searchHistory :=
                addToHistory (searchHistory st) (o_query options) (now_iso clock)
                             (length results) |})
      | (events, Err e) => ((events, Err e), st)
      end
  end.

(* ------------------------------------------------------------------------- *)
(** ** Analytics *)

Record Analytics := {
  totalSearches : nat;
  topQueries : list (string * nat);
  averageResults : num;
  searchTypes : list (string * nat)
}.

(** [queryCount.set(search.query, (queryCount.get(search.query) || 0) + 1)] *)
Definition countQuery (queryCount : list (string * nat)) (entry : HistoryEntry)
  : list (string * nat) :=
  map_set String.eqb (h_query entry)
    (match map_get String.eqb (h_query entry) queryCount with
     | Some n => n
     | None => 0
     end + 1)%nat
    queryCount.

(** [(a, b) => b.count - a.count] is positive: the counts are integers. *)
Definition byCountAfter (a b : string * nat) : bool :=
  (0 <? Z.of_nat (snd b) - Z.of_nat (snd a))%Z.

Definition getSearchAnalytics (st : Engine) : Analytics :=
  let queryCount := fold_left countQuery (searchHistory st) [] in
  let totalResults := fold_left (fun total entry => (total + h_resultCount entry)%nat)
                                (searchHistory st) 0%nat in
  {| totalSearches := length (searchHistory st);
     topQueries := firstn 10 (js_sort byCountAfter queryCount);
     averageResults :=
       if (0 <? length (searchHistory st))%nat
       then num_of_nat totalResults / num_of_nat (length (searchHistory st))
       else 0;
     searchTypes := [("semantic", 0%nat); ("keyword", 0%nat); ("hybrid", 0%nat);
                     ("ai_enhanced", 0%nat)] |}.

(* ------------------------------------------------------------------------- *)
(** ** Binary64: notions used to state the facts on comparators *)

Module Num.

Local Open Scope Z_scope.

Definition digits (m : positive) : Z := Zpos (digits2_pos m).

(** What is left of a positive mantissa: the sign [s] with a non-zero magnitude. *)
Definition nonzero_signed (s : bool) (x : spec_float) : Prop :=
  match x with
  | S754_finite s' _ _ => s' = s
  | S754_infinity s' => s' = s
  | _ => False
  end.

Definition is_zero_or_nan (x : spec_float) : Prop :=
  match x with
  | S754_zero _ => True
  | S754_nan => True
  | _ => False
  end.

Definition magnitude_cmp (mx : positive) (ex : Z) (my : positive) (ey : Z) : comparison :=
  match Z.compare ex ey with
  | Lt => Lt
  | Gt => Gt
  | Eq => Pos.compare_cont Eq mx my
  end.

End Num.

(* ------------------------------------------------------------------------- *)
(** ** Order of a sorted array *)

(** Adjacent elements of a sorted array: the comparator does not ask to swap. *)
Definition in_order {A : Type} (after : A -> A -> bool) (a b : A) : Prop := after a b = false.

(** Descending order of the numbers [key] along a list: between neighbours,
    and between any element and every later one. *)
Definition neighbours_descending {A : Type} (key : A -> num) (l : list A) : Prop :=
  Sorted (fun a b => (key b <=? key a) = true) l.

Definition descending {A : Type} (key : A -> num) (l : list A) : Prop :=
  StronglySorted (fun a b => (key b <=? key a) = true) l.

(** [r.finalScore ?? r.score]: the final score, the score when none is set. *)
Definition finalOf (r : SearchResult) : num :=
  match r_finalScore r with
  | Some f => f
  | None => r_score r
  end.

(* ------------------------------------------------------------------------- *)
(** ** A small vault, index and run time to evaluate the engine on *)

Definition demoFile (path ext : string) : TFile :=
  {| f_path := path; f_basename := path; f_extension := ext; f_ctime := 0; f_mtime := 0 |}.

(** A run time whose text primitives treat a text as one word, around the
    given embedding provider, index answer, vault listing and rerank provider;
    no text generator is configured.  [B.md] holds the text [invoice]. *)
Definition demoEnvOf (embedQuery : option (string -> result (list num)))
    (points : result (list Point)) (files : result (list TFile))
    (rerank : option (string -> list string -> Z -> result (list RerankItem))) : Env :=
  {| embeddings := embedQuery;
     qdrantClient := Some (fun _ _ => points);
     getMarkdownFiles := files;
     vault_read := fun f => Ok (if String.eqb (f_path f) "B.md" then "invoice" else "other");
     voyage_isEnabled := match rerank with Some _ => true | None => false end;
     voyage_provider := rerank;
     vercel_isInitialized := false;
     generateQuestions := fun _ _ => Err "no provider";
     generateText := fun _ => Err "no provider";
     toLowerCase := fun s => s;
     trim := fun s => s;
     split_ws := fun s => [s];
     split_lines := fun s => [s];
     re_count := fun content word => Ok (if String.eqb content word then 1%nat else 0%nat);
     re_word_exec := fun content word => Ok (if String.eqb content word then [0%nat] else []);
     strip_heading := fun s => s;
     strip_markup := fun s => s;
     parseFloat := fun _ => nan;
     date_time := fun _ => 0;
     date_iso := fun _ => Ok "1970-01-01T00:00:00.000Z";
     localeCompare := String.compare |}.

Definition demoPoints : list Point := [ {| p_text := Some "Document A"; p_score := Some 0.9 |} ].
Definition demoFiles : list TFile := [demoFile "B.md" "md"; demoFile "C.md" "md"].

(** The index knows one node, [Document A], at similarity 0.9; the vault holds
    [B.md] and [C.md]; no rerank provider is configured. *)
Definition demoEnv : Env :=
  demoEnvOf (Some (fun _ => Ok [1])) (Ok demoPoints) (Ok demoFiles) None.

(** The same without an embedding provider. *)
Definition noEmbeddingsEnv : Env := demoEnvOf None (Ok demoPoints) (Ok demoFiles) None.

(** The same with a vault that cannot list its files. *)
Definition brokenVaultEnv : Env :=
  demoEnvOf (Some (fun _ => Ok [1])) (Ok demoPoints) (Err "vault unavailable") None.

Definition demoOptions (q : string) (t : SearchType) : SearchOptions :=
  {| o_query := q; o_searchType := t; o_maxResults := 10; o_useRerank := false;
     o_rerankThreshold := 0.5; o_includeContent := true; o_fileTypes := [];
     o_dateRange := None; o_tags := None; o_folders := None;
     o_sortBy := ByRelevance; o_sortOrder := Desc |}.

Definition demoClock (t : Z) : Clock :=
  {| now_lookup := t; now_store := t; now_iso := "2024-01-01T00:00:00.000Z" |}.

(** A result with nothing but a title and a score. *)
Definition bare (id title : string) (score : num) : SearchResult :=
  {| r_id := id; r_title := title; r_content := title; r_file := None; r_score := score;
     r_rerankScore := None; r_finalScore := None;
     r_metadata := {| m_type := KExternal; m_source := "demo"; m_path := None; m_tags := None;
                      m_created := None; m_modified := None; m_wordCount := None;
                      m_highlights := None |} |}.

(* ------------------------------------------------------------------------- *)
(** ** Sequences of calls *)

(** The history entry a call of [search] adds: none when the answer comes
    from the cache or the pipeline throws. *)
Definition executed (env : Env) (clock : Clock) (options : SearchOptions) (st : Engine)
  : option HistoryEntry :=
  match cacheLookup clock options st with
  | Some _ => None
  | None =>
      match pipeline env options with
      | (_, Ok results) =>
          Some {| h_query := o_query options; h_timestamp := now_iso clock;
                  h_resultCount := length results |}
      | (_, Err _) => None
      end
  end.

(** Calls of [search] one after the other, each in its own environment and at
    its own time: the entries added, oldest first, and the engine at the end. *)
Fixpoint run (calls : list (Env * Clock * SearchOptions)) (st : Engine)
  : list HistoryEntry * Engine :=
  match calls with
  | [] => ([], st)
  | (env, clock, options) :: rest =>
      let (added, st') := run rest (snd (search env clock options st)) in
      (match executed env clock options st with
       | Some entry => entry :: added
       | None => added
       end, st')
  end.

(** [n] keyword searches for the queries [q<i>], [i] counting down. *)
Fixpoint demoCalls (n : nat) : list (Env * Clock * SearchOptions) :=
  match n with
  | O => []
  | S n' =>
      (demoEnv, demoClock 0, demoOptions (String.append "q" (string_of_index n')) Keyword)
      :: demoCalls n'
  end.

(** A result of the index: no file, no path, no tags, no dates. *)
Definition pathless : SearchResult := bare "semantic_0" "Untitled" 1.

(** Only the folder filter is configured. *)
Definition folderOptions : SearchOptions :=
  {| o_query := "invoice"; o_searchType := Hybrid; o_maxResults := 10; o_useRerank := false;
     o_rerankThreshold := 0.5; o_includeContent := true; o_fileTypes := [];
     o_dateRange := None; o_tags := None; o_folders := Some ["notes/"];
     o_sortBy := ByRelevance; o_sortOrder := Desc |}.

(** File types [md], the dates from 0 to 1000, and no tag or folder filter. *)
Definition fileDateOptions : SearchOptions :=
  {| o_query := "invoice"; o_searchType := Hybrid; o_maxResults := 10; o_useRerank := false;
     o_rerankThreshold := 0.5; o_includeContent := true; o_fileTypes := ["md"];
     o_dateRange := Some {| dr_from := 0; dr_to := 1000 |}; o_tags := None; o_folders := None;
     o_sortBy := ByRelevance; o_sortOrder := Desc |}.

(** A result attached to the file [report.pdf]. *)
Definition pdfResult : SearchResult :=
  {| r_id := "keyword_report.pdf"; r_title := "report"; r_content := "report";
     r_file := Some (demoFile "report.pdf" "pdf"); r_score := 1;
     r_rerankScore := None; r_finalScore := None;
     r_metadata := {| m_type := KFile; m_source := "vault"; m_path := Some "report.pdf";
                      m_tags := None; m_created := None; m_modified := None;
                      m_wordCount := None; m_highlights := None |} |}.

Definition titleOptions (order : SortOrder) : SearchOptions :=
  {| o_query := "fruit"; o_searchType := Keyword; o_maxResults := 10; o_useRerank := false;
     o_rerankThreshold := 0.5; o_includeContent := true; o_fileTypes := [];
     o_dateRange := None; o_tags := None; o_folders := None;
     o_sortBy := ByTitle; o_sortOrder := order |}.

Definition relevanceOptions (order : SortOrder) : SearchOptions :=
  {| o_query := "fruit"; o_searchType := Keyword; o_maxResults := 10; o_useRerank := false;
     o_rerankThreshold := 0.5; o_includeContent := true; o_fileTypes := [];
     o_dateRange := None; o_tags := None; o_folders := None;
     o_sortBy := ByRelevance; o_sortOrder := order |}.

(** How often a query occurs in the history. *)
Definition occurrences (q : string) (history : list HistoryEntry) : nat :=
  length (filter (fun entry => String.eqb (h_query entry) q) history).

(** The count kept under a key, [0] when the key is absent. *)
Definition count_of (q : string) (queryCount : list (string * nat)) : nat :=
  match map_get String.eqb q queryCount with
  | Some n => n
  | None => 0
  end.

Definition keys {K V : Type} (m : list (K * V)) : list K := map fst m.

(** A rerank provider that scores the first document 0.9 and the second 0.2. *)
Definition demoRerank : string -> list string -> Z -> result (list RerankItem) :=
  fun _ _ _ => Ok [ {| ri_index := 0; ri_relevance_score := 0.9 |};
                    {| ri_index := 1; ri_relevance_score := 0.2 |} ].

Definition rerankEnv : Env :=
  demoEnvOf (Some (fun _ => Ok [1])) (Ok demoPoints) (Ok demoFiles) (Some demoRerank).

(** What the code computes for one surviving pair. *)
Definition blended (original : SearchResult) (item : RerankItem) : SearchResult :=
  with_rerank original (ri_relevance_score item)
    (r_score original * 0.3 + ri_relevance_score item * 0.7).

(** [relevance_score >= rerankThreshold] *)
Definition survives (options : SearchOptions) (item : RerankItem) : bool :=
  o_rerankThreshold options <=? ri_relevance_score item.

(** Two candidates with the prior scores 0.5 and 0.8. *)
Definition twoResults : list SearchResult := [bare "a" "Document A" 0.5; bare "b" "Document B" 0.8].

(* ------------------------------------------------------------------------- *)
(** ** Notions to state the weighting *)

Definition ids (results : list SearchResult) : list string := map r_id results.

(** A result with its weighted score as [finalScore]. *)
Definition weighted (w : num) (r : SearchResult) : SearchResult :=
  with_finalScore r (r_score r * w).

(** A semantic result [s] and a lexical result [k] of one id, combined: the
    semantic result with the sum of the two weighted scores and up to five of
    the highlights of both. *)
Definition combined_both (s k : SearchResult) : SearchResult :=
  update_existing (weighted 0.7 s) (r_score s * 0.7 + r_score k * 0.3)
    (firstn 5 (highlights_or_empty s ++ highlights_or_empty k)).

(** The first result of a list with the given id. *)
Definition find_by_id (i : string) (results : list SearchResult) : option SearchResult :=
  find (fun r => String.eqb (r_id r) i) results.

(** The semantic hit A (similarity 0.9) and the lexical hit B (score 1). *)
Definition documentA : SearchResult := bare "semantic_0" "Document A" 0.9.
Definition documentB : SearchResult := bare "keyword_B.md" "B" 1.

(* ------------------------------------------------------------------------- *)
(** ** Notions to state what the strategies return *)

(** The semantic results a hybrid search works with: none when the semantic
    search fails. *)
Definition semanticOrEmpty (env : Env) (options : SearchOptions) : list SearchResult :=
  match outcome (semanticSearch env options) with
  | Ok semanticResults => semanticResults
  | Err _ => []
  end.

(** What the loop of [keywordSearch] adds for one file: nothing when reading
    or scoring throws, or when no word matches. *)
Definition keywordFile (env : Env) (options : SearchOptions) (queryWords : list string)
    (file : TFile) : list SearchResult :=
  match vault_read env file with
  | Ok content =>
      match keywordResult env options queryWords file content with
      | Ok (Some r) => [r]
      | _ => []
      end
  | Err _ => []
  end.

(** What one lexical result does to the entry of its id. *)
Definition keyword_entry (existing : option SearchResult) (k : SearchResult) : SearchResult :=
  match existing with
  | Some e =>
      update_existing e (opt_num_or (r_finalScore e) (r_score e) + r_score k * 0.3)
        (firstn 5 (highlights_or_empty e ++ highlights_or_empty k))
  | None => weighted 0.3 k
  end.

(** Two states of the index: the node [Document A] is the first neighbour in
    one and the second in the other. *)
Definition indexBefore : Env :=
  demoEnvOf (Some (fun _ => Ok [1]))
    (Ok [ {| p_text := Some "Document A"; p_score := Some 0.9 |};
          {| p_text := Some "Document B"; p_score := Some 0.8 |} ])
    (Ok demoFiles) None.

Definition indexAfter : Env :=
  demoEnvOf (Some (fun _ => Ok [1]))
    (Ok [ {| p_text := Some "Document B"; p_score := Some 0.95 |};
          {| p_text := Some "Document A"; p_score := Some 0.9 |} ])
    (Ok demoFiles) None.

(** Two candidates with negative prior scores, both given the relevance 0.3. *)
Definition negativeResults : list SearchResult :=
  [bare "a" "Document A" (-0.7); bare "b" "Document B" (-0.9)].

Definition evenRerankEnv : Env :=
  demoEnvOf (Some (fun _ => Ok [1])) (Ok demoPoints) (Ok demoFiles)
    (Some (fun _ _ _ => Ok [ {| ri_index := 0; ri_relevance_score := 0.3 |};
                             {| ri_index := 1; ri_relevance_score := 0.3 |} ])).

(** Reranking with the threshold 0.1. *)
Definition lowThresholdOptions : SearchOptions :=
  {| o_query := "invoice"; o_searchType := Hybrid; o_maxResults := 10; o_useRerank := true;
     o_rerankThreshold := 0.1; o_includeContent := true; o_fileTypes := [];
     o_dateRange := None; o_tags := None; o_folders := None;
     o_sortBy := ByRelevance; o_sortOrder := Desc |}.

(** No pattern is found more than [bound] times in a text: strings have a
    bounded length, which bounds in turn the counts [keywordSearch] adds up. *)
Definition matchesBelow (env : Env) (bound : nat) : Prop :=
  forall content word matches, re_count env content word = Ok matches -> (matches <= bound)%nat.

(* ------------------------------------------------------------------------- *)
(** ** Notions to state the order of [sortResults] *)

(** Ascending order of the numbers [key] along a list. *)
Definition ascending {A : Type} (key : A -> num) (l : list A) : Prop :=
  StronglySorted (fun a b => (key a <=? key b) = true) l.

(** The number [sortResults] compares for [sortBy] other than ['title']. *)
Definition sortField (env : Env) (options : SearchOptions) (r : SearchResult) : num :=
  match o_sortBy options with
  | ByRelevance => sortKey r
  | ByDate => modifiedTime env r
  | ByTitle => 0
  | BySize => opt_num_or (m_wordCount (r_metadata r)) 0
  end.

(* ------------------------------------------------------------------------- *)
(** ** Notions to state how the engine degrades *)

(** What the callback of [analyzeResultsWithAI] makes of one result: the
    result itself when the generator throws. *)
Definition analyzed (env : Env) (query : string) (r : SearchResult) : SearchResult :=
  match generateText env (relevancePrompt query r) with
  | Ok analysis =>
      with_finalScore r
        (r_score r * 0.5 + num_or (parseFloat env (trim env analysis)) (r_score r) * 0.5)
  | Err _ => r
  end.

(** [top_k || 10], what the rerank provider is sent for [maxResults]. *)
Definition topK_of (options : SearchOptions) : Z :=
  if (o_maxResults options =? 0)%Z then 10%Z else o_maxResults options.

(** An environment with an initialized text generator. *)
Definition with_textGenerator (env : Env)
    (questions : string -> nat -> result (list string))
    (text : list ChatMessage -> result string) (parse : string -> num) : Env :=
  {| embeddings := embeddings env; qdrantClient := qdrantClient env;
     getMarkdownFiles := getMarkdownFiles env; vault_read := vault_read env;
     voyage_isEnabled := voyage_isEnabled env; voyage_provider := voyage_provider env;
     vercel_isInitialized := true;
     generateQuestions := questions; generateText := text;
     toLowerCase := toLowerCase env; trim := trim env; split_ws := split_ws env;
     split_lines := split_lines env; re_count := re_count env;
     re_word_exec := re_word_exec env; strip_heading := strip_heading env;
     strip_markup := strip_markup env; parseFloat := parse;
     date_time := date_time env; date_iso := date_iso env;
     localeCompare := localeCompare env |}.

(** An environment whose regular expressions are built by [count]. *)
Definition with_re_count (env : Env) (count : string -> string -> result nat) : Env :=
  {| embeddings := embeddings env; qdrantClient := qdrantClient env;
     getMarkdownFiles := getMarkdownFiles env; vault_read := vault_read env;
     voyage_isEnabled := voyage_isEnabled env; voyage_provider := voyage_provider env;
     vercel_isInitialized := vercel_isInitialized env;
     generateQuestions := generateQuestions env; generateText := generateText env;
     toLowerCase := toLowerCase env; trim := trim env; split_ws := split_ws env;
     split_lines := split_lines env; re_count := count;
     re_word_exec := re_word_exec env; strip_heading := strip_heading env;
     strip_markup := strip_markup env; parseFloat := parseFloat env;
     date_time := date_time env; date_iso := date_iso env;
     localeCompare := localeCompare env |}.

(** A rerank provider whose request fails. *)
Definition failingRerankEnv : Env :=
  demoEnvOf (Some (fun _ => Ok [1])) (Ok demoPoints) (Ok demoFiles)
    (Some (fun _ _ _ => Err "Voyage AI rerank failed: 500")).

(** A rerank provider that names a document the list does not have. *)
Definition strayRerankEnv : Env :=
  demoEnvOf (Some (fun _ => Ok [1])) (Ok demoPoints) (Ok demoFiles)
    (Some (fun _ _ _ => Ok [ {| ri_index := 0; ri_relevance_score := 0.9 |};
                             {| ri_index := 7; ri_relevance_score := 0.8 |} ])).

(** The options of [demoOptions] with another [maxResults]. *)
Definition with_maxResults (o : SearchOptions) (n : Z) : SearchOptions :=
  {| o_query := o_query o; o_searchType := o_searchType o; o_maxResults := n;
     o_useRerank := o_useRerank o; o_rerankThreshold := o_rerankThreshold o;
     o_includeContent := o_includeContent o; o_fileTypes := o_fileTypes o;
     o_dateRange := o_dateRange o; o_tags := o_tags o; o_folders := o_folders o;
     o_sortBy := o_sortBy o; o_sortOrder := o_sortOrder o |}.

(** A ready text generator that gives every prompt the same answer; the
    answers [0.9] and [0] parse as these numbers, any other as NaN. *)
Definition ratingEnv (answer : result string) : Env :=
  with_textGenerator demoEnv (fun _ _ => Ok []) (fun _ => answer)
    (fun s => if String.eqb s "0.9" then 0.9 else if String.eqb s "0" then 0 else nan).

(* ------------------------------------------------------------------------- *)
(** ** Notions to state the deduplication *)

(** The keys of a list in the order of their first occurrence, those in
    [seen] left out. *)
Fixpoint distinct (seen l : list string) : list string :=
  match l with
  | [] => []
  | k :: l' => if includes seen k then distinct seen l' else k :: distinct (seen ++ [k]) l'
  end.

Definition firstOccurrences (l : list string) : list string := distinct [] l.

(** One turn of the loop of [deduplicateResults]. *)
Definition dedupStep (seen : list (string * SearchResult)) (result : SearchResult)
  : list (string * SearchResult) :=
  match map_get String.eqb (dedupKey result) seen with
  | None => map_set String.eqb (dedupKey result) result seen
  | Some existing =>
      if sortKey existing <? sortKey result
      then map_set String.eqb (dedupKey result) result seen
      else seen
  end.

(** Three hits on two titles. *)
Definition repeatedResults : list SearchResult :=
  [bare "1" "Invoices" 0.4; bare "2" "Receipts" 0.6; bare "3" "Invoices" 0.9;
   bare "4" "Receipts" 0.6].

(** An entry of [seen] is kept under the key of its result. *)
Definition keyed (m : list (string * SearchResult)) : Prop :=
  forall k v, In (k, v) m -> dedupKey v = k.

(* ------------------------------------------------------------------------- *)
(** ** Notions to state what the filters keep *)

(** The test a result has to pass: every configured filter's. *)
Definition passesFilters (env : Env) (options : SearchOptions) (r : SearchResult) : bool :=
  (if fileTypeConfigured options then fileTypeTest options r else true) &&
  match o_dateRange options with
  | Some range => dateRangeTest env range r
  | None => true
  end &&
  match tagsConfigured options with
  | Some tags => tagsTest tags r
  | None => true
  end &&
  match foldersConfigured options with
  | Some folders => foldersTest folders r
  | None => true
  end.

(** No filter is configured: no file type, no date range, and for tags and
    folders no array or an empty one. *)
Definition unfiltered (options : SearchOptions) : Prop :=
  o_fileTypes options = [] /\ o_dateRange options = None /\
  (o_tags options = None \/ o_tags options = Some []) /\
  (o_folders options = None \/ o_folders options = Some []).

(* ------------------------------------------------------------------------- *)
(** ** Notions to state what no strategy produces *)

(** A property of results that the updates of scores and highlights keep. *)
Definition preserved (P : SearchResult -> Prop) : Prop :=
  forall r, P r ->
    (forall f, P (with_finalScore r f)) /\
    (forall s f, P (with_rerank r s f)) /\
    (forall f h, P (update_existing r f h)).

Definition untagged (r : SearchResult) : Prop := m_tags (r_metadata r) = None.

Definition unplaced (r : SearchResult) : Prop := m_path (r_metadata r) = None.

(** The options of [demoOptions] with a tag filter. *)
Definition tagOptions (t : SearchType) : SearchOptions :=
  {| o_query := "invoice"; o_searchType := t; o_maxResults := 10; o_useRerank := false;
     o_rerankThreshold := 0.5; o_includeContent := true; o_fileTypes := [];
     o_dateRange := None; o_tags := Some ["finance"]; o_folders := None;
     o_sortBy := ByRelevance; o_sortOrder := Desc |}.


(* ------------------------------------------------------------------------- *)
(** ** Saved searches and the settings

    The engine together with what it keeps of [plugin.settings]: the array
    [savedSearches], read by the constructor and written after every change of
    the saved searches, and the array [searchHistory], written after every
    change of the history and never read. *)

(** [Map.delete] *)
Section JsMapDelete.
Context {K V : Type} (eqb : K -> K -> bool).

Fixpoint map_delete (k : K) (m : list (K * V)) : list (K * V) :=
  match m with
  | [] => []
  | (k', v) :: m' => if eqb k k' then m' else (k', v) :: map_delete k m'
  end.
End JsMapDelete.

(** A value of type [any], as far as JSON has it. *)
#[warnings="-register-all"]
Inductive JsonValue :=
  | JNull
  | JBool (b : bool)
  | JNum (n : num)
  | JStr (s : string)
  | JArr (items : list JsonValue).

Inductive FilterType := FTag | FFolder | FDate | FSize | FType.
Inductive FilterOperator := OpEquals | OpContains | OpGreater | OpLess | OpBetween.

Record SearchFilter := {
  sf_id : string;
  sf_name : string;
  sf_type : FilterType;
  sf_value : JsonValue;
  sf_operator : FilterOperator
}.

Record SavedSearch := {
  ss_id : string;
  ss_name : string;
  ss_query : string;
  ss_options : SearchOptions;
  ss_filters : list SearchFilter;
  ss_created : string;
  ss_lastUsed : string;
  ss_useCount : nat
}.

(** [plugin.settings.searchHistory] and [plugin.settings.savedSearches];
    [None] is a missing property. *)
Record Settings := {
  st_searchHistory : option (list HistoryEntry);
  st_savedSearches : option (list SavedSearch)
}.

Record Plugin := {
  engine : Engine;
  savedSearches : list (string * SavedSearch);
  settings : Settings
}.

(** [`${n}`] for an integer. *)
Definition string_of_Z (n : Z) : string := NilZero.string_of_int (Z.to_int n).

(** [`search_${Date.now()}`] *)
Definition savedId (now : Z) : string := String.append "search_" (string_of_Z now).

Definition loadSavedSearches (s : Settings) : list (string * SavedSearch) :=
  fold_left (fun m search => map_set String.eqb (ss_id search) search m)
            (match st_savedSearches s with
             | Some saved => saved
             | None => []
             end)
            [].

(** The constructor: the history starts empty, the saved searches are those
    of the settings. *)
Definition newPlugin (s : Settings) : Plugin :=
  {| engine := newEngine; savedSearches := loadSavedSearches s; settings := s |}.

Definition saveSavedSearches (p : Plugin) : Plugin :=
  {| engine := engine p; savedSearches := savedSearches p;
     settings := {| st_searchHistory := st_searchHistory (settings p);
                    st_savedSearches := Some (map_values (savedSearches p)) |} |}.

Definition saveSearchHistory (p : Plugin) : Plugin :=
  {| engine := engine p; savedSearches := savedSearches p;
     settings := {| st_searchHistory := Some (searchHistory (engine p));
                    st_savedSearches := st_savedSearches (settings p) |} |}.

Definition with_savedSearches (p : Plugin) (m : list (string * SavedSearch)) : Plugin :=
  {| engine := engine p; savedSearches := m; settings := settings p |}.

(** [saveSearch] at the time [now]; [created] and [lastUsed] are the two
    readings of [new Date().toISOString()]. *)
Definition saveSearch (now : Z) (created lastUsed : string) (name query : string)
    (options : SearchOptions) (filters : list SearchFilter) (p : Plugin) : Plugin :=
  let savedSearch :=
    {| ss_id := savedId now; ss_name := name; ss_query := query; ss_options := options;
       ss_filters := filters; ss_created := created; ss_lastUsed := lastUsed;
       ss_useCount := 0 |} in
  saveSavedSearches
    (with_savedSearches p (map_set String.eqb (ss_id savedSearch) savedSearch (savedSearches p))).

(** [(a, b) => new Date(b.lastUsed).getTime() - new Date(a.lastUsed).getTime()] *)
Definition byLastUsed (env : Env) (a b : SavedSearch) : num :=
  date_time env (ss_lastUsed b) - date_time env (ss_lastUsed a).

Definition getSavedSearches (env : Env) (p : Plugin) : list SavedSearch :=
  sort_by_comparator (byLastUsed env) (map_values (savedSearches p)).

(** [search] on the engine of the plugin; [addToHistory] writes the history
    to the settings. *)
Definition searchWithSettings (env : Env) (clock : Clock) (options : SearchOptions)
    (p : Plugin) : M (list SearchResult) * Plugin :=
  let (answer, st) := search env clock options (engine p) in
  let p' := {| engine := st; savedSearches := savedSearches p; settings := settings p |} in
  (answer,
   match executed env clock options (engine p) with
   | Some _ => saveSearchHistory p'
   | None => p'
   end).

(** [savedSearch.lastUsed = ...; savedSearch.useCount++] *)
Definition used (s : SavedSearch) (lastUsed : string) : SavedSearch :=
  {| ss_id := ss_id s; ss_name := ss_name s; ss_query := ss_query s;
     ss_options := ss_options s; ss_filters := ss_filters s; ss_created := ss_created s;
     ss_lastUsed := lastUsed; ss_useCount := S (ss_useCount s) |}.

(** The saved search is an object of the map, updated where it is. *)
Definition executeSavedSearch (env : Env) (lastUsed : string) (clock : Clock)
    (searchId : string) (p : Plugin) : M (list SearchResult) * Plugin :=
  match map_get String.eqb searchId (savedSearches p) with
  | None => (throw "Saved search not found", p)
  | Some savedSearch =>
      searchWithSettings env clock (ss_options savedSearch)
        (saveSavedSearches
           (with_savedSearches p
              (map_set String.eqb searchId (used savedSearch lastUsed) (savedSearches p))))
  end.

Definition deleteSavedSearch (searchId : string) (p : Plugin) : Plugin :=
  saveSavedSearches (with_savedSearches p (map_delete String.eqb searchId (savedSearches p))).

Definition clearSearchHistoryWithSettings (p : Plugin) : Plugin :=
  saveSearchHistory
    {| engine := clearSearchHistory (engine p); savedSearches := savedSearches p;
       settings := settings p |}.

(** [destroy] *)
Definition destroy (p : Plugin) : Plugin :=
  {| engine := clearCache (engine p); savedSearches := savedSearches p;
     settings := settings p |}.

(** The states of a plugin: built from settings, then changed by the public
    methods of the engine. *)
Inductive reachable : Plugin -> Prop :=
  | reach_new : forall s, reachable (newPlugin s)
  | reach_saveSearch : forall p now created lastUsed name query options filters,
      reachable p ->
      reachable (saveSearch now created lastUsed name query options filters p)
  | reach_executeSavedSearch : forall p env lastUsed clock searchId,
      reachable p -> reachable (snd (executeSavedSearch env lastUsed clock searchId p))
  | reach_deleteSavedSearch : forall p searchId,
      reachable p -> reachable (deleteSavedSearch searchId p)
  | reach_search : forall p env clock options,
      reachable p -> reachable (snd (searchWithSettings env clock options p))
  | reach_clearSearchHistory : forall p,
      reachable p -> reachable (clearSearchHistoryWithSettings p)
  | reach_destroy : forall p, reachable p -> reachable (destroy p).

(** Every saved search is kept under its id, and no id twice. *)
Definition wellKeyed (m : list (string * SavedSearch)) : Prop :=
  NoDup (keys m) /\ forall k s, In (k, s) m -> ss_id s = k.

(** Settings and fixtures to evaluate the saved searches on. *)
Definition noSettings : Settings := {| st_searchHistory := None; st_savedSearches := None |}.

Definition invoices : Plugin :=
  saveSearch 1700000000000 "2023-11-14T22:13:20.000Z" "2023-11-14T22:13:20.000Z"
    "Invoices" "invoice" (demoOptions "invoice" Keyword) [] (newPlugin noSettings).

(* ------------------------------------------------------------------------- *)
(** ** The text generator (vercel-ai.ts, here src/unnamed/part_001)

    [VercelAIProvider] keeps a map of providers and a map of configurations;
    [VercelAIIntegration] owns one and remembers whether it was initialized.
    A value of the map [providers] is what JavaScript can call or cannot: a
    function, or a plain object. *)

Module VercelAI.

Record AIProviderConfig := {
  pc_name : string;
  pc_apiKey : string;
  pc_baseUrl : option string;
  pc_model : string;
  pc_enabled : bool
}.

#[warnings="-register-all"]
Inductive ProviderValue :=
  | ProviderObject (name baseUrl : string)
  | ProviderFunction (make : string -> option string -> result ProviderValue).

(** [provider({ apiKey, baseURL })]: calling what is not a function throws. *)
Definition callProvider (provider : ProviderValue) (apiKey : string) (baseURL : option string)
  : result ProviderValue :=
  match provider with
  | ProviderFunction make => make apiKey baseURL
  | ProviderObject _ _ => Err "TypeError: provider is not a function"
  end.

Record VercelAIProvider := {
  providers : list (string * ProviderValue);
  configs : list (string * AIProviderConfig);
  defaultProvider : string
}.

(** The constructor, with [initializeProviders]. *)
Definition newProvider : VercelAIProvider :=
  {| providers :=
       map_set String.eqb "mistral" (ProviderObject "mistral" "https://api.mistral.ai/v1")
         (map_set String.eqb "google"
            (ProviderObject "google" "https://generativelanguage.googleapis.com/v1")
            (map_set String.eqb "anthropic"
               (ProviderObject "anthropic" "https://api.anthropic.com/v1")
               (map_set String.eqb "openai"
                  (ProviderObject "openai" "https://api.openai.com/v1") [])));
     configs := [];
     defaultProvider := "openai" |}.

(** [addProvider]: what is thrown inside is caught, and the answer is
    [false]. *)
Definition addProvider (config : AIProviderConfig) (p : VercelAIProvider)
  : bool * VercelAIProvider :=
  match map_get String.eqb (pc_name config) (providers p) with
  | None => (false, p)
  | Some provider =>
      match callProvider provider (pc_apiKey config) (pc_baseUrl config) with
      | Err _ => (false, p)
      | Ok configuredProvider =>
          let configs' := map_set String.eqb (pc_name config) config (configs p) in
          (true,
           {| providers := map_set String.eqb (pc_name config) configuredProvider (providers p);
              configs := configs';
              defaultProvider :=
                if pc_enabled config && (length configs' =? 1)%nat
                then pc_name config else defaultProvider p |})
      end
  end.

Definition setDefaultProvider (providerName : string) (p : VercelAIProvider)
  : bool * VercelAIProvider :=
  match map_get String.eqb providerName (configs p) with
  | Some config =>
      if pc_enabled config
      then (true, {| providers := providers p; configs := configs p;
                     defaultProvider := providerName |})
      else (false, p)
  | None => (false, p)
  end.

Definition getAvailableProviders (p : VercelAIProvider) : list AIProviderConfig :=
  filter pc_enabled (map_values (configs p)).

(** [providerName || this.defaultProvider] *)
Definition nameOf (providerName : option string) (p : VercelAIProvider) : string :=
  match providerName with
  | Some name => if String.eqb name "" then defaultProvider p else name
  | None => defaultProvider p
  end.

Definition getProvider (providerName : option string) (p : VercelAIProvider)
  : result (ProviderValue * AIProviderConfig) :=
  let name := nameOf providerName p in
  match map_get String.eqb name (providers p), map_get String.eqb name (configs p) with
  | Some provider, Some config =>
      if pc_enabled config then Ok (provider, config)
      else Err (String.concat "" ["Provider "; name; " not available or not enabled"])
  | _, _ => Err (String.concat "" ["Provider "; name; " not available or not enabled"])
  end.

(** [messages[messages.length - 1]?.content || 'No content'] *)
Definition lastContent (messages : list ChatMessage) : string :=
  match last (map Some messages) None with
  | Some message => if String.eqb (cm_content message) "" then "No content"
                    else cm_content message
  | None => "No content"
  end.

Definition generateText (messages : list ChatMessage) (providerName : option string)
    (p : VercelAIProvider) : result string :=
  rbind (getProvider providerName p) (fun pc =>
  Ok (String.concat ""
        ["Generated response from "; pc_name (snd pc); " for: "; lastContent messages])).

Definition questionsPrompt (content : string) (count : nat) : list ChatMessage :=
  [ {| cm_role := "system";
       cm_content :=
         String.concat ""
           [ "You are an educational content expert. Generate "; string_of_index count;
             " thoughtful questions based on the given content that would help someone understand and engage with the material better." ] |};
    {| cm_role := "user";
       cm_content :=
         String.concat ""
           [ "Content:"; newline; newline; content; newline; newline; "Generate ";
             string_of_index count; " questions about this content." ] |} ].

(** [response.split('\n').filter(line => line.trim().length > 0).slice(0, count)];
    [lines] and [trim] are the string primitives of the run time. *)
Definition generateQuestions (lines : string -> list string) (trim : string -> string)
    (content : string) (count : nat) (p : VercelAIProvider) : result (list string) :=
  rbind (generateText (questionsPrompt content count) None p) (fun response =>
  Ok (firstn count (filter (fun line => (0 <? String.length (trim line))%nat)
                           (lines response)))).

Record VercelAIIntegration := {
  provider : VercelAIProvider;
  isInitialized : bool
}.

Definition newIntegration : VercelAIIntegration :=
  {| provider := newProvider; isInitialized := false |}.

(** The loop of [initialize]: the providers added and their number. *)
Fixpoint addProviders (cs : list AIProviderConfig) (p : VercelAIProvider) (successCount : nat)
  : nat * VercelAIProvider :=
  match cs with
  | [] => (successCount, p)
  | config :: cs' =>
      let (added, p') := addProvider config p in
      addProviders cs' p' (if added then S successCount else successCount)
  end.

(** [initialize]: with no provider added, the error thrown is caught and the
    answer is [false]. *)
Definition initialize (cs : list AIProviderConfig) (v : VercelAIIntegration)
  : bool * VercelAIIntegration :=
  let (successCount, p) := addProviders cs (provider v) 0 in
  if (0 <? successCount)%nat
  then (true, {| provider := p; isInitialized := true |})
  else (false, {| provider := p; isInitialized := isInitialized v |}).

Definition isReady (v : VercelAIIntegration) : bool := isInitialized v.

Definition destroyIntegration (v : VercelAIIntegration) : VercelAIIntegration :=
  {| provider := provider v; isInitialized := false |}.

(** The states of the integration: a new one, changed by its public methods
    and by those of the provider it hands out. *)
Inductive reachable : VercelAIIntegration -> Prop :=
  | reach_new : reachable newIntegration
  | reach_initialize : forall v cs, reachable v -> reachable (snd (initialize cs v))
  | reach_destroy : forall v, reachable v -> reachable (destroyIntegration v)
  | reach_addProvider : forall v config,
      reachable v ->
      reachable {| provider := snd (addProvider config (provider v));
                   isInitialized := isInitialized v |}
  | reach_setDefaultProvider : forall v providerName,
      reachable v ->
      reachable {| provider := snd (setDefaultProvider providerName (provider v));
                   isInitialized := isInitialized v |}.

(** What holds of a provider no configuration was added to. *)
Definition unconfigured (p : VercelAIProvider) : Prop :=
  configs p = [] /\ defaultProvider p = "openai" /\
  Forall (fun entry => exists name baseUrl, snd entry = ProviderObject name baseUrl)
         (providers p).

End VercelAI.

(** The environment of the engine, with the text generator of an integration;
    [lines] and [trim] are the string primitives its [generateQuestions]
    uses. *)
Definition with_vercel (env : Env) (v : VercelAI.VercelAIIntegration)
    (lines : string -> list string) : Env :=
  {| embeddings := embeddings env; qdrantClient := qdrantClient env;
     getMarkdownFiles := getMarkdownFiles env; vault_read := vault_read env;
     voyage_isEnabled := voyage_isEnabled env; voyage_provider := voyage_provider env;
     vercel_isInitialized := VercelAI.isReady v;
     generateQuestions := fun content count =>
       VercelAI.generateQuestions lines (trim env) content count (VercelAI.provider v);
     generateText := fun messages => VercelAI.generateText messages None (VercelAI.provider v);
     toLowerCase := toLowerCase env; trim := trim env; split_ws := split_ws env;
     split_lines := split_lines env; re_count := re_count env;
     re_word_exec := re_word_exec env; strip_heading := strip_heading env;
     strip_markup := strip_markup env; parseFloat := parseFloat env;
     date_time := date_time env; date_iso := date_iso env;
     localeCompare := localeCompare env |}.

(* ------------------------------------------------------------------------- *)
(** ** The search command of the plugin (main.ts, [openEnhancedSearch]) *)

(** The settings the command reads. *)
Record SearchSettings := {
  defaultSearchType : SearchType;
  enableSearchRerank : bool;
  rerankThreshold : num
}.

(** What the user gets to see: nothing, the modal with the results, or a
    notice. *)
Inductive Shown :=
  | ShownNothing
  | ShownResults (results : list SearchResult)
  | ShownNotice (message : string).

Definition commandOptions (s : SearchSettings) (query : string) : SearchOptions :=
  {| o_query := query; o_searchType := defaultSearchType s; o_maxResults := 20;
     o_useRerank := enableSearchRerank s; o_rerankThreshold := rerankThreshold s;
     o_includeContent := true; o_fileTypes := ["md"]; o_dateRange := None;
     o_tags := None; o_folders := None; o_sortBy := ByRelevance; o_sortOrder := Desc |}.

(** [answer] is what [prompt] returns: [None] when the user cancels. *)
Definition openEnhancedSearch (env : Env) (clock : Clock) (s : SearchSettings)
    (answer : option string) (st : Engine) : list Event * Shown * Engine :=
  if truthy_str answer then
    match answer with
    | Some query =>
        match search env clock (commandOptions s query) st with
        | ((events, Ok results), st') => (events, ShownResults results, st')
        | ((events, Err e), st') =>
            (events, ShownNotice (String.append "Search failed: " e), st')
        end
    | None => ([], ShownNothing, st)
    end
  else ([], ShownNothing, st).

Definition demoSettings : SearchSettings :=
  {| defaultSearchType := Hybrid; enableSearchRerank := false; rerankThreshold := 0.1 |}.

(* ------------------------------------------------------------------------- *)
(** ** The rerank provider (src/src/voyage-ai.ts)

    [VoyageAIProvider] talks to the rerank service; what the service answers
    to a request is a function of the request.  [VoyageAIIntegration] owns a
    provider once [initialize] was called; [initialize] enables it when the
    connection test of that provider has succeeded. *)

Module VoyageAI.

Record RerankResult := {
  index : nat;
  relevance_score : num;
  document : option string
}.

Record RerankResponse := { data : list RerankResult; model : string }.

(** The exchange with the service: query, documents and [top_k] of the
    request body, and the parsed answer, or the error thrown for a status
    that is not OK or a failed request. *)
Definition Service := string -> list string -> Z -> result RerankResponse.

(** [rerank]: the body carries [request.top_k || 10]. *)
Definition rerank (service : Service) (query : string) (documents : list string) (top_k : Z)
  : result RerankResponse :=
  service query documents (if (top_k =? 0)%Z then 10%Z else top_k).

(** A search result as these methods take it; [metadata] is an object or
    missing. *)
Record Hit := {
  hit_text : string;
  hit_score : num;
  hit_metadata : option (list (string * JsonValue))
}.

Record Reranked := {
  rr_text : string;
  rr_score : num;
  rr_rerankScore : num;
  rr_metadata : option (list (string * JsonValue))
}.

Record Enhanced := {
  en_text : string;
  en_score : num;
  en_rerankScore : num;
  en_finalScore : num;
  en_metadata : option (list (string * JsonValue))
}.

(** The callback of [.map] in [rerankSearchResults]: reading the score of
    [searchResults[result.index]] throws when the index is out of range. *)
Definition reranked (searchResults : list Hit) (modelName : string) (r : RerankResult)
  : result Reranked :=
  match nth_error searchResults (index r) with
  | Some original =>
      Ok {| rr_text := if truthy_str (document r)
                       then match document r with Some d => d | None => hit_text original end
                       else hit_text original;
            rr_score := hit_score original;
            rr_rerankScore := relevance_score r;
            rr_metadata :=
              Some (map_set String.eqb "rerankModel" (JStr modelName)
                      (map_set String.eqb "originalIndex" (JNum (num_of_nat (index r)))
                         (match hit_metadata original with
                          | Some fields => fields
                          | None => []
                          end))) |}
  | None => Err "TypeError"
  end.

(** [{ ...result, rerankScore: result.score }] *)
Definition unranked (h : Hit) : Reranked :=
  {| rr_text := hit_text h; rr_score := hit_score h; rr_rerankScore := hit_score h;
     rr_metadata := hit_metadata h |}.

Definition rerankSearchResults (service : Service) (query : string) (searchResults : list Hit)
    (topK : Z) (threshold : num) : result (list Reranked) :=
  if (length searchResults =? 0)%nat then Ok []
  else
    match rbind (rerank service query (map hit_text searchResults)
                   (Z.min topK (Z.of_nat (length (map hit_text searchResults)))))
                (fun rerankResponse =>
                   mapR (reranked searchResults (model rerankResponse))
                        (filter (fun r => threshold <=? relevance_score r)
                                (data rerankResponse)))
    with
    | Ok rerankedResults => Ok rerankedResults
    | Err _ => Ok (map unranked (slice0 topK searchResults))
    end.

Definition enhance (useSemanticBoost : bool) (r : Reranked) : Enhanced :=
  {| en_text := rr_text r; en_score := rr_score r; en_rerankScore := rr_rerankScore r;
     en_finalScore := if useSemanticBoost
                      then rr_score r * 0.3 + rr_rerankScore r * 0.7
                      else rr_rerankScore r;
     en_metadata := rr_metadata r |}.

(** [(a, b) => b.finalScore - a.finalScore] *)
Definition byFinalScore (a b : Enhanced) : num := en_finalScore b - en_finalScore a.

Definition enhanceSearch (service : Service) (query : string) (initialResults : list Hit)
    (rerankTopK : Z) (rerankThreshold : num) (useSemanticBoost : bool)
  : result (list Enhanced) :=
  rbind (rerankSearchResults service query (slice0 (rerankTopK * 2) initialResults)
           rerankTopK rerankThreshold)
        (fun rerankedResults =>
           Ok (sort_by_comparator byFinalScore (map (enhance useSemanticBoost) rerankedResults))).

Record VoyageAIIntegration := {
  provider : option Service;
  isEnabled : bool
}.

Definition newIntegration : VoyageAIIntegration := {| provider := None; isEnabled := false |}.

(** [initialize] up to its [await]: a provider for the configuration takes
    the place of the one there was, and its connection test is started. *)
Definition initialize_start (service : Service) (v : VoyageAIIntegration)
  : VoyageAIIntegration :=
  {| provider := Some service; isEnabled := isEnabled v |}.

(** [initialize] from its [await] on: [connection] is the number of
    embeddings the connection test got back, or the failure of its request.
    The integration is what it has become while the test was running. *)
Definition initialize_finish (connection : result nat) (v : VoyageAIIntegration)
  : bool * VoyageAIIntegration :=
  let isConnected := match connection with
                     | Ok n => (0 <? n)%nat
                     | Err _ => false
                     end in
  (isConnected, {| provider := provider v; isEnabled := isConnected |}).

(** [initialize] when nothing else runs during the connection test. *)
Definition initialize (service : Service) (connection : result nat) (v : VoyageAIIntegration)
  : bool * VoyageAIIntegration :=
  initialize_finish connection (initialize_start service v).

Definition isReady (v : VoyageAIIntegration) : bool :=
  isEnabled v && match provider v with Some _ => true | None => false end.

Definition destroyIntegration (v : VoyageAIIntegration) : VoyageAIIntegration :=
  {| provider := None; isEnabled := false |}.

(** [{ ...result, rerankScore: result.score, finalScore: result.score }] *)
Definition untouched (h : Hit) : Enhanced :=
  {| en_text := hit_text h; en_score := hit_score h; en_rerankScore := hit_score h;
     en_finalScore := hit_score h; en_metadata := hit_metadata h |}.

(** [enhancedSearch]: the provider's [enhanceSearch] with its defaults. *)
Definition enhancedSearch (v : VoyageAIIntegration) (query : string)
    (initialResults : list Hit) : result (list Enhanced) :=
  match provider v with
  | Some service =>
      if isReady v then enhanceSearch service query initialResults 20 0.1 true
      else Ok (map untouched initialResults)
  | None => Ok (map untouched initialResults)
  end.

(** [rerankOnly]: [None] is the answer [null]. *)
Definition rerankOnly (v : VoyageAIIntegration) (query : string) (documents : list string)
    (topK : Z) : result (option RerankResponse) :=
  match provider v with
  | Some service =>
      if isReady v
      then rbind (rerank service query documents topK) (fun response => Ok (Some response))
      else Ok None
  | None => Ok None
  end.

(** Three hits, and a service that is down. *)
Definition hits : list Hit :=
  [ {| hit_text := "a"; hit_score := 0.5; hit_metadata := None |};
    {| hit_text := "b"; hit_score := 0.9; hit_metadata := None |};
    {| hit_text := "c"; hit_score := 0.7; hit_metadata := None |} ].

Definition down : Service := fun _ _ _ => Err "Voyage AI rerank failed: 503".

(** A service that finds the third document best and the first not
    relevant. *)
Definition judging : Service :=
  fun _ _ _ =>
    Ok {| data := [ {| index := 2; relevance_score := 0.8; document := Some "c" |};
                    {| index := 1; relevance_score := 0.4; document := None |};
                    {| index := 0; relevance_score := 0.05; document := Some "a" |} ];
          model := "rerank-lite-1" |}.

End VoyageAI.

(* ------------------------------------------------------------------------- *)
(** ** Notions to state what a call of [search] executes *)

(** The strategy the [switch] of [search] selects. *)
Definition strategy (env : Env) (options : SearchOptions) : M (list SearchResult) :=
  match o_searchType options with
  | Semantic => semanticSearch env options
  | Keyword => keywordSearch env options
  | Hybrid => hybridSearch env options
  | AiEnhanced => aiEnhancedSearch env options
  end.

(** The reranking step of [search]: [rerankResults] when [options.useRerank]
    is set and the rerank integration is ready. *)
Definition reranking (env : Env) (options : SearchOptions) (found : list SearchResult)
  : M (list SearchResult) :=
  if o_useRerank options && voyage_isReady env
  then rerankResults env (o_query options) found options
  else ret found.

(** Filters, sort and truncation. *)
Definition shaped (env : Env) (options : SearchOptions) (candidates : list SearchResult)
  : list SearchResult :=
  slice0 (o_maxResults options) (sortResults env (applyFilters env candidates options) options).

(** The engine once [results] are cached and recorded in the history. *)
Definition stored (clock : Clock) (options : SearchOptions) (results : list SearchResult)
    (st : Engine) : Engine :=
  {| searchCache :=
       map_set cacheKey_eqb (generateCacheKey options)
         {| c_results := results; c_timestamp := now_store clock |} (searchCache st);
     searchHistory :=
       addToHistory (searchHistory st) (o_query options) (now_iso clock) (length results) |}.

(** The call [search options] executes its strategy.  Its events are, after
    the dispatch, the calls the strategy makes on its collaborators and then
    those of the reranking step.  When the strategy throws, the call throws
    the same error and the engine is as it was.  Otherwise the call returns
    what the strategy found, reranked, filtered, sorted and truncated; these
    results replace the cache entry of the options, stamped with the time of
    the store, and are recorded in the history. *)
Definition executes (env : Env) (clock : Clock) (options : SearchOptions) (st : Engine)
  : Prop :=
  match strategy env options with
  | (events, Err e) =>
      search env clock options st =
        ((EvStrategy (o_searchType options) :: events, Err e), st)
  | (events, Ok found) =>
      exists events' candidates,
        reranking env options found = (events', Ok candidates) /\
        search env clock options st =
          ((EvStrategy (o_searchType options) :: events ++ events',
            Ok (shaped env options candidates)),
           stored clock options (shaped env options candidates) st)
  end.

(** An index whose two neighbours have negative similarities, with a rerank
    provider that gives both the relevance 0.3. *)
Definition negativeIndexEnv : Env :=
  demoEnvOf (Some (fun _ => Ok [1]))
    (Ok [ {| p_text := Some "Document A"; p_score := Some (-0.7) |};
          {| p_text := Some "Document B"; p_score := Some (-0.9) |} ])
    (Ok demoFiles)
    (Some (fun _ _ _ => Ok [ {| ri_index := 0; ri_relevance_score := 0.3 |};
                             {| ri_index := 1; ri_relevance_score := 0.3 |} ])).

(** A semantic search with reranking at the threshold 0.1. *)
Definition rerankedSemanticOptions : SearchOptions :=
  {| o_query := "invoice"; o_searchType := Semantic; o_maxResults := 10; o_useRerank := true;
     o_rerankThreshold := 0.1; o_includeContent := true; o_fileTypes := [];
     o_dateRange := None; o_tags := None; o_folders := None;
     o_sortBy := ByRelevance; o_sortOrder := Desc |}.

(* ========================================================================= *)
(** * Facts *)

(* ------------------------------------------------------------------------- *)
(** ** Binary64 facts used by the comparators

    [Array.prototype.sort] looks only at the sign of [key b - key a].  The
    lemmas of this module relate that sign to the order of the two keys. *)

Module NumFacts.

Import Num.
Local Open Scope Z_scope.

Lemma digits_pos : forall m, 0 < digits m.
Proof. intro m. unfold digits. lia. Qed.

Lemma digits_bounds : forall m, 2 ^ (digits m - 1) <= Zpos m < 2 ^ digits m.
Proof.
  unfold digits. induction m as [m IH | m IH |]; cbn [digits2_pos].
  - rewrite Pos2Z.inj_succ.
    replace (Z.succ (Zpos (digits2_pos m)) - 1) with (Z.succ (Zpos (digits2_pos m) - 1)) by lia.
    rewrite !Z.pow_succ_r by lia. lia.
  - rewrite Pos2Z.inj_succ.
    replace (Z.succ (Zpos (digits2_pos m)) - 1) with (Z.succ (Zpos (digits2_pos m) - 1)) by lia.
    rewrite !Z.pow_succ_r by lia. lia.
  - cbn. lia.
Qed.

Lemma digits_le : forall m n, Zpos m <= Zpos n -> digits m <= digits n.
Proof.
  intros m n H.
  destruct (Z_le_gt_dec (digits m) (digits n)) as [|Hgt]; [assumption|].
  pose proof (digits_bounds m) as [Hm _].
  pose proof (digits_bounds n) as [_ Hn].
  assert (2 ^ digits n <= 2 ^ (digits m - 1))
    by (apply Z.pow_le_mono_r; pose proof (digits_pos n); lia).
  lia.
Qed.

Lemma shr_1_m : forall r, 0 <= shr_m r -> shr_m (shr_1 r) = Z.div2 (shr_m r).
Proof.
  intros [m r s] H. cbn in *.
  destruct m as [| [p | p |] | p]; cbn; try reflexivity; lia.
Qed.

Lemma iter_shr_m : forall p r,
  0 <= shr_m r -> shr_m (iter_pos shr_1 p r) = Z.shiftr (shr_m r) (Zpos p).
Proof.
  assert (nonneg : forall r, 0 <= shr_m r -> 0 <= shr_m (shr_1 r)).
  { intros r H. rewrite shr_1_m by assumption. rewrite Z.div2_nonneg. assumption. }
  induction p as [p IH | p IH |]; intros r H; cbn [iter_pos].
  - assert (H1 : 0 <= shr_m (shr_1 r)) by auto.
    assert (H2 : 0 <= shr_m (iter_pos shr_1 p (shr_1 r)))
      by (rewrite IH by assumption; apply Z.shiftr_nonneg; assumption).
    rewrite IH, IH, shr_1_m by assumption.
    rewrite Z.div2_spec, !Z.shiftr_shiftr by lia.
    f_equal. lia.
  - assert (H2 : 0 <= shr_m (iter_pos shr_1 p r))
      by (rewrite IH by assumption; apply Z.shiftr_nonneg; assumption).
    rewrite IH, IH by assumption.
    rewrite Z.shiftr_shiftr by lia. f_equal. lia.
  - rewrite shr_1_m by assumption. apply Z.div2_spec.
Qed.

Lemma shr_record_of_loc_m : forall m l, shr_m (shr_record_of_loc m l) = m.
Proof. intros m [| []]; reflexivity. Qed.

(** One alignment step of the rounding: a positive mantissa whose exponent is
    not too far below [emin] stays positive. *)
Lemma shr_fexp_pos : forall m e l mrs e',
  emin - e < digits m ->
  shr_fexp prec emax (Zpos m) e l = (mrs, e') ->
  0 < shr_m mrs /\ emin <= e'.
Proof.
  intros m e l mrs e' He H.
  unfold shr_fexp, shr in H. cbn [Zdigits2] in H.
  fold (digits m) in H.
  pose proof (digits_pos m) as Hd.
  pose proof (digits_bounds m) as [Hlo _].
  remember (fexp prec emax (digits m + e) - e) as n eqn:Hn.
  unfold fexp, SpecFloat.emin, prec, emax in Hn.
  unfold emin, SpecFloat.emin, prec, emax in *.
  destruct n as [| p | p].
  - inversion H; subst. rewrite shr_record_of_loc_m. lia.
  - inversion H; subst mrs e'. clear H.
    rewrite iter_shr_m by (rewrite shr_record_of_loc_m; lia).
    rewrite shr_record_of_loc_m, Z.shiftr_div_pow2 by lia.
    split; [| lia].
    apply Z.div_str_pos. split; [lia|].
    apply Z.le_trans with (2 ^ (digits m - 1)); [| assumption].
    apply Z.pow_le_mono_r; lia.
  - inversion H; subst. rewrite shr_record_of_loc_m. lia.
Qed.

Lemma round_nearest_even_ge : forall m l, 0 < m ->
  m <= round_nearest_even m l <= m + 1.
Proof.
  intros m [| []] H; cbn; try lia.
  destruct (Z.even m); lia.
Qed.

(** Rounding a positive mantissa never yields zero or NaN, provided the
    exponent is within [digits m] of [emin]. *)
Lemma binary_round_aux_signed : forall s m e l,
  emin - e < digits m ->
  nonzero_signed s (binary_round_aux prec emax s (Zpos m) e l).
Proof.
  intros s m e l He. unfold binary_round_aux.
  destruct (shr_fexp prec emax (Zpos m) e l) as [mrs1 e1] eqn:H1.
  destruct (shr_fexp_pos _ _ _ _ _ He H1) as [Hm1 He1].
  pose proof (round_nearest_even_ge (shr_m mrs1) (loc_of_shr_record mrs1) Hm1) as Hr.
  destruct (round_nearest_even (shr_m mrs1) (loc_of_shr_record mrs1)) as [| q | q] eqn:Hq;
    try lia.
  destruct (shr_fexp prec emax (Zpos q) e1 loc_Exact) as [mrs2 e2] eqn:H2.
  assert (Hq' : emin - e1 < digits q) by (pose proof (digits_pos q); lia).
  destruct (shr_fexp_pos _ _ _ _ _ Hq' H2) as [Hm2 _].
  destruct (shr_m mrs2); try lia.
  destruct (Z.leb e2 (emax - prec)); reflexivity.
Qed.

Lemma binary_round_signed : forall s m e,
  emin <= e -> nonzero_signed s (binary_round prec emax s m e).
Proof.
  intros s m e He. unfold binary_round.
  destruct (shl_align m e (fexp prec emax (Zpos (digits2_pos m) + e))) as [mz ez] eqn:Hal.
  apply binary_round_aux_signed.
  pose proof (digits_pos mz).
  assert (emin <= ez); [| lia].
  unfold shl_align in Hal.
  destruct (fexp prec emax (Zpos (digits2_pos m) + e) - e) eqn:Hs;
    inversion Hal; subst; try assumption.
  unfold fexp. apply Z.le_max_r.
Qed.

Lemma binary_normalize_sign : forall d e,
  emin <= e ->
  match binary_normalize prec emax d e false with
  | x => (0 < d -> nonzero_signed false x) /\
         (d < 0 -> nonzero_signed true x) /\
         (d = 0 -> x = S754_zero false)
  end.
Proof.
  intros d e He. destruct d as [| p | p]; cbn [binary_normalize].
  - repeat split; intros; try lia.
  - repeat split; intros; try lia. apply binary_round_signed; assumption.
  - repeat split; intros; try lia. apply binary_round_signed; assumption.
Qed.

(** Canonical representation of a binary64 value. *)
Lemma valid_finite : forall s m e,
  valid_binary (S754_finite s m e) = true ->
  emin <= e /\ digits m <= prec /\ (emin < e -> digits m = prec).
Proof.
  intros s m e H. cbn in H. unfold bounded, canonical_mantissa in H.
  apply andb_true_iff in H. destruct H as [H _].
  apply Z.eqb_eq in H. unfold fexp in H. fold (digits m) in H.
  unfold emin, SpecFloat.emin, prec, emax in *. lia.
Qed.

Lemma iter_xO_pow : forall d m, Zpos (Pos.iter xO m d) = Zpos m * 2 ^ Zpos d.
Proof.
  intros d m. induction d as [| d IH] using Pos.peano_ind.
  - cbn. lia.
  - rewrite Pos.iter_succ, Pos2Z.inj_xO, IH, Pos2Z.inj_succ, Z.pow_succ_r by lia. lia.
Qed.

Lemma shl_align_value : forall m e e',
  e' <= e -> Zpos (fst (shl_align m e e')) = Zpos m * 2 ^ (e - e').
Proof.
  intros m e e' H. unfold shl_align.
  destruct (e' - e) as [| p | p] eqn:Hd; cbn [fst].
  - replace (e - e') with 0 by lia. lia.
  - lia.
  - rewrite iter_xO_pow. f_equal. f_equal. lia.
Qed.

(** Magnitudes of two canonical values compare as their (exponent, mantissa)
    pairs do. *)
Lemma aligned_lt_exp : forall mx ex my ey,
  emin <= ex -> digits mx <= prec -> digits my = prec -> ex < ey ->
  Zpos mx * 2 ^ (ex - Z.min ex ey) < Zpos my * 2 ^ (ey - Z.min ex ey).
Proof.
  intros mx ex my ey _ Hx Hy Hlt.
  rewrite Z.min_l by lia. replace (ex - ex) with 0 by lia.
  pose proof (digits_bounds mx) as [_ Hhi].
  pose proof (digits_bounds my) as [Hlo _].
  rewrite Hy in Hlo. unfold prec in *.
  assert (2 ^ digits mx <= 2 ^ 53) by (apply Z.pow_le_mono_r; lia).
  assert (2 ^ 1 <= 2 ^ (ey - ex)) by (apply Z.pow_le_mono_r; lia).
  change (2 ^ (53 - 1)) with 4503599627370496 in Hlo.
  change (2 ^ 53) with 9007199254740992 in *.
  change (2 ^ 1) with 2 in *. nia.
Qed.

Lemma magnitude_cmp_aligned : forall sx mx ex sy my ey,
  valid_binary (S754_finite sx mx ex) = true ->
  valid_binary (S754_finite sy my ey) = true ->
  magnitude_cmp mx ex my ey =
  Z.compare (Zpos (fst (shl_align mx ex (Z.min ex ey))))
            (Zpos (fst (shl_align my ey (Z.min ex ey)))).
Proof.
  intros sx mx ex sy my ey Vx Vy.
  apply valid_finite in Vx. apply valid_finite in Vy.
  destruct Vx as (Ex & Dx & Nx). destruct Vy as (Ey & Dy & Ny).
  rewrite !shl_align_value by lia.
  unfold magnitude_cmp. destruct (Z.compare_spec ex ey) as [Heq | Hlt | Hgt].
  - subst ey. rewrite Z.min_id. replace (ex - ex) with 0 by lia.
    rewrite !Z.mul_1_r. reflexivity.
  - symmetry. apply Z.compare_lt_iff. apply aligned_lt_exp; try assumption; lia.
  - symmetry. apply Z.compare_gt_iff.
    rewrite Z.min_comm. apply aligned_lt_exp; try assumption; lia.
Qed.

Lemma SFcompare_antisym : forall x y,
  SFcompare y x = option_map CompOpp (SFcompare x y).
Proof.
  intros [sx | sx | | sx mx ex] [sy | sy | | sy my ey]; cbn;
    try (destruct sx); try (destruct sy); try reflexivity.
  - rewrite (Z.compare_antisym ex ey).
    destruct (Z.compare ex ey); cbn; try reflexivity.
    f_equal. rewrite Pos.compare_cont_antisym. cbn.
    destruct (Pos.compare_cont Eq mx my); reflexivity.
  - rewrite (Z.compare_antisym ex ey).
    destruct (Z.compare ex ey); cbn; try reflexivity.
    f_equal. rewrite Pos.compare_cont_antisym. reflexivity.
Qed.

Lemma SFcompare_refl : forall x, x <> S754_nan -> SFcompare x x = Some Eq.
Proof.
  intros [s | s | | s m e] H; cbn; try (destruct s); try reflexivity.
  - congruence.
  - rewrite Z.compare_refl, Pos.compare_cont_refl. reflexivity.
  - rewrite Z.compare_refl, Pos.compare_cont_refl. reflexivity.
Qed.

Lemma SFleb_trans : forall x y z,
  SFleb x y = true -> SFleb y z = true -> SFleb x z = true.
Proof.
  intros [sx | sx | | sx mx ex] [sy | sy | | sy my ey] [sz | sz | | sz mz ez];
    unfold SFleb; cbn;
    try (destruct sx); try (destruct sy); try (destruct sz);
    try reflexivity; try discriminate; intros Hxy Hyz.
  all: change (Pos.compare_cont Eq mx my) with (Pos.compare mx my) in *.
  all: change (Pos.compare_cont Eq my mz) with (Pos.compare my mz) in *.
  all: change (Pos.compare_cont Eq mx mz) with (Pos.compare mx mz) in *.
  all: destruct (Z.compare_spec ex ey); try discriminate;
       destruct (Z.compare_spec ey ez); try discriminate;
       destruct (Z.compare_spec ex ez); try lia; try reflexivity;
       destruct (Pos.compare_spec mx my); try discriminate;
       destruct (Pos.compare_spec my mz); try discriminate;
       destruct (Pos.compare_spec mx mz); try lia; reflexivity.
Qed.

(** The sign of a binary64 difference is the order of its operands. *)
Lemma SFsub_sign : forall x y,
  valid_binary x = true -> valid_binary y = true ->
  match SFcompare x y with
  | Some Lt => nonzero_signed true (SF64sub x y)
  | Some Gt => nonzero_signed false (SF64sub x y)
  | Some Eq => is_zero_or_nan (SF64sub x y)
  | None => SF64sub x y = S754_nan
  end.
Proof.
  intros [sx | sx | | sx mx ex] [sy | sy | | sy my ey] Vx Vy;
    try (cbn; try (destruct sx); try (destruct sy); cbn; auto; fail).
  pose proof (magnitude_cmp_aligned _ _ _ _ _ _ Vx Vy) as Hmag.
  pose proof (valid_finite _ _ _ Vx) as (Ex & _).
  pose proof (valid_finite _ _ _ Vy) as (Ey & _).
  unfold SF64sub. cbn [SFsub SFcompare].
  set (X := Zpos (fst (shl_align mx ex (Z.min ex ey)))) in *.
  set (Y := Zpos (fst (shl_align my ey (Z.min ex ey)))) in *.
  assert (HX : 0 < X) by (unfold X; lia).
  assert (HY : 0 < Y) by (unfold Y; lia).
  assert (Hez : emin <= Z.min ex ey) by lia.
  fold (magnitude_cmp mx ex my ey).
  assert (Hneg : match Z.compare ex ey with
                 | Lt => Gt | Gt => Lt
                 | Eq => CompOpp (Pos.compare_cont Eq mx my)
                 end = CompOpp (magnitude_cmp mx ex my ey))
    by (unfold magnitude_cmp; destruct (Z.compare ex ey); reflexivity).
  rewrite Hneg, Hmag. clear Hneg Hmag.
  destruct sx, sy; cbn [cond_Zopp].
  - pose proof (binary_normalize_sign (- X - - Y) _ Hez) as (Hp & Hn & Hz).
    destruct (Z.compare_spec X Y); cbn [CompOpp].
    + rewrite Hz by lia. exact I.
    + apply Hp. lia.
    + apply Hn. lia.
  - pose proof (binary_normalize_sign (- X - Y) _ Hez) as (_ & Hn & _).
    apply Hn. lia.
  - pose proof (binary_normalize_sign (X - - Y) _ Hez) as (Hp & _ & _).
    apply Hp. lia.
  - pose proof (binary_normalize_sign (X - Y) _ Hez) as (Hp & Hn & Hz).
    destruct (Z.compare_spec X Y).
    + rewrite Hz by lia. exact I.
    + apply Hn. lia.
    + apply Hp. lia.
Qed.

(** *** Counts and their ratios *)

Lemma digits_lt_pow : forall m k, 0 <= k -> Zpos m < 2 ^ k -> digits m <= k.
Proof.
  intros m k Hk H.
  destruct (Z_le_gt_dec (digits m) k) as [| Hgt]; [assumption |].
  pose proof (digits_bounds m) as [Hlo _].
  assert (2 ^ k <= 2 ^ (digits m - 1)) by (apply Z.pow_le_mono_r; lia).
  lia.
Qed.

(** One alignment step moves the exponent up by the number of digits beyond
    the precision, and does not increase the mantissa. *)
Lemma shr_fexp_bounds : forall m e l mrs e',
  emin <= e ->
  shr_fexp prec emax (Zpos m) e l = (mrs, e') ->
  0 < shr_m mrs <= Zpos m /\ e <= e' <= e + Z.max 0 (digits m - prec).
Proof.
  intros m e l mrs e' He H.
  assert (Hpos : emin - e < digits m) by (pose proof (digits_pos m); lia).
  destruct (shr_fexp_pos _ _ _ _ _ Hpos H) as [Hm _].
  split; [split; [exact Hm |] |].
  - unfold shr_fexp, shr in H.
    destruct (fexp prec emax (Zdigits2 (Zpos m) + e) - e) as [| p | p];
      inversion H; subst mrs e'; clear H.
    + rewrite shr_record_of_loc_m. lia.
    + rewrite iter_shr_m by (rewrite shr_record_of_loc_m; lia).
      rewrite shr_record_of_loc_m, Z.shiftr_div_pow2 by lia.
      apply Z.div_le_upper_bound; [lia |].
      assert (1 <= 2 ^ Zpos p) by (apply (Z.pow_le_mono_r 2 0); lia). nia.
    + rewrite shr_record_of_loc_m. lia.
  - unfold shr_fexp, shr in H. cbn [Zdigits2] in H. fold (digits m) in H.
    remember (fexp prec emax (digits m + e) - e) as n eqn:Hn.
    unfold fexp, SpecFloat.emin, prec, emax in Hn.
    unfold emin, SpecFloat.emin, prec, emax in *.
    destruct n as [| p | p]; inversion H; subst mrs e'; lia.
Qed.

(** Rounding a positive mantissa at an exponent in range gives a finite value
    whose exponent is at least the one given. *)
Lemma binary_round_aux_finite : forall s m e l,
  emin <= e ->
  e + 2 * Z.max 0 (digits m - 52) <= emax - prec ->
  exists m' e',
    binary_round_aux prec emax s (Zpos m) e l = S754_finite s m' e' /\
    e <= e' <= e + 2 * Z.max 0 (digits m - 52).
Proof.
  intros s m e l He Hup. unfold binary_round_aux.
  destruct (shr_fexp prec emax (Zpos m) e l) as [mrs1 e1] eqn:H1.
  destruct (shr_fexp_bounds _ _ _ _ _ He H1) as [[Hm1 Hle1] He1].
  pose proof (round_nearest_even_ge (shr_m mrs1) (loc_of_shr_record mrs1) Hm1) as Hr.
  destruct (round_nearest_even (shr_m mrs1) (loc_of_shr_record mrs1)) as [| q | q] eqn:Hq;
    try lia.
  assert (Hdq : digits q <= digits m + 1).
  { pose proof (digits_pos m). pose proof (digits_bounds m) as [_ Hhi].
    apply digits_lt_pow; [lia |]. rewrite Z.pow_add_r by lia. lia. }
  destruct (shr_fexp prec emax (Zpos q) e1 loc_Exact) as [mrs2 e2] eqn:H2.
  assert (He1' : emin <= e1) by lia.
  destruct (shr_fexp_bounds _ _ _ _ _ He1' H2) as [[Hm2 _] He2].
  unfold prec in He1, He2.
  destruct (shr_m mrs2) as [| m2 | m2]; try lia.
  assert (Hfit : e2 <= emax - prec) by lia.
  apply Z.leb_le in Hfit. rewrite Hfit.
  exists m2, e2. split; [reflexivity | lia].
Qed.

(** A count below [2^63] is a positive finite number with a small exponent. *)
Lemma num_of_nat_finite : forall n : nat,
  0 < Z.of_nat n < 2 ^ 63 ->
  exists m e, Prim2SF (num_of_nat n) = S754_finite false m e /\ -52 <= e <= 22.
Proof.
  intros n Hn. unfold num_of_nat. rewrite of_uint63_spec, Uint63.of_Z_spec.
  rewrite Z.mod_small by (change Uint63Axioms.wB with (2 ^ 63); lia).
  destruct (Z.of_nat n) as [| p | p]; try lia.
  cbn [binary_normalize]. unfold binary_round.
  fold (digits p).
  pose proof (digits_pos p) as Hd. pose proof (digits_bounds p) as [Hlo Hhi].
  assert (Hd63 : digits p <= 63) by (apply digits_lt_pow; lia).
  remember (fexp prec emax (digits p + 0)) as f eqn:Hf.
  unfold fexp, SpecFloat.emin, prec, emax in Hf.
  destruct (shl_align p 0 f) as [mz ez] eqn:Hal.
  assert (Hz : -52 <= ez <= 0 /\ digits mz <= 63).
  { destruct (Z_le_gt_dec f 0) as [Hle | Hgt].
    - pose proof (shl_align_value p 0 f Hle) as Hv. rewrite Hal in Hv. cbn [fst] in Hv.
      assert (Hez : -52 <= ez <= 0).
      { unfold shl_align in Hal.
        destruct (f - 0) as [| s | s] eqn:Hs; injection Hal as _ Ee; lia. }
      split; [exact Hez |].
      apply digits_lt_pow; [lia |]. rewrite Hv.
      replace 63 with (digits p + (63 - digits p)) at 1 by lia.
      rewrite Z.pow_add_r by lia.
      assert (2 ^ (0 - f) <= 2 ^ (63 - digits p)) by (apply Z.pow_le_mono_r; lia).
      assert (0 < 2 ^ (0 - f)) by (apply Z.pow_pos_nonneg; lia).
      nia.
    - unfold shl_align in Hal.
      destruct (f - 0) as [| s | s] eqn:Hs; injection Hal as Em Ee; subst mz; lia. }
  destruct Hz as [Hez Hdz].
  destruct (binary_round_aux_finite false mz ez loc_Exact) as (m & e & E & He).
  - unfold emin, SpecFloat.emin, prec, emax. lia.
  - unfold prec, emax. lia.
  - exists m, e. split; [exact E | lia].
Qed.

(** The quotient of two positive finite numbers with small exponents is a
    positive finite number whose exponent is not far below zero. *)
Lemma SFdiv_finite : forall m1 e1 m2 e2,
  valid_binary (S754_finite false m1 e1) = true ->
  valid_binary (S754_finite false m2 e2) = true ->
  -52 <= e1 <= 22 -> -52 <= e2 <= 22 ->
  exists m e,
    SFdiv prec emax (S754_finite false m1 e1) (S754_finite false m2 e2) =
      S754_finite false m e /\ -180 <= e.
Proof.
  intros m1 e1 m2 e2 V1 V2 He1 He2.
  apply valid_finite in V1. apply valid_finite in V2.
  destruct V1 as (_ & D1 & _). destruct V2 as (_ & D2 & _).
  pose proof (digits_pos m1) as P1. pose proof (digits_pos m2) as P2.
  pose proof (digits_bounds m1) as [L1 U1]. pose proof (digits_bounds m2) as [L2 U2].
  cbn [SFdiv xorb]. unfold SFdiv_core_binary. cbn [Zdigits2].
  fold (digits m1). fold (digits m2).
  remember (Z.min (fexp prec emax (digits m1 + e1 - (digits m2 + e2))) (e1 - e2)) as e' eqn:He'.
  unfold fexp, SpecFloat.emin in He'. unfold prec, emax in *.
  assert (Ee' : e' = digits m1 + e1 - (digits m2 + e2) - 53) by lia.
  clear He'.
  remember (e1 - e2 - e') as s eqn:Hs.
  assert (Es : s = 53 + digits m2 - digits m1) by lia.
  destruct s as [| s | s]; try lia.
  rewrite Z.shiftl_mul_pow2 by lia.
  pose proof (Z.div_eucl_eq (Zpos m1 * 2 ^ Zpos s) (Zpos m2)) as Hdiv.
  pose proof (Z.mod_pos_bound (Zpos m1 * 2 ^ Zpos s) (Zpos m2)) as Hmod.
  unfold Z.modulo in Hmod.
  destruct (Z.div_eucl (Zpos m1 * 2 ^ Zpos s) (Zpos m2)) as [q r].
  specialize (Hdiv ltac:(lia)). specialize (Hmod ltac:(lia)).
  assert (Hpow : 2 ^ (digits m1 - 1) * 2 ^ Zpos s = 2 ^ (52 + digits m2)).
  { rewrite <- Z.pow_add_r by lia. f_equal. lia. }
  assert (Hpow' : 2 ^ digits m1 * 2 ^ Zpos s = 2 ^ (53 + digits m2)).
  { rewrite <- Z.pow_add_r by lia. f_equal. lia. }
  assert (Hs0 : 0 < 2 ^ Zpos s) by (apply Z.pow_pos_nonneg; lia).
  assert (Hbig : 2 ^ digits m2 <= 2 ^ (52 + digits m2)) by (apply Z.pow_le_mono_r; lia).
  assert (Hq : 0 < q) by nia.
  destruct q as [| q | q]; try lia.
  assert (Hdq : digits q <= 106).
  { apply digits_lt_pow; [lia |].
    assert (2 ^ (53 + digits m2) <= 2 ^ 106) by (apply Z.pow_le_mono_r; lia).
    nia. }
  pose proof (digits_pos q) as Pq.
  destruct (binary_round_aux_finite false q e' (new_location (Zpos m2) r))
    as (m & e & E & He).
  - unfold emin, SpecFloat.emin, prec, emax. lia.
  - unfold prec, emax. lia.
  - exists m, e. split; [exact E | lia].
Qed.

Local Open Scope float_scope.

Lemma is_nan_spec : forall x, is_nan x = true <-> Prim2SF x = S754_nan.
Proof.
  intro x. unfold is_nan. rewrite FloatAxioms.eqb_spec. unfold SFeqb. split.
  - intro H. destruct (Prim2SF x) eqn:E; try reflexivity;
      rewrite SFcompare_refl in H by discriminate; discriminate.
  - intro H. rewrite H. reflexivity.
Qed.

Lemma not_nan_spec : forall x, is_nan x = false <-> Prim2SF x <> S754_nan.
Proof.
  intro x. pose proof (is_nan_spec x) as [H1 H2].
  destruct (is_nan x); split; intro H; try congruence.
  - exfalso. apply H. apply H1. reflexivity.
  - intro E. apply H2 in E. discriminate.
Qed.

(** The comparator test of [sort]: [key b - key a > 0] exactly when
    [key a < key b], for all binary64 values, NaN and infinities included. *)
Theorem sub_pos_ltb : forall x y, (0 <? y - x) = (x <? y).
Proof.
  intros x y. rewrite !ltb_spec, sub_spec.
  change (Prim2SF 0) with (S754_zero false).
  pose proof (SFsub_sign _ _ (Prim2SF_valid y) (Prim2SF_valid x)) as H.
  rewrite (SFcompare_antisym (Prim2SF x) (Prim2SF y)) in H.
  unfold SFltb at 2.
  destruct (SFcompare (Prim2SF x) (Prim2SF y)) as [[| |] |]; cbn [option_map CompOpp] in H;
    destruct (SF64sub (Prim2SF y) (Prim2SF x)) as [s | s | | s m e]; cbn in H;
    try contradiction; try discriminate; subst; reflexivity.
Qed.

Lemma ltb_asym : forall x y, (x <? y) = true -> (y <? x) = false.
Proof.
  intros x y. rewrite !ltb_spec. unfold SFltb.
  rewrite (SFcompare_antisym (Prim2SF x) (Prim2SF y)).
  destruct (SFcompare (Prim2SF x) (Prim2SF y)) as [[| |] |]; cbn; congruence.
Qed.

(** Without NaN the order is total: not [x < y] means [y <= x]. *)
Lemma not_ltb_leb : forall x y,
  is_nan x = false -> is_nan y = false -> (x <? y) = false -> (y <=? x) = true.
Proof.
  intros x y Hx Hy. apply not_nan_spec in Hx. apply not_nan_spec in Hy.
  rewrite ltb_spec, leb_spec. unfold SFltb, SFleb.
  rewrite (SFcompare_antisym (Prim2SF x) (Prim2SF y)).
  destruct (Prim2SF x) as [sx | sx | | sx mx ex]; try congruence;
    destruct (Prim2SF y) as [sy | sy | | sy my ey]; try congruence;
    destruct (SFcompare _ _) as [[| |] |] eqn:E; cbn; try congruence;
    cbn in E; try (destruct sx); try (destruct sy); discriminate.
Qed.

Lemma leb_trans : forall x y z, (x <=? y) = true -> (y <=? z) = true -> (x <=? z) = true.
Proof. intros x y z. rewrite !leb_spec. apply SFleb_trans. Qed.

(** A value that is neither zero nor NaN is truthy. *)
Lemma signed_truthy : forall s v, nonzero_signed s (Prim2SF v) -> falsy v = false.
Proof.
  intros s v H. unfold falsy. apply orb_false_iff. split.
  - rewrite FloatAxioms.eqb_spec. change (Prim2SF 0) with (S754_zero false).
    destruct (Prim2SF v) as [s' | s' | | s' m e]; cbn in H; try contradiction;
      destruct s'; reflexivity.
  - apply not_nan_spec. destruct (Prim2SF v); cbn in H; try contradiction; discriminate.
Qed.

Lemma seven_tenths : Prim2SF 0.7 = S754_finite false 6305039478318694 (-53).
Proof. reflexivity. Qed.

(** [x * 0.7] is zero only for a zero [x], and NaN only for a NaN [x]; hence
    [(x * 0.7) || x] is [x * 0.7], whatever [x] is. *)
Theorem mul_seven_tenths_or : forall x, num_or (x * 0.7) x = x * 0.7.
Proof.
  intro x. unfold num_or.
  pose proof (mul_spec x 0.7) as Hmul. rewrite seven_tenths in Hmul.
  pose proof (Prim2SF_valid x) as Hvalid.
  destruct (Prim2SF x) as [s | s | | s m e] eqn:Hx.
  - assert (E : x * 0.7 = x).
    { apply Prim2SF_inj. rewrite Hmul, Hx. cbn. rewrite xorb_false_r. reflexivity. }
    rewrite E. destruct (falsy x); reflexivity.
  - rewrite (signed_truthy (xorb s false) (x * 0.7)); [reflexivity |].
    rewrite Hmul. reflexivity.
  - assert (E : x * 0.7 = x) by (apply Prim2SF_inj; rewrite Hmul, Hx; reflexivity).
    rewrite E. destruct (falsy x); reflexivity.
  - destruct (valid_finite _ _ _ Hvalid) as (He & Hd & _).
    destruct (Pos.eq_dec m 1) as [Hm | Hm]; [destruct (Z.eq_dec e (-1074)) as [He' | He'] |].
    + subst m e. rewrite <- (SF2Prim_Prim2SF x), Hx. destruct s; reflexivity.
    + rewrite (signed_truthy (xorb s false) (x * 0.7)); [reflexivity |].
      rewrite Hmul. unfold SF64mul. cbn [SFmul].
      apply binary_round_aux_signed.
      assert (H53 : (digits 6305039478318694 <= digits (m * 6305039478318694))%Z)
        by (apply digits_le; lia).
      change (digits 6305039478318694) with 53%Z in H53.
      unfold emin, SpecFloat.emin, prec, emax in *. lia.
    + rewrite (signed_truthy (xorb s false) (x * 0.7)); [reflexivity |].
      rewrite Hmul. unfold SF64mul. cbn [SFmul].
      apply binary_round_aux_signed.
      assert (H54 : (digits 12610078956637388 <= digits (m * 6305039478318694))%Z)
        by (apply digits_le; lia).
      change (digits 12610078956637388) with 54%Z in H54.
      unfold emin, SpecFloat.emin, prec, emax in *. lia.
Qed.

Lemma three_tenths : Prim2SF 0.3 = S754_finite false 5404319552844595 (-54).
Proof. reflexivity. Qed.

(** The weighted lexical score of a file: a ratio of two counts, times 0.3,
    is neither zero nor NaN. *)
Lemma ratio_weighted_truthy : forall c n : nat,
  (0 < Z.of_nat c < 2 ^ 63)%Z -> (0 < Z.of_nat n < 2 ^ 63)%Z ->
  falsy (num_of_nat c / num_of_nat n * 0.3) = false.
Proof.
  intros c n Hc Hn.
  destruct (num_of_nat_finite c Hc) as (m1 & e1 & E1 & B1).
  destruct (num_of_nat_finite n Hn) as (m2 & e2 & E2 & B2).
  pose proof (Prim2SF_valid (num_of_nat c)) as V1. rewrite E1 in V1.
  pose proof (Prim2SF_valid (num_of_nat n)) as V2. rewrite E2 in V2.
  destruct (SFdiv_finite m1 e1 m2 e2 V1 V2 B1 B2) as (m & e & E & B).
  apply (signed_truthy false).
  rewrite mul_spec, div_spec, E1, E2, three_tenths.
  unfold SF64mul, SF64div. rewrite E. cbn [SFmul xorb].
  apply binary_round_aux_signed.
  pose proof (digits_pos (m * 5404319552844595)).
  unfold emin, SpecFloat.emin, prec, emax. lia.
Qed.

End NumFacts.

(* ------------------------------------------------------------------------- *)
(** ** The sort *)

Section SortFacts.
Context {A : Type} (after : A -> A -> bool).

Lemma sort_insert_perm : forall x l, Permutation (sort_insert after x l) (x :: l).
Proof.
  intros x l. induction l as [| y l IH]; cbn.
  - apply Permutation_refl.
  - destruct (after x y).
    + apply Permutation_trans with (y :: x :: l).
      * apply perm_skip. exact IH.
      * apply perm_swap.
    + apply Permutation_refl.
Qed.

Lemma js_sort_perm : forall l, Permutation (js_sort after l) l.
Proof.
  induction l as [| x l IH]; cbn.
  - apply perm_nil.
  - apply Permutation_trans with (x :: js_sort after l).
    + apply sort_insert_perm.
    + apply perm_skip. exact IH.
Qed.

Lemma js_sort_In : forall l x, In x (js_sort after l) <-> In x l.
Proof.
  intros l x. split; apply Permutation_in.
  - apply js_sort_perm.
  - apply Permutation_sym, js_sort_perm.
Qed.

(** The sort is stable: elements that the comparator never orders among
    themselves keep their relative order. *)
Lemma sort_insert_filter : forall (P : A -> bool) x l,
  (forall y, P x = true -> P y = true -> after x y = false) ->
  filter P (sort_insert after x l) = filter P (x :: l).
Proof.
  intros P x l H. induction l as [| y l IH]; [reflexivity |].
  cbn [sort_insert]. destruct (after x y) eqn:E; [| reflexivity].
  cbn [filter] in *. rewrite IH.
  destruct (P x) eqn:Px; destruct (P y) eqn:Py; try reflexivity.
  rewrite (H y eq_refl Py) in E. discriminate.
Qed.

Lemma js_sort_stable : forall (P : A -> bool) l,
  (forall x y, P x = true -> P y = true -> after x y = false) ->
  filter P (js_sort after l) = filter P l.
Proof.
  intros P l H. induction l as [| x l IH]; [reflexivity |].
  change (js_sort after (x :: l)) with (sort_insert after x (js_sort after l)).
  rewrite sort_insert_filter by (intro y; apply H).
  cbn [filter]. rewrite IH. reflexivity.
Qed.

Hypothesis after_asym : forall a b, after a b = true -> after b a = false.

Lemma sort_insert_hd : forall x y l,
  in_order after y x -> HdRel (in_order after) y l -> HdRel (in_order after) y (sort_insert after x l).
Proof.
  intros x y l Hyx Hl. destruct l as [| z l]; cbn.
  - constructor. exact Hyx.
  - destruct (after x z).
    + constructor. inversion Hl; assumption.
    + constructor. exact Hyx.
Qed.

Lemma sort_insert_sorted : forall x l,
  Sorted (in_order after) l -> Sorted (in_order after) (sort_insert after x l).
Proof.
  intros x l. induction l as [| y l IH]; intro H; cbn.
  - repeat constructor.
  - inversion H as [| ? ? Hs Hh]; subst.
    destruct (after x y) eqn:E.
    + constructor.
      * apply IH. exact Hs.
      * apply sort_insert_hd; [| exact Hh]. apply after_asym. exact E.
    + constructor; [exact H |]. constructor. exact E.
Qed.

Lemma js_sort_sorted : forall l, Sorted (in_order after) (js_sort after l).
Proof.
  induction l as [| x l IH]; cbn.
  - constructor.
  - apply sort_insert_sorted. exact IH.
Qed.

End SortFacts.

(** The relevance comparator puts [a] after [b] exactly when [a]'s key is the
    smaller one. *)
Lemma byRelevance_after : forall a b,
  is_positive (byRelevance a b) = (sortKey a <? sortKey b).
Proof. intros a b. unfold is_positive, byRelevance. apply NumFacts.sub_pos_ltb. Qed.

Lemma Sorted_impl_in : forall {A : Type} (R S : A -> A -> Prop) (l : list A),
  (forall a b, In a l -> In b l -> R a b -> S a b) -> Sorted R l -> Sorted S l.
Proof.
  intros A R S l. induction l as [| x l IH]; intros HRS H.
  - constructor.
  - inversion H as [| ? ? Hs Hh]; subst. constructor.
    + apply IH; [| exact Hs]. intros a b Ha Hb. apply HRS; right; assumption.
    + destruct l as [| y l]; constructor.
      inversion Hh; subst. apply HRS; cbn; auto.
Qed.

Lemma neighbours_descending_all : forall {A : Type} (key : A -> num) (l : list A),
  neighbours_descending key l -> descending key l.
Proof.
  intros A key l H. apply Sorted_StronglySorted; [| exact H].
  intros a b c Hab Hbc. apply (NumFacts.leb_trans _ (key b)); assumption.
Qed.

(** Sorting by [key b - key a] orders the keys descending when none is NaN. *)
Lemma sort_by_key_descending : forall {A : Type} (key : A -> num) (l : list A),
  Forall (fun a => is_nan (key a) = false) l ->
  neighbours_descending key (sort_by_comparator (fun a b => key b - key a) l).
Proof.
  intros A key l Hnan. unfold neighbours_descending, sort_by_comparator.
  set (after := fun a b : A => is_positive (key b - key a)).
  assert (Hafter : forall a b, after a b = (key a <? key b))
    by (intros; apply NumFacts.sub_pos_ltb).
  apply Sorted_impl_in with (R := in_order after).
  - intros a b Ha Hb Hab. unfold in_order in Hab. rewrite Hafter in Hab.
    rewrite Forall_forall in Hnan.
    apply NumFacts.not_ltb_leb; try assumption; apply Hnan;
      apply (js_sort_In after); assumption.
  - apply js_sort_sorted. intros a b. rewrite !Hafter. apply NumFacts.ltb_asym.
Qed.

(* ------------------------------------------------------------------------- *)
(** ** History *)

Lemma firstn_app_firstn : forall {A : Type} (n : nat) (l h : list A),
  firstn n (l ++ firstn n h) = firstn n (l ++ h).
Proof.
  intros A n l h. rewrite !firstn_app, firstn_firstn.
  f_equal. f_equal. lia.
Qed.

Lemma addToHistory_length : forall history query timestamp resultCount,
  (length (addToHistory history query timestamp resultCount) <= 100)%nat.
Proof. intros. unfold addToHistory. apply firstn_le_length. Qed.

Lemma search_history : forall env clock options st,
  searchHistory (snd (search env clock options st)) =
  match executed env clock options st with
  | Some entry => firstn 100 (entry :: searchHistory st)
  | None => searchHistory st
  end.
Proof.
  intros env clock options st. unfold search, executed.
  destruct (cacheLookup clock options st); [reflexivity |].
  destruct (pipeline env options) as [events [results | e]]; reflexivity.
Qed.

Lemma run_history : forall calls st,
  (length (searchHistory st) <= 100)%nat ->
  searchHistory (snd (run calls st)) = firstn 100 (rev (fst (run calls st)) ++ searchHistory st).
Proof.
  induction calls as [| [[env clock] options] rest IH]; intros st Hst.
  - cbn [run fst snd rev app]. symmetry. apply firstn_all2. exact Hst.
  - cbn [run].
    pose proof (search_history env clock options st) as Hs.
    destruct (run rest (snd (search env clock options st))) as [added st'] eqn:Hrun.
    assert (Hst' : (length (searchHistory (snd (search env clock options st))) <= 100)%nat).
    { rewrite Hs. destruct (executed env clock options st); [apply firstn_le_length | exact Hst]. }
    specialize (IH _ Hst'). rewrite Hrun in IH. cbn [fst snd] in *.
    rewrite IH, Hs.
    destruct (executed env clock options st) as [entry |]; [| reflexivity].
    cbn [rev]. rewrite <- app_assoc. cbn [app].
    apply firstn_app_firstn.
Qed.

(** C6. The search history never holds more than 100 entries.  After any
    sequence of calls of [search] on a new engine, [getSearchHistory] is the
    list of the entries the strategy-executing calls added, newest first,
    cut after its 100th entry: the oldest entries are the ones dropped, and
    no entry is merged with another of the same query.  Its length is the
    number of those calls, capped at 100. *)
Theorem history_bound : forall calls,
  getSearchHistory (snd (run calls newEngine)) = firstn 100 (rev (fst (run calls newEngine))) /\
  length (getSearchHistory (snd (run calls newEngine))) =
    Nat.min 100 (length (fst (run calls newEngine))) /\
  forall history query timestamp resultCount,
    addToHistory history query timestamp resultCount =
      firstn 100 ({| h_query := query; h_timestamp := timestamp;
                     h_resultCount := resultCount |} :: history) /\
    (length (addToHistory history query timestamp resultCount) <= 100)%nat.
Proof.
  intro calls.
  assert (H : getSearchHistory (snd (run calls newEngine)) =
              firstn 100 (rev (fst (run calls newEngine)))).
  { unfold getSearchHistory. rewrite run_history by (cbn [newEngine searchHistory length]; lia).
    cbn [newEngine searchHistory]. rewrite app_nil_r. reflexivity. }
  split; [exact H |]. split.
  - rewrite H, length_firstn, length_rev. reflexivity.
  - intros. split; [reflexivity | apply addToHistory_length].
Qed.

(** 150 searches that each execute a strategy leave exactly the 100 most
    recent entries, the newest first. *)
Example history_after_150_searches :
  length (fst (run (demoCalls 150) newEngine)) = 150%nat /\
  length (getSearchHistory (snd (run (demoCalls 150) newEngine))) = 100%nat /\
  map h_query (firstn 2 (getSearchHistory (snd (run (demoCalls 150) newEngine)))) = ["q0"; "q1"] /\
  map h_query (skipn 98 (getSearchHistory (snd (run (demoCalls 150) newEngine)))) = ["q98"; "q99"].
Proof. vm_compute. repeat split. Qed.

(** The same query searched again after the cache entry expired is a second
    entry of the history; searched again before, it adds none. *)
Example history_keeps_repeated_queries :
  map h_query
    (getSearchHistory
       (snd (run [ (demoEnv, demoClock 0, demoOptions "invoice" Keyword);
                   (demoEnv, demoClock 1000, demoOptions "invoice" Keyword);
                   (demoEnv, demoClock 400000, demoOptions "invoice" Keyword) ]
                 newEngine))) = ["invoice"; "invoice"].
Proof. vm_compute. reflexivity. Qed.

(* ------------------------------------------------------------------------- *)
(** ** Filters *)

Lemma filter_if_In : forall {A : Type} (c : bool) (f : A -> bool) (l : list A) (x : A),
  In x (if c then filter f l else l) <-> In x l /\ (c = true -> f x = true).
Proof.
  intros A c f l x. destruct c.
  - rewrite filter_In. split; intros [H1 H2]; split; auto.
  - split; [intro H; split; [exact H | discriminate] | intros [H _]; exact H].
Qed.

Lemma filter_opt_In : forall {A B : Type} (o : option B) (f : B -> A -> bool)
    (l : list A) (x : A),
  In x (match o with Some b => filter (f b) l | None => l end) <->
  In x l /\ (forall b, o = Some b -> f b x = true).
Proof.
  intros A B o f l x. destruct o as [b |].
  - rewrite filter_In. split.
    + intros [H1 H2]. split; [exact H1 |]. intros b' E. inversion E; subst. exact H2.
    + intros [H1 H2]. split; [exact H1 | apply H2; reflexivity].
  - split; [intro H; split; [exact H | discriminate] | intros [H _]; exact H].
Qed.

Lemma applyFilters_In : forall env options results result,
  In result (applyFilters env results options) <->
  In result results /\
  (fileTypeConfigured options = true -> fileTypeTest options result = true) /\
  (forall range, o_dateRange options = Some range -> dateRangeTest env range result = true) /\
  (forall tags, tagsConfigured options = Some tags -> tagsTest tags result = true) /\
  (forall folders, foldersConfigured options = Some folders ->
                   foldersTest folders result = true).
Proof.
  intros env options results result. unfold applyFilters.
  rewrite (filter_opt_In (foldersConfigured options) foldersTest).
  rewrite (filter_opt_In (tagsConfigured options) tagsTest).
  rewrite (filter_opt_In (o_dateRange options) (dateRangeTest env)).
  rewrite filter_if_In.
  split.
  - intros [[[[H1 H2] H3] H4] H5]. repeat split; assumption.
  - intros (H1 & H2 & H3 & H4 & H5). repeat split; assumption.
Qed.

(** C5, as the engine has it.  A result with no backing file passes the
    file-extension filter and a result with no modified timestamp passes the
    date-range filter; the tag filter rejects a result without tags and the
    folder filter rejects a result without a path.  [applyFilters] keeps
    exactly the results that pass every configured filter. *)
Theorem filters_on_missing_data : forall env options result,
  (r_file result = None -> fileTypeTest options result = true) /\
  (truthy_str (m_modified (r_metadata result)) = false ->
     forall range, dateRangeTest env range result = true) /\
  (m_tags (r_metadata result) = None -> forall tags, tagsTest tags result = false) /\
  (truthy_str (m_path (r_metadata result)) = false ->
     forall folders, foldersTest folders result = false) /\
  (forall results,
     In result (applyFilters env results options) <->
     In result results /\
     (fileTypeConfigured options = true -> fileTypeTest options result = true) /\
     (forall range, o_dateRange options = Some range -> dateRangeTest env range result = true) /\
     (forall tags, tagsConfigured options = Some tags -> tagsTest tags result = true) /\
     (forall folders, foldersConfigured options = Some folders ->
                      foldersTest folders result = true)).
Proof.
  intros env options result. split; [| split; [| split; [| split]]].
  - intro H. unfold fileTypeTest. rewrite H. reflexivity.
  - intros H range. unfold dateRangeTest. rewrite H. reflexivity.
  - intros H tags. unfold tagsTest. rewrite H. reflexivity.
  - intros H folders. unfold foldersTest. rewrite H. reflexivity.
  - intro results. apply applyFilters_In.
Qed.

(** The file-type and date-range filters at work: a result of the index has
    neither file nor timestamp and is kept, a PDF is dropped. *)
Lemma filters_on_missing_data_witness :
  In pathless (applyFilters demoEnv [pathless; pdfResult] fileDateOptions) /\
  ~ In pdfResult (applyFilters demoEnv [pathless; pdfResult] fileDateOptions).
Proof.
  split.
  - destruct (filters_on_missing_data demoEnv fileDateOptions pathless)
      as (Hfile & Hdate & _ & _ & Happly).
    apply Happly. split; [left; reflexivity |]. split; [| split; [| split]].
    + intros _. apply Hfile. reflexivity.
    + intros range _. apply Hdate. reflexivity.
    + intros tags E. discriminate E.
    + intros folders E. discriminate E.
  - destruct (filters_on_missing_data demoEnv fileDateOptions pdfResult)
      as (_ & _ & _ & _ & Happly).
    intro H. apply Happly in H. destruct H as (_ & Hfile & _).
    specialize (Hfile eq_refl). discriminate Hfile.
Defined.

(** C5 as stated fails for the folder filter: a result without a path does
    not pass a configured folder filter. *)
Lemma folder_filter_rejects_pathless :
  m_path (r_metadata pathless) = None /\
  foldersConfigured folderOptions = Some ["notes/"] /\
  In pathless [pathless] /\
  ~ In pathless (applyFilters demoEnv [pathless] folderOptions).
Proof. vm_compute. repeat split; auto. Qed.

(* ------------------------------------------------------------------------- *)
(** ** Sorting by title *)

Lemma title_asc_after : forall env options a b,
  o_sortBy options = ByTitle -> o_sortOrder options = Asc ->
  is_positive (sortComparator env options a b) =
  match localeCompare env (r_title a) (r_title b) with
  | Lt => true
  | _ => false
  end.
Proof.
  intros env options a b Hby Hord. unfold sortComparator, comparison_of.
  rewrite Hby, Hord. destruct (localeCompare env (r_title a) (r_title b)); reflexivity.
Qed.

(** With [sortOrder = 'asc'] the title comparator is negated, so a title that
    collates first is moved behind: whatever the list, no title in the
    output is followed by one that collates after it. *)
Lemma sortResults_title_asc_descending : forall env options results,
  o_sortBy options = ByTitle -> o_sortOrder options = Asc ->
  (forall s t, localeCompare env s t = Lt -> localeCompare env t s <> Lt) ->
  Sorted (fun a b => localeCompare env (r_title a) (r_title b) <> Lt)
         (sortResults env results options).
Proof.
  intros env options results Hby Hord Hasym. unfold sortResults, sort_by_comparator.
  set (after := fun a b => is_positive (sortComparator env options a b)).
  apply Sorted_impl_in with (R := in_order after).
  - intros a b _ _ H. unfold in_order, after in H.
    rewrite title_asc_after in H by assumption.
    destruct (localeCompare env (r_title a) (r_title b)); congruence.
  - apply js_sort_sorted. intros a b. unfold after.
    rewrite !title_asc_after by assumption.
    destruct (localeCompare env (r_title a) (r_title b)) eqn:E; try discriminate.
    intros _. specialize (Hasym _ _ E).
    destruct (localeCompare env (r_title b) (r_title a)); congruence.
Qed.

(** Whatever the order asked for, results with one and the same title keep
    their input order. *)
Lemma sortResults_title_stable : forall env options results title,
  o_sortBy options = ByTitle ->
  localeCompare env title title = Eq ->
  filter (fun r => String.eqb (r_title r) title) (sortResults env results options) =
  filter (fun r => String.eqb (r_title r) title) results.
Proof.
  intros env options results title Hby Hrefl. unfold sortResults, sort_by_comparator.
  apply js_sort_stable. intros x y Hx Hy.
  apply String.eqb_eq in Hx, Hy. unfold sortComparator, comparison_of.
  rewrite Hby, Hx, Hy, Hrefl. destruct (o_sortOrder options); reflexivity.
Qed.

(** C4 at a concrete input.  Sorted by title with [sortOrder = 'asc'], the
    titles apple, banana, cherry come out as cherry, banana, apple; it is
    [sortOrder = 'desc'] that gives the ascending order.  Equal titles keep
    their input order in both.  The relevance comparator next to it has the
    orientation the options name. *)
Theorem title_asc_returns_descending :
  map r_title (sortResults demoEnv
                 [bare "1" "banana" 1; bare "2" "apple" 1; bare "3" "cherry" 1]
                 (titleOptions Asc)) = ["cherry"; "banana"; "apple"] /\
  map r_title (sortResults demoEnv
                 [bare "1" "banana" 1; bare "2" "apple" 1; bare "3" "cherry" 1]
                 (titleOptions Desc)) = ["apple"; "banana"; "cherry"] /\
  map r_id (sortResults demoEnv
              [bare "1" "apple" 1; bare "2" "banana" 1; bare "3" "apple" 1]
              (titleOptions Asc)) = ["2"; "1"; "3"] /\
  map r_score (sortResults demoEnv [bare "1" "x" 2; bare "2" "y" 1; bare "3" "z" 3]
                 (relevanceOptions Asc)) = [1; 2; 3] /\
  map r_score (sortResults demoEnv [bare "1" "x" 2; bare "2" "y" 1; bare "3" "z" 3]
                 (relevanceOptions Desc)) = [3; 2; 1].
Proof. vm_compute. repeat split. Qed.

(* ------------------------------------------------------------------------- *)
(** ** Maps *)

Section MapFacts.
Context {K V : Type} (eqb : K -> K -> bool).
Hypothesis eqb_eq : forall a b, eqb a b = true <-> a = b.

Lemma eqb_refl' : forall k, eqb k k = true.
Proof. intro k. apply eqb_eq. reflexivity. Qed.

Lemma eqb_neq : forall a b, a <> b -> eqb a b = false.
Proof.
  intros a b H. destruct (eqb a b) eqn:E; [| reflexivity].
  apply eqb_eq in E. contradiction.
Qed.

Lemma map_get_set_same : forall k (v : V) m, map_get eqb k (map_set eqb k v m) = Some v.
Proof.
  intros k v m. induction m as [| [k' v'] m IH]; cbn.
  - rewrite eqb_refl'. reflexivity.
  - destruct (eqb k k') eqn:E; cbn; rewrite E; [reflexivity | exact IH].
Qed.

Lemma map_get_set_other : forall k k' (v : V) m,
  k <> k' -> map_get eqb k' (map_set eqb k v m) = map_get eqb k' m.
Proof.
  intros k k' v m Hne. induction m as [| [k0 v0] m IH]; cbn.
  - rewrite eqb_neq by congruence. reflexivity.
  - destruct (eqb k k0) eqn:E; cbn.
    + apply eqb_eq in E. subst k0. rewrite eqb_neq by congruence. reflexivity.
    + rewrite IH. reflexivity.
Qed.

Lemma map_get_None : forall k (m : list (K * V)),
  map_get eqb k m = None <-> ~ In k (keys m).
Proof.
  intros k m. induction m as [| [k' v'] m IH]; cbn.
  - split; auto.
  - destruct (eqb k k') eqn:E.
    + apply eqb_eq in E. subst. split; [discriminate | intro H; exfalso; apply H; auto].
    + rewrite IH. split.
      * intros H [H' | H']; [subst; rewrite eqb_refl' in E; discriminate | auto].
      * intros H H'. apply H. auto.
Qed.

Lemma map_get_In : forall k (v : V) m, map_get eqb k m = Some v -> In (k, v) m.
Proof.
  intros k v m. induction m as [| [k' v'] m IH]; cbn; [discriminate |].
  destruct (eqb k k') eqn:E.
  - apply eqb_eq in E. subst. intro H. inversion H; subst. auto.
  - auto.
Qed.

Lemma In_map_get : forall k (v : V) m,
  NoDup (keys m) -> In (k, v) m -> map_get eqb k m = Some v.
Proof.
  intros k v m. induction m as [| [k' v'] m IH]; cbn; intros Hnd Hin; [contradiction |].
  inversion Hnd as [| ? ? Hnotin Hnd']; subst.
  destruct Hin as [Heq | Hin].
  - inversion Heq; subst. rewrite eqb_refl'. reflexivity.
  - destruct (eqb k k') eqn:E.
    + apply eqb_eq in E. subst. exfalso. apply Hnotin.
      change k' with (fst (k', v)). apply in_map. exact Hin.
    + apply IH; assumption.
Qed.

Lemma keys_set_present : forall k (v v0 : V) m,
  map_get eqb k m = Some v0 -> keys (map_set eqb k v m) = keys m.
Proof.
  intros k v v0 m. unfold keys. induction m as [| [k' v'] m IH]; cbn; [discriminate |].
  destruct (eqb k k') eqn:E; cbn; [reflexivity |].
  intro H. f_equal. apply IH. exact H.
Qed.

Lemma keys_set_absent : forall k (v : V) m,
  map_get eqb k m = None -> map_set eqb k v m = m ++ [(k, v)].
Proof.
  intros k v m. induction m as [| [k' v'] m IH]; cbn; [reflexivity |].
  destruct (eqb k k') eqn:E; [discriminate |].
  intro H. rewrite IH by exact H. reflexivity.
Qed.

Lemma keys_set_NoDup : forall k (v : V) m, NoDup (keys m) -> NoDup (keys (map_set eqb k v m)).
Proof.
  intros k v m H. destruct (map_get eqb k m) as [v0 |] eqn:E.
  - rewrite (keys_set_present _ _ _ _ E). exact H.
  - rewrite (keys_set_absent _ _ _ E). unfold keys. rewrite map_app. cbn.
    apply NoDup_app; [exact H | repeat constructor; auto |].
    intros a Ha [Hb | []]. subst. apply map_get_None in E. contradiction.
Qed.

End MapFacts.

(* ------------------------------------------------------------------------- *)
(** ** Analytics *)

Lemma countQuery_count : forall queryCount entry q,
  count_of q (countQuery queryCount entry) =
  (count_of q queryCount + if String.eqb (h_query entry) q then 1 else 0)%nat.
Proof.
  intros m e q. unfold countQuery, count_of.
  destruct (String.eqb_spec (h_query e) q) as [Heq | Hne].
  - subst q. rewrite (map_get_set_same String.eqb String.eqb_eq). reflexivity.
  - rewrite (map_get_set_other String.eqb String.eqb_eq) by exact Hne. lia.
Qed.

Lemma queryCount_count : forall history queryCount q,
  count_of q (fold_left countQuery history queryCount) =
  (count_of q queryCount + occurrences q history)%nat.
Proof.
  induction history as [| e h IH]; intros m q; cbn [fold_left].
  - unfold occurrences. cbn. lia.
  - rewrite IH, countQuery_count. unfold occurrences. cbn [filter].
    destruct (String.eqb (h_query e) q); cbn [length]; lia.
Qed.

Lemma queryCount_NoDup : forall history queryCount,
  NoDup (keys queryCount) -> NoDup (keys (fold_left countQuery history queryCount)).
Proof.
  induction history as [| e h IH]; intros m H; cbn [fold_left]; [exact H |].
  apply IH. unfold countQuery. apply (keys_set_NoDup String.eqb String.eqb_eq). exact H.
Qed.

Lemma queryCount_positive : forall history queryCount,
  (forall q n, map_get String.eqb q queryCount = Some n -> (1 <= n)%nat) ->
  forall q n, map_get String.eqb q (fold_left countQuery history queryCount) = Some n ->
              (1 <= n)%nat.
Proof.
  induction history as [| e h IH]; intros m H; cbn [fold_left]; [exact H |].
  apply IH. intros q n. unfold countQuery.
  destruct (String.eqb_spec (h_query e) q) as [Heq | Hne].
  - subst q. rewrite (map_get_set_same String.eqb String.eqb_eq).
    intro E. inversion E. lia.
  - rewrite (map_get_set_other String.eqb String.eqb_eq) by exact Hne. apply H.
Qed.

(** The map built by the loop: one entry per distinct query, with the number
    of its occurrences. *)
Lemma queryCount_spec : forall history,
  NoDup (keys (fold_left countQuery history [])) /\
  (forall q c, In (q, c) (fold_left countQuery history []) ->
               c = occurrences q history /\ (1 <= c)%nat) /\
  (forall q, (1 <= occurrences q history)%nat ->
             In (q, occurrences q history) (fold_left countQuery history [])).
Proof.
  intro h.
  assert (Hnd : NoDup (keys (fold_left countQuery h []))) by (apply queryCount_NoDup; constructor).
  split; [exact Hnd |]. split.
  - intros q c Hin. apply (In_map_get String.eqb String.eqb_eq) in Hin; [| exact Hnd].
    split.
    + pose proof (queryCount_count h [] q) as Hc. unfold count_of in Hc at 1.
      rewrite Hin in Hc. cbn in Hc. exact Hc.
    + apply (queryCount_positive h []) with (q := q); [cbn; discriminate | exact Hin].
  - intros q Hocc. apply (map_get_In String.eqb String.eqb_eq).
    pose proof (queryCount_count h [] q) as Hc. unfold count_of in Hc at 1.
    destruct (map_get String.eqb q (fold_left countQuery h [])) as [n |].
    + cbn in Hc. subst n. reflexivity.
    + cbn in Hc. lia.
Qed.

Lemma byCountAfter_order : forall a b, in_order byCountAfter a b <-> (snd b <= snd a)%nat.
Proof.
  intros a b. unfold in_order, byCountAfter. rewrite Z.ltb_ge. lia.
Qed.

Lemma byCount_sorted : forall l,
  StronglySorted (fun a b : string * nat => (snd b <= snd a)%nat) (js_sort byCountAfter l).
Proof.
  intro l. apply Sorted_StronglySorted.
  - intros a b c Hab Hbc. lia.
  - apply Sorted_impl_in with (R := in_order byCountAfter).
    + intros a b _ _ H. apply byCountAfter_order. exact H.
    + apply js_sort_sorted. intros a b. unfold byCountAfter.
      rewrite Z.ltb_lt, Z.ltb_ge. lia.
Qed.

Lemma StronglySorted_app : forall {A : Type} (R : A -> A -> Prop) (l1 l2 : list A),
  StronglySorted R (l1 ++ l2) ->
  StronglySorted R l1 /\ (forall x y, In x l1 -> In y l2 -> R x y).
Proof.
  intros A R l1 l2. induction l1 as [| a l1 IH]; cbn; intro H.
  - split; [constructor | intros x y []].
  - inversion H as [| ? ? Hs Hall]; subst. destruct (IH Hs) as [IH1 IH2].
    rewrite Forall_forall in Hall. split.
    + constructor; [exact IH1 |]. apply Forall_forall. intros x Hx.
      apply Hall. apply in_or_app. left. exact Hx.
    + intros x y [Hx | Hx] Hy.
      * subst. apply Hall. apply in_or_app. right. exact Hy.
      * apply IH2; assumption.
Qed.

Lemma totalResults_sum : forall history total,
  fold_left (fun total entry => (total + h_resultCount entry)%nat) history total =
  (total + list_sum (map h_resultCount history))%nat.
Proof.
  unfold list_sum. induction history as [| e h IH]; intro total; cbn.
  - lia.
  - rewrite IH. lia.
Qed.

(** C9, as the engine has it.  [getSearchAnalytics] returns the number of
    history entries; at most ten queries, each once and with the number of its
    occurrences in the history, in descending order of that number, such that
    a query left out occurs no more often than any query listed; the sum of
    the result counts divided by the number of entries, [0] for an empty
    history; and a usage table that lists the four search types with the
    count [0], whatever was searched. *)
Theorem analytics_spec : forall st,
  let analytics := getSearchAnalytics st in
  let history := searchHistory st in
  totalSearches analytics = length history /\
  (length (topQueries analytics) <= 10)%nat /\
  NoDup (keys (topQueries analytics)) /\
  (forall q c, In (q, c) (topQueries analytics) ->
               c = occurrences q history /\ (1 <= c)%nat) /\
  StronglySorted (fun a b => (snd b <= snd a)%nat) (topQueries analytics) /\
  (forall q, (1 <= occurrences q history)%nat -> ~ In q (keys (topQueries analytics)) ->
             length (topQueries analytics) = 10%nat /\
             forall q' c', In (q', c') (topQueries analytics) ->
                           (occurrences q history <= c')%nat) /\
  averageResults analytics =
    (if (0 <? length history)%nat
     then num_of_nat (list_sum (map h_resultCount history)) / num_of_nat (length history)
     else 0) /\
  searchTypes analytics =
    [("semantic", 0%nat); ("keyword", 0%nat); ("hybrid", 0%nat); ("ai_enhanced", 0%nat)].
Proof.
  intro st. cbn zeta. unfold getSearchAnalytics.
  cbn [totalSearches topQueries averageResults searchTypes].
  set (h := searchHistory st).
  set (queryCount := fold_left countQuery h []).
  set (sorted := js_sort byCountAfter queryCount).
  destruct (queryCount_spec h) as (Hnd & Hspec & Hall). fold queryCount in Hnd, Hspec, Hall.
  pose proof (byCount_sorted queryCount) as Hsorted. fold sorted in Hsorted.
  pose proof (js_sort_perm byCountAfter queryCount) as Hperm. fold sorted in Hperm.
  pose proof (firstn_skipn 10 sorted) as Hsplit.
  rewrite <- Hsplit in Hsorted.
  apply StronglySorted_app in Hsorted. destruct Hsorted as [Htop Hcross].
  assert (Hin : forall x, In x (firstn 10 sorted) -> In x queryCount).
  { intros x Hx. apply (Permutation_in _ Hperm). rewrite <- Hsplit.
    apply in_or_app. left. exact Hx. }
  split; [reflexivity |]. split; [apply firstn_le_length |]. split.
  { assert (Hk : NoDup (keys sorted)).
    { apply (Permutation_NoDup (l := keys queryCount)); [| exact Hnd].
      unfold keys. apply Permutation_map. apply Permutation_sym. exact Hperm. }
    rewrite <- Hsplit in Hk. unfold keys in *. rewrite map_app in Hk.
    apply NoDup_app_remove_r in Hk. exact Hk. }
  split; [intros q c Hqc; apply Hspec, Hin, Hqc |].
  split; [exact Htop |]. split.
  { intros q Hocc Hnot.
    assert (Hq : In (q, occurrences q h) (skipn 10 sorted)).
    { specialize (Hall q Hocc). apply (Permutation_in _ (Permutation_sym Hperm)) in Hall.
      rewrite <- Hsplit in Hall. apply in_app_or in Hall. destruct Hall as [Hl | Hr].
      - exfalso. apply Hnot. unfold keys.
        change q with (fst (q, occurrences q h)). apply in_map. exact Hl.
      - exact Hr. }
    split.
    - rewrite length_firstn.
      destruct (Nat.le_gt_cases (length sorted) 10) as [Hle | Hgt]; [| lia].
      rewrite skipn_all2 in Hq by exact Hle. contradiction.
    - intros q' c' Hin'. apply (Hcross _ _ Hin' Hq). }
  split; [| reflexivity].
  rewrite totalResults_sum. reflexivity.
Qed.

(** C9 as stated fails for the usage table: after one hybrid search the
    history has one entry and the table still counts no hybrid search. *)
Lemma usage_table_counts_nothing :
  let st := snd (run [(demoEnv, demoClock 0, demoOptions "invoice" Hybrid)] newEngine) in
  length (fst (run [(demoEnv, demoClock 0, demoOptions "invoice" Hybrid)] newEngine)) = 1%nat /\
  totalSearches (getSearchAnalytics st) = 1%nat /\
  map_get String.eqb "hybrid" (searchTypes (getSearchAnalytics st)) = Some 0%nat.
Proof. vm_compute. repeat split. Qed.

(** The analytics of a history of three searches, two of them for [invoice]. *)
Example analytics_of_three_searches :
  let st := {| searchHistory := [ {| h_query := "tax"; h_timestamp := "t3"; h_resultCount := 1 |};
                                  {| h_query := "invoice"; h_timestamp := "t2"; h_resultCount := 3 |};
                                  {| h_query := "invoice"; h_timestamp := "t1"; h_resultCount := 2 |} ];
               searchCache := [] |} in
  totalSearches (getSearchAnalytics st) = 3%nat /\
  topQueries (getSearchAnalytics st) = [("invoice", 2%nat); ("tax", 1%nat)] /\
  averageResults (getSearchAnalytics st) = 2.
Proof. vm_compute. repeat split. Qed.

(* ------------------------------------------------------------------------- *)
(** ** Cache *)

Lemma strings_eqb_eq : forall a b, strings_eqb a b = true <-> a = b.
Proof.
  induction a as [| x a IH]; destruct b as [| y b]; cbn; split; try congruence.
  - intro H. apply andb_true_iff in H. destruct H as [H1 H2].
    apply String.eqb_eq in H1. apply IH in H2. congruence.
  - intro H. inversion H; subst. apply andb_true_iff. split.
    + apply String.eqb_refl.
    + apply IH. reflexivity.
Qed.

Lemma opt_strings_eqb_eq : forall a b, opt_strings_eqb a b = true <-> a = b.
Proof.
  intros [a |] [b |]; cbn; split; try congruence.
  - intro H. apply strings_eqb_eq in H. congruence.
  - intro H. inversion H; subst. apply strings_eqb_eq. reflexivity.
Qed.

Lemma searchType_eqb_eq : forall a b, searchType_eqb a b = true <-> a = b.
Proof. intros [] []; cbn; split; congruence. Qed.

Lemma cacheKey_eqb_eq : forall a b, cacheKey_eqb a b = true <-> a = b.
Proof.
  intros [q1 t1 u1 f1 g1 d1] [q2 t2 u2 f2 g2 d2]. unfold cacheKey_eqb. cbn.
  rewrite !andb_true_iff, String.eqb_eq, searchType_eqb_eq, Bool.eqb_true_iff,
    strings_eqb_eq, !opt_strings_eqb_eq.
  split.
  - intros [[[[[H1 H2] H3] H4] H5] H6]. congruence.
  - intro H. inversion H; subst. repeat split.
Qed.

(** A live cache entry answers the call: no event, the engine as it was. *)
Lemma search_cache_hit : forall env clock options st entry,
  map_get cacheKey_eqb (generateCacheKey options) (searchCache st) = Some entry ->
  (now_lookup clock - c_timestamp entry < cacheTimeout)%Z ->
  search env clock options st = (([], Ok (c_results entry)), st).
Proof.
  intros env clock options st entry Hget Hlive. unfold search, cacheLookup.
  rewrite Hget. apply Z.ltb_lt in Hlive. rewrite Hlive. reflexivity.
Qed.

Lemma search_stores : forall env clock options st events results st',
  cacheLookup clock options st = None ->
  search env clock options st = ((events, Ok results), st') ->
  map_get cacheKey_eqb (generateCacheKey options) (searchCache st') =
    Some {| c_results := results; c_timestamp := now_store clock |}.
Proof.
  intros env clock options st events results st' Hmiss H. unfold search in H.
  rewrite Hmiss in H.
  destruct (pipeline env options) as [t [rs | e]]; inversion H; subst. cbn [searchCache].
  apply (map_get_set_same cacheKey_eqb cacheKey_eqb_eq).
Qed.

Lemma search_entry : forall env clock options st events results st',
  search env clock options st = ((events, Ok results), st') ->
  exists entry,
    map_get cacheKey_eqb (generateCacheKey options) (searchCache st') = Some entry /\
    c_results entry = results /\
    (cacheLookup clock options st = None -> c_timestamp entry = now_store clock).
Proof.
  intros env clock options st events results st' H.
  destruct (cacheLookup clock options st) as [cached |] eqn:Hlookup.
  - unfold search in H. rewrite Hlookup in H. inversion H; subst.
    unfold cacheLookup in Hlookup.
    destruct (map_get cacheKey_eqb (generateCacheKey options) (searchCache st'))
      as [entry |]; [| discriminate].
    exists entry. split; [reflexivity |]. split; [| discriminate].
    destruct (now_lookup clock - c_timestamp entry <? cacheTimeout)%Z; [| discriminate].
    inversion Hlookup. reflexivity.
  - exists {| c_results := results; c_timestamp := now_store clock |}.
    split; [apply (search_stores _ _ _ _ _ _ _ Hlookup H) |]. split; reflexivity.
Qed.

(* ------------------------------------------------------------------------- *)
(** ** Failures of the strategies *)

Lemma hybridSearch_outcome : forall env options,
  outcome (hybridSearch env options) =
  match outcome (keywordSearch env options) with
  | Ok keywordResults =>
      Ok (hybridMerge (match outcome (semanticSearch env options) with
                       | Ok semanticResults => semanticResults
                       | Err _ => []
                       end) keywordResults)
  | Err e => Err e
  end.
Proof.
  intros env options. unfold hybridSearch, outcome, bind, try_catch, ret.
  destruct (semanticSearch env options) as [t1 [sem | e1]];
    destruct (keywordSearch env options) as [t2 [kw | e2]]; reflexivity.
Qed.

(** C8. A call of [search] for the semantic strategy that is not answered
    from the cache fails with the error of [semanticSearch] when no embedding
    provider is configured, and leaves the engine as it was.  Inside the hybrid
    strategy a failing semantic search counts as no semantic result, and a
    failing lexical search is the failure of the hybrid search. *)
Theorem strategy_failures : forall env options,
  (forall clock st,
     o_searchType options = Semantic -> embeddings env = None ->
     cacheLookup clock options st = None ->
     search env clock options st =
       (([EvStrategy Semantic], Err "Embeddings not available for semantic search"), st)) /\
  (forall e keywordResults,
     outcome (semanticSearch env options) = Err e ->
     outcome (keywordSearch env options) = Ok keywordResults ->
     outcome (hybridSearch env options) = Ok (hybridMerge [] keywordResults)) /\
  (forall e,
     outcome (keywordSearch env options) = Err e ->
     outcome (hybridSearch env options) = Err e).
Proof.
  intros env options. split; [| split].
  - intros clock st Htype Hemb Hmiss. unfold search. rewrite Hmiss.
    unfold pipeline, dispatch. rewrite Htype. unfold semanticSearch. rewrite Hemb.
    reflexivity.
  - intros e kw Hsem Hkw. rewrite hybridSearch_outcome, Hkw, Hsem. reflexivity.
  - intros e Hkw. rewrite hybridSearch_outcome, Hkw. reflexivity.
Qed.

(** Without an embedding provider the semantic search fails and the hybrid
    search returns the lexical match alone; with a vault that cannot be listed
    the hybrid search fails. *)
Lemma strategy_failures_witness :
  search noEmbeddingsEnv (demoClock 0) (demoOptions "invoice" Semantic) newEngine =
    (([EvStrategy Semantic], Err "Embeddings not available for semantic search"), newEngine) /\
  (exists keywordResults,
     map r_id keywordResults = ["keyword_B.md"] /\
     outcome (hybridSearch noEmbeddingsEnv (demoOptions "invoice" Hybrid)) =
       Ok (hybridMerge [] keywordResults)) /\
  outcome (hybridSearch brokenVaultEnv (demoOptions "invoice" Hybrid)) = Err "vault unavailable".
Proof.
  split; [| split].
  - apply (strategy_failures noEmbeddingsEnv (demoOptions "invoice" Semantic)); reflexivity.
  - destruct (keywordSearch noEmbeddingsEnv (demoOptions "invoice" Hybrid))
      as [t [kw | e]] eqn:E; [| vm_compute in E; discriminate].
    exists kw. split.
    + vm_compute in E. inversion E. reflexivity.
    + apply (strategy_failures noEmbeddingsEnv (demoOptions "invoice" Hybrid))
        with (e := "Embeddings not available for semantic search").
      * reflexivity.
      * rewrite E. reflexivity.
  - apply (strategy_failures brokenVaultEnv (demoOptions "invoice" Hybrid)). reflexivity.
Defined.

(* ------------------------------------------------------------------------- *)
(** ** Reranker *)

Lemma mapR_Forall2 : forall {A B : Type} (f : A -> result B) (l : list A),
  Forall (fun x => exists y, f x = Ok y) l ->
  exists ys, mapR f l = Ok ys /\ Forall2 (fun x y => f x = Ok y) l ys.
Proof.
  intros A B f l. induction l as [| x l IH]; intro H.
  - exists []. split; [reflexivity | constructor].
  - inversion H as [| ? ? [y Hy] Hl]; subst. destruct (IH Hl) as (ys & Hys & Hall).
    exists (y :: ys). split.
    + cbn. rewrite Hy. cbn. rewrite Hys. reflexivity.
    + constructor; assumption.
Qed.

Lemma sortKey_truthy : forall r, falsy (finalOf r) = false -> sortKey r = finalOf r.
Proof.
  intros r H. unfold sortKey, finalOf, opt_num_or, num_or in *.
  destruct (r_finalScore r) as [f |]; [rewrite H |]; reflexivity.
Qed.

Lemma falsy_not_nan : forall x, falsy x = false -> is_nan x = false.
Proof. intros x H. unfold falsy in H. apply orb_false_iff in H. apply H. Qed.

(** The array sorted by the relevance comparator. *)
Lemma byRelevance_sorted : forall l,
  Permutation (sort_by_comparator byRelevance l) l /\
  Sorted (fun a b => (sortKey a <? sortKey b) = false) (sort_by_comparator byRelevance l) /\
  (Forall (fun r => is_nan (sortKey r) = false) l ->
   descending sortKey (sort_by_comparator byRelevance l)) /\
  (Forall (fun r => falsy (finalOf r) = false) l ->
   descending finalOf (sort_by_comparator byRelevance l)).
Proof.
  intro l. split; [apply js_sort_perm |]. split; [| split].
  - unfold sort_by_comparator.
    apply Sorted_impl_in with (R := in_order (fun a b => is_positive (byRelevance a b))).
    + intros a b _ _ H. unfold in_order in H. rewrite byRelevance_after in H. exact H.
    + apply js_sort_sorted. intros a b. rewrite !byRelevance_after. apply NumFacts.ltb_asym.
  - intro H. apply neighbours_descending_all. apply (sort_by_key_descending sortKey l H).
  - intro H. apply neighbours_descending_all.
    assert (Hnan : Forall (fun r => is_nan (sortKey r) = false) l).
    { rewrite Forall_forall in *. intros r Hr. rewrite sortKey_truthy by auto.
      apply falsy_not_nan. auto. }
    pose proof (sort_by_key_descending sortKey l Hnan) as Hd.
    unfold neighbours_descending in *.
    apply Sorted_impl_in with (R := fun a b => (sortKey b <=? sortKey a) = true);
      [| exact Hd].
    rewrite Forall_forall in H.
    intros a b Ha Hb Hab.
    unfold sort_by_comparator in Ha, Hb.
    apply (proj1 (js_sort_In _ _ _)) in Ha. apply (proj1 (js_sort_In _ _ _)) in Hb.
    rewrite <- !sortKey_truthy by auto. exact Hab.
Qed.

(** With a rerank provider that is ready, a non-empty result list and an
    answer of the provider whose indices point into that list, [rerankResults]
    returns, sorted by the relevance comparator, one result for each pair of
    the answer whose relevance score is at least [options.rerankThreshold] and
    no other: the result the pair's index names, with [rerankScore] the pair's
    relevance score and [finalScore = score * 0.3 + relevance_score * 0.7].
    No result of the output is followed by one with a greater
    [finalScore || score]; the output is descending in that key when it is
    never NaN, and descending in [finalScore] when no [finalScore] is 0 or
    NaN. *)
Lemma rerank_blend : forall env query results options rerank data,
  voyage_isEnabled env = true ->
  voyage_provider env = Some rerank ->
  results <> [] ->
  rerank query (map r_content results)
         (if (o_maxResults options =? 0)%Z then 10%Z else o_maxResults options) = Ok data ->
  Forall (fun item => (ri_index item < length results)%nat) data ->
  exists reranked,
    outcome (rerankResults env query results options) =
      Ok (sort_by_comparator byRelevance reranked) /\
    Forall2 (fun item r =>
               exists original,
                 nth_error results (ri_index item) = Some original /\
                 r = blended original item /\
                 r_rerankScore r = Some (ri_relevance_score item) /\
                 r_finalScore r =
                   Some (r_score original * 0.3 + ri_relevance_score item * 0.7))
            (filter (survives options) data) reranked /\
    Permutation (sort_by_comparator byRelevance reranked) reranked /\
    Sorted (fun a b => (sortKey a <? sortKey b) = false)
           (sort_by_comparator byRelevance reranked) /\
    (Forall (fun r => is_nan (sortKey r) = false) reranked ->
     descending sortKey (sort_by_comparator byRelevance reranked)) /\
    (Forall (fun r => falsy (finalOf r) = false) reranked ->
     descending finalOf (sort_by_comparator byRelevance reranked)).
Proof.
  intros env query results options rerank data Hen Hprov Hne Hdata Hidx.
  assert (Hall : Forall (fun item => exists r, rerankedResult results item = Ok r)
                        (filter (survives options) data)).
  { apply Forall_forall. intros item Hin. apply filter_In in Hin. destruct Hin as [Hin _].
    rewrite Forall_forall in Hidx. specialize (Hidx _ Hin).
    unfold rerankedResult.
    destruct (nth_error results (ri_index item)) as [original |] eqn:E.
    - eexists. reflexivity.
    - apply nth_error_None in E. lia. }
  destruct (mapR_Forall2 _ _ Hall) as (reranked & Hmap & Hrel).
  exists reranked. split.
  - unfold rerankResults, voyage_isReady, rerankOnly, voyage_isReady.
    rewrite Hen, Hprov. cbn [andb negb orb].
    destruct results as [| r0 results']; [congruence |].
    cbn [length Nat.eqb].
    rewrite Hdata. unfold bind, call, try_catch, lift, ret, outcome. cbn [snd fst].
    fold (survives options). unfold survives in Hmap |- *. rewrite Hmap. reflexivity.
  - split.
    + clear - Hrel. induction Hrel as [| item r l l' H Hrest IH]; constructor; [| exact IH].
      unfold rerankedResult in H.
      destruct (nth_error results (ri_index item)) as [original |]; [| discriminate].
      inversion H; subst. exists original. repeat split.
    + apply byRelevance_sorted.
Qed.

(** The provider scores the first candidate 0.9 and the second 0.2; with the
    threshold 0.5 only the first is returned, with the final score
    [0.5 * 0.3 + 0.9 * 0.7 = 0.78]. *)
Example rerank_blend_of_two_candidates :
  outcome (rerankResults rerankEnv "invoice" twoResults (demoOptions "invoice" Hybrid)) =
    Ok [with_rerank (bare "a" "Document A" 0.5) 0.9 0.78].
Proof.
  assert (Hne : twoResults <> []) by discriminate.
  assert (Hidx : Forall (fun item => (ri_index item < length twoResults)%nat)
                   [ {| ri_index := 0; ri_relevance_score := 0.9 |};
                     {| ri_index := 1; ri_relevance_score := 0.2 |} ])
    by (repeat constructor).
  destruct (rerank_blend rerankEnv "invoice" twoResults (demoOptions "invoice" Hybrid)
              demoRerank _ eq_refl eq_refl Hne eq_refl Hidx)
    as (reranked & Hout & Hrel & _).
  rewrite Hout. vm_compute in Hrel.
  inversion Hrel as [| item r l l' (original & Hnth & Hr & _) Hrest]; subst.
  inversion Hrest; subst. inversion Hnth; subst. vm_compute. reflexivity.
Qed.

(** C3 at a concrete input.  [rerankResults] does not return its results in
    descending order of [finalScore] when a final score is exactly 0.  Two candidates with the
    scores -0.7 and -0.9 are both given the relevance 0.3, above the
    threshold 0.1: the final scores are [-0.7 * 0.3 + 0.3 * 0.7 = 0] and
    [-0.9 * 0.3 + 0.3 * 0.7].  The comparator reads [finalScore || score], for
    which a final score of 0 is no final score: the first candidate is
    ranked at its score -0.7 and returned behind the second, whose final
    score is the smaller one.  A semantic search with reranking returns the
    two in that order as well. *)
Theorem rerank_misorders_zero_final :
  exists a b,
    outcome (rerankResults evenRerankEnv "invoice" negativeResults lowThresholdOptions) =
      Ok [b; a] /\
    r_id a = "a" /\ r_id b = "b" /\
    r_rerankScore a = Some 0.3 /\ r_rerankScore b = Some 0.3 /\
    r_finalScore a = Some (-0.7 * 0.3 + 0.3 * 0.7) /\
    r_finalScore b = Some (-0.9 * 0.3 + 0.3 * 0.7) /\
    finalOf a = 0 /\
    (finalOf b <? finalOf a) = true /\
    ~ descending finalOf [b; a] /\
    option_map (map (fun r => (r_id r, r_score r, r_finalScore r)))
      (match outcome (fst (search negativeIndexEnv (demoClock 0) rerankedSemanticOptions
                             newEngine)) with
       | Ok results => Some results
       | Err _ => None
       end) =
    Some [("semantic_1", -0.9, Some (-0.9 * 0.3 + 0.3 * 0.7)); ("semantic_0", -0.7, Some 0)].
Proof.
  destruct (outcome (rerankResults evenRerankEnv "invoice" negativeResults lowThresholdOptions))
    as [[| b [| a [| c rest]]] | e] eqn:H; try (vm_compute in H; discriminate H).
  exists a, b. split; [reflexivity |].
  vm_compute in H. injection H as <- <-.
  repeat (split; [vm_compute; reflexivity |]).
  split; [| vm_compute; reflexivity].
  intro Hd. unfold descending in Hd. inversion Hd as [| ? ? _ Hall]; subst.
  inversion Hall as [| ? ? Hle _]; subst. vm_compute in Hle. discriminate Hle.
Qed.

(* ------------------------------------------------------------------------- *)
(** ** Hybrid combiner *)

Lemma find_by_id_Some : forall i results r,
  find_by_id i results = Some r -> In r results /\ r_id r = i.
Proof.
  intros i results r H. apply find_some in H. destruct H as [H1 H2].
  apply String.eqb_eq in H2. auto.
Qed.

Lemma find_by_id_None : forall i results,
  find_by_id i results = None <-> ~ In i (ids results).
Proof.
  intros i results. unfold find_by_id, ids.
  induction results as [| r results IH]; cbn; [tauto |].
  destruct (String.eqb_spec (r_id r) i) as [E | E].
  - split; [discriminate | intro H; exfalso; apply H; auto].
  - rewrite IH. tauto.
Qed.

Lemma find_by_id_In : forall results r,
  NoDup (ids results) -> In r results -> find_by_id (r_id r) results = Some r.
Proof.
  unfold find_by_id, ids. induction results as [| r0 results IH]; cbn; intros r Hnd Hin;
    [contradiction |].
  inversion Hnd as [| ? ? Hnotin Hnd']; subst.
  destruct Hin as [E | Hin].
  - subst. rewrite String.eqb_refl. reflexivity.
  - destruct (String.eqb_spec (r_id r0) (r_id r)) as [E | E].
    + exfalso. apply Hnotin. rewrite E. apply in_map. exact Hin.
    + apply IH; assumption.
Qed.

(** The semantic results enter the map one after the other. *)
Lemma fold_addSemantic : forall semanticResults m,
  NoDup (ids semanticResults) ->
  (forall s, In s semanticResults -> ~ In (r_id s) (keys m)) ->
  fold_left addSemantic semanticResults m =
  m ++ map (fun s => (r_id s, weighted 0.7 s)) semanticResults.
Proof.
  induction semanticResults as [| s sem IH]; intros m Hnd Hfresh; cbn [fold_left map].
  - rewrite app_nil_r. reflexivity.
  - inversion Hnd as [| ? ? Hnotin Hnd']; subst.
    assert (Hs : addSemantic m s = m ++ [(r_id s, weighted 0.7 s)]).
    { unfold addSemantic. apply (keys_set_absent String.eqb).
      apply (map_get_None String.eqb String.eqb_eq). apply Hfresh. left. reflexivity. }
    rewrite Hs, IH; [rewrite <- app_assoc; reflexivity | exact Hnd' |].
    intros s' Hs' Hin. unfold keys in Hin. rewrite map_app in Hin.
    apply in_app_or in Hin. destruct Hin as [Hin | [Hin | []]].
    + apply (Hfresh s'); [right; exact Hs' | exact Hin].
    + cbn in Hin. apply Hnotin. rewrite Hin. apply in_map. exact Hs'.
Qed.

Lemma semantic_map_get : forall semanticResults i,
  NoDup (ids semanticResults) ->
  map_get String.eqb i (map (fun s => (r_id s, weighted 0.7 s)) semanticResults) =
  option_map (weighted 0.7) (find_by_id i semanticResults).
Proof.
  intros sem i _. unfold find_by_id. induction sem as [| s sem IH]; cbn; [reflexivity |].
  rewrite String.eqb_sym. destruct (String.eqb (r_id s) i); [reflexivity | exact IH].
Qed.

Lemma addKeyword_set : forall m k,
  addKeyword m k = map_set String.eqb (r_id k) (keyword_entry (map_get String.eqb (r_id k) m) k) m.
Proof.
  intros m k. unfold addKeyword, keyword_entry.
  destruct (map_get String.eqb (r_id k) m); reflexivity.
Qed.

Lemma fold_addKeyword_get : forall keywordResults m i,
  NoDup (ids keywordResults) ->
  map_get String.eqb i (fold_left addKeyword keywordResults m) =
  match find_by_id i keywordResults with
  | Some k => Some (keyword_entry (map_get String.eqb i m) k)
  | None => map_get String.eqb i m
  end.
Proof.
  induction keywordResults as [| k kw IH]; intros m i Hnd; cbn [fold_left].
  - reflexivity.
  - inversion Hnd as [| ? ? Hnotin Hnd']; subst.
    rewrite IH by exact Hnd'. unfold find_by_id. cbn [find]. fold (find_by_id i kw).
    rewrite addKeyword_set.
    destruct (String.eqb_spec (r_id k) i) as [E | E].
    + subst i. apply find_by_id_None in Hnotin. rewrite Hnotin.
      apply (map_get_set_same String.eqb String.eqb_eq).
    + rewrite (map_get_set_other String.eqb String.eqb_eq) by exact E. reflexivity.
Qed.

Lemma fold_addKeyword_NoDup : forall keywordResults m,
  NoDup (keys m) -> NoDup (keys (fold_left addKeyword keywordResults m)).
Proof.
  induction keywordResults as [| k kw IH]; intros m H; cbn [fold_left]; [exact H |].
  apply IH. rewrite addKeyword_set. apply (keys_set_NoDup String.eqb String.eqb_eq). exact H.
Qed.

Lemma map_values_In : forall (m : list (string * SearchResult)) r,
  NoDup (keys m) ->
  (In r (map_values m) <-> exists i, map_get String.eqb i m = Some r).
Proof.
  intros m r Hnd. unfold map_values. split.
  - intro H. apply in_map_iff in H. destruct H as ([i r'] & E & Hin). cbn in E. subst r'.
    exists i. apply (In_map_get String.eqb String.eqb_eq); assumption.
  - intros [i H]. apply (map_get_In String.eqb String.eqb_eq) in H.
    change r with (snd (i, r)). apply in_map. exact H.
Qed.

Lemma keyword_entry_both : forall s k,
  keyword_entry (Some (weighted 0.7 s)) k = combined_both s k.
Proof.
  intros s k. unfold keyword_entry, combined_both.
  change (opt_num_or (r_finalScore (weighted 0.7 s)) (r_score (weighted 0.7 s)))
    with (num_or (r_score s * 0.7) (r_score s)).
  rewrite NumFacts.mul_seven_tenths_or. reflexivity.
Qed.

Lemma combine_get : forall semanticResults keywordResults i,
  NoDup (ids semanticResults) -> NoDup (ids keywordResults) ->
  map_get String.eqb i (combine semanticResults keywordResults) =
  match find_by_id i keywordResults with
  | Some k => Some (keyword_entry (option_map (weighted 0.7) (find_by_id i semanticResults)) k)
  | None => option_map (weighted 0.7) (find_by_id i semanticResults)
  end.
Proof.
  intros sem kw i Hs Hk. unfold combine.
  rewrite fold_addKeyword_get by exact Hk.
  rewrite fold_addSemantic by (auto; intros s _ []).
  cbn [app]. rewrite semantic_map_get by exact Hs. reflexivity.
Qed.

Lemma combine_NoDup : forall semanticResults keywordResults,
  NoDup (ids semanticResults) -> NoDup (keys (combine semanticResults keywordResults)).
Proof.
  intros sem kw Hs. unfold combine. apply fold_addKeyword_NoDup.
  rewrite fold_addSemantic by (auto; intros s _ []).
  cbn [app]. unfold keys. rewrite map_map. cbn [fst]. exact Hs.
Qed.

(** The results of the hybrid merge, by where their id occurs. *)
Lemma hybridMerge_In : forall semanticResults keywordResults r,
  NoDup (ids semanticResults) -> NoDup (ids keywordResults) ->
  (In r (hybridMerge semanticResults keywordResults) <->
   (exists s, In s semanticResults /\ ~ In (r_id s) (ids keywordResults) /\
              r = weighted 0.7 s) \/
   (exists k, In k keywordResults /\ ~ In (r_id k) (ids semanticResults) /\
              r = weighted 0.3 k) \/
   (exists s k, In s semanticResults /\ In k keywordResults /\ r_id s = r_id k /\
                r = combined_both s k)).
Proof.
  intros sem kw r Hs Hk. unfold hybridMerge, sort_by_comparator.
  rewrite js_sort_In, (map_values_In _ _ (combine_NoDup sem kw Hs)).
  split.
  - intros [i Hget]. rewrite combine_get in Hget by assumption.
    destruct (find_by_id i kw) as [k |] eqn:Ek;
      destruct (find_by_id i sem) as [s |] eqn:Es; cbn [option_map] in Hget;
      try discriminate.
    + rewrite keyword_entry_both in Hget. inversion Hget as [E].
      right. right. apply find_by_id_Some in Ek, Es.
      destruct Ek as [Hk1 Hk2]. destruct Es as [Hs1 Hs2].
      exists s, k. repeat split; congruence.
    + inversion Hget as [E].
      right. left. apply find_by_id_None in Es. apply find_by_id_Some in Ek.
      destruct Ek as [Hk1 Hk2]. exists k. subst i. repeat split; assumption.
    + inversion Hget as [E].
      left. apply find_by_id_None in Ek. apply find_by_id_Some in Es.
      destruct Es as [Hs1 Hs2]. exists s. subst i. repeat split; assumption.
  - intros [(s & Hin & Hnot & E) | [(k & Hin & Hnot & E) | (s & k & Hins & Hink & Hid & E)]].
    + exists (r_id s). rewrite combine_get by assumption.
      apply find_by_id_None in Hnot. rewrite Hnot, (find_by_id_In sem s Hs Hin).
      subst r. reflexivity.
    + exists (r_id k). rewrite combine_get by assumption.
      apply find_by_id_None in Hnot. rewrite (find_by_id_In kw k Hk Hin), Hnot.
      subst r. reflexivity.
    + exists (r_id k). rewrite combine_get by assumption.
      rewrite (find_by_id_In kw k Hk Hink). rewrite <- Hid.
      rewrite (find_by_id_In sem s Hs Hins). cbn [option_map].
      rewrite keyword_entry_both. subst r. reflexivity.
Qed.

Lemma mul_seven_tenths_nan : forall x, is_nan x = false -> is_nan (x * 0.7) = false.
Proof.
  intros x H. destruct (falsy (x * 0.7)) eqn:E.
  - pose proof (NumFacts.mul_seven_tenths_or x) as Hor. unfold num_or in Hor.
    rewrite E in Hor. rewrite <- Hor. exact H.
  - apply falsy_not_nan. exact E.
Qed.

Lemma sortKey_weighted_semantic : forall s, sortKey (weighted 0.7 s) = finalOf (weighted 0.7 s).
Proof. intro s. apply NumFacts.mul_seven_tenths_or. Qed.

(** Without a shared id, a NaN semantic score or a weighted lexical score that
    is 0 or NaN, the key of the comparator is the final score of every result. *)
Lemma hybridMerge_descending : forall semanticResults keywordResults,
  NoDup (ids semanticResults) -> NoDup (ids keywordResults) ->
  (forall s, In s semanticResults -> ~ In (r_id s) (ids keywordResults)) ->
  Forall (fun s => is_nan (r_score s) = false) semanticResults ->
  Forall (fun k => falsy (r_score k * 0.3) = false) keywordResults ->
  descending finalOf (hybridMerge semanticResults keywordResults).
Proof.
  intros sem kw Hs Hk Hdisjoint Hsem Hkw.
  rewrite Forall_forall in Hsem, Hkw.
  assert (Hkey : forall r, In r (hybridMerge sem kw) ->
                           sortKey r = finalOf r /\ is_nan (finalOf r) = false).
  { intros r Hr. apply hybridMerge_In in Hr; try assumption.
    destruct Hr as [(s & Hin & _ & E) | [(k & Hin & _ & E) | (s & k & Hins & Hink & Hid & _)]].
    - subst r. split; [apply sortKey_weighted_semantic |].
      apply mul_seven_tenths_nan. apply Hsem. exact Hin.
    - subst r. specialize (Hkw _ Hin). split.
      + apply sortKey_truthy. exact Hkw.
      + apply falsy_not_nan. exact Hkw.
    - exfalso. apply (Hdisjoint s Hins). rewrite Hid. apply in_map. exact Hink. }
  assert (Hnan : Forall (fun r => is_nan (sortKey r) = false)
                        (map_values (combine sem kw))).
  { apply Forall_forall. intros r Hr.
    assert (Hr' : In r (hybridMerge sem kw))
      by (unfold hybridMerge, sort_by_comparator; apply js_sort_In; exact Hr).
    destruct (Hkey r Hr') as [E1 E2]. rewrite E1. exact E2. }
  pose proof (sort_by_key_descending sortKey (map_values (combine sem kw)) Hnan) as Hd.
  fold (hybridMerge sem kw) in Hd.
  apply neighbours_descending_all. unfold neighbours_descending in *.
  apply Sorted_impl_in with (R := fun a b => (sortKey b <=? sortKey a) = true);
    [| exact Hd].
  intros a b Ha Hb Hab.
  destruct (Hkey a Ha) as [Ea _]. destruct (Hkey b Hb) as [Eb _].
  rewrite <- Ea, <- Eb. exact Hab.
Qed.

(** Document A matches only semantically with similarity 0.9, document B only
    lexically with score 1: the index returns A, the vault holds B. *)
Example hybrid_search_of_the_demo :
  option_map (map (fun r => (r_id r, r_score r, r_finalScore r)))
    (match outcome (hybridSearch demoEnv (demoOptions "invoice" Hybrid)) with
     | Ok results => Some results
     | Err _ => None
     end) =
  Some [("semantic_0", 0.9, Some 0.63); ("keyword_B.md", 1, Some 0.3)].
Proof. vm_compute. reflexivity. Qed.

(* ------------------------------------------------------------------------- *)
(** ** Ids of the two strategies *)

Lemma string_of_index_inj : forall n m, string_of_index n = string_of_index m -> n = m.
Proof.
  assert (H : forall n, option_map Nat.of_uint (NilZero.uint_of_string (string_of_index n))
                        = Some n).
  { intro n. unfold string_of_index.
    destruct (NilZero.usu_gen (Nat.to_uint n)) as [E | E]; rewrite E; cbn [option_map].
    - rewrite DecimalNat.Unsigned.of_to. reflexivity.
    - destruct (Nat.to_uint n) eqn:En;
        try (rewrite NilZero.usu in E by discriminate; inversion E; subst;
             rewrite <- En, DecimalNat.Unsigned.of_to; reflexivity).
      assert (Hn : Nat.of_uint (Nat.to_uint n) = n) by apply DecimalNat.Unsigned.of_to.
      rewrite En in Hn. cbn in Hn. subst n. reflexivity. }
  intros n m E. pose proof (H n) as Hn. rewrite E, H in Hn. congruence.
Qed.

Lemma semantic_id_inj : forall n m,
  String.append "semantic_" (string_of_index n) = String.append "semantic_" (string_of_index m) ->
  n = m.
Proof. intros n m H. cbn in H. inversion H. apply string_of_index_inj. assumption. Qed.

Lemma semantic_keyword_ids : forall n path,
  String.append "semantic_" (string_of_index n) <> String.append "keyword_" path.
Proof. intros n path H. cbn in H. discriminate H. Qed.

Lemma rbind_Ok : forall {A B : Type} (r : result A) (f : A -> result B) b,
  rbind r f = Ok b -> exists a, r = Ok a /\ f a = Ok b.
Proof. intros A B [a | e] f b H; cbn in H; [eauto | discriminate]. Qed.

(** The ids of the semantic strategy: the positions in the answer. *)
Lemma semantic_mapR_ids : forall env options neighbors i results,
  mapR (fun ri => semanticResult env options (fst ri) (snd ri))
       (mapi_from i (fun r j => (r, j)) neighbors) = Ok results ->
  ids results = map (fun j => String.append "semantic_" (string_of_index j))
                    (seq i (length neighbors)).
Proof.
  intros env options neighbors. induction neighbors as [| n ns IH]; intros i results H.
  - cbn in H. inversion H. reflexivity.
  - cbn [mapi_from mapR fst snd] in H.
    apply rbind_Ok in H. destruct H as (r & Hr & H).
    apply rbind_Ok in H. destruct H as (rs & Hrs & H). inversion H; subst results.
    cbn [ids map length seq]. f_equal.
    + unfold semanticResult in Hr. apply rbind_Ok in Hr. destruct Hr as (h & _ & Hr).
      inversion Hr. reflexivity.
    + apply IH. exact Hrs.
Qed.

Lemma semanticSearch_ids : forall env options results,
  outcome (semanticSearch env options) = Ok results ->
  ids results = map (fun j => String.append "semantic_" (string_of_index j))
                    (seq 0 (length results)).
Proof.
  intros env options results H. unfold semanticSearch in H.
  destruct (embeddings env) as [embedQuery |]; [| discriminate H].
  unfold bind, call, lift, outcome in H.
  destruct (embedQuery (o_query options)) as [queryEmbedding | e]; [| discriminate H].
  destruct (searchSimilar env queryEmbedding (o_maxResults options * 2)) as [t [neighbors | e]];
    [| discriminate H].
  cbn [snd] in H.
  pose proof (semantic_mapR_ids _ _ _ _ _ H) as Hids.
  assert (Hlen : length results = length neighbors).
  { rewrite <- (length_map r_id results). fold (ids results). rewrite Hids.
    rewrite length_map, length_seq. reflexivity. }
  rewrite Hlen. exact Hids.
Qed.

Lemma semanticOrEmpty_ids : forall env options,
  ids (semanticOrEmpty env options) =
  map (fun j => String.append "semantic_" (string_of_index j))
      (seq 0 (length (semanticOrEmpty env options))).
Proof.
  intros env options. unfold semanticOrEmpty.
  destruct (outcome (semanticSearch env options)) as [results | e] eqn:E.
  - apply (semanticSearch_ids env options). exact E.
  - reflexivity.
Qed.

Lemma semanticOrEmpty_NoDup : forall env options, NoDup (ids (semanticOrEmpty env options)).
Proof.
  intros env options. rewrite semanticOrEmpty_ids.
  apply Finite.Injective_map_NoDup.
  - intros n m. apply semantic_id_inj.
  - apply seq_NoDup.
Qed.

Lemma semanticOrEmpty_nth : forall env options i r,
  nth_error (semanticOrEmpty env options) i = Some r ->
  r_id r = String.append "semantic_" (string_of_index i).
Proof.
  intros env options i r H.
  assert (Hi : (i < length (semanticOrEmpty env options))%nat)
    by (apply nth_error_Some; congruence).
  pose proof (map_nth_error r_id _ _ H) as Hid. fold (ids (semanticOrEmpty env options)) in Hid.
  rewrite semanticOrEmpty_ids in Hid.
  assert (Hseq : nth_error (seq 0 (length (semanticOrEmpty env options))) i = Some i).
  { rewrite nth_error_nth' with (d := 0%nat) by (rewrite length_seq; exact Hi).
    rewrite seq_nth by exact Hi. reflexivity. }
  rewrite (map_nth_error (fun j => String.append "semantic_" (string_of_index j)) _ _ Hseq)
    in Hid.
  inversion Hid. reflexivity.
Qed.

(** Outcomes of composed computations. *)
Lemma outcome_bind : forall {A B : Type} (m : M A) (f : A -> M B),
  outcome (bind m f) =
  match outcome m with
  | Ok a => outcome (f a)
  | Err e => Err e
  end.
Proof.
  intros A B [t [a | e]] f; unfold bind, outcome; cbn; [| reflexivity].
  destruct (f a); reflexivity.
Qed.

Lemma outcome_try_catch : forall {A : Type} (m : M A) (h : string -> M A),
  outcome (try_catch m h) =
  match outcome m with
  | Ok a => Ok a
  | Err e => outcome (h e)
  end.
Proof.
  intros A [t [a | e]] h; unfold try_catch, outcome; cbn; [reflexivity |].
  destruct (h e); reflexivity.
Qed.

Lemma outcome_foldM_cons : forall {A B : Type} (f : B -> A -> M B) x l acc,
  outcome (foldM f (x :: l) acc) =
  match outcome (f acc x) with
  | Ok acc' => outcome (foldM f l acc')
  | Err e => Err e
  end.
Proof. intros. cbn [foldM]. apply outcome_bind. Qed.

(** The loop over the files adds, file by file, what [keywordFile] says. *)
Lemma keywordSearch_loop : forall env options queryWords files results,
  outcome
    (foldM (fun results file =>
              try_catch
                (content <- call (EvReadFile (f_path file)) (vault_read env file) ;;
                 found <- lift (keywordResult env options queryWords file content) ;;
                 ret (match found with
                      | Some r => results ++ [r]
                      | None => results
                      end))
                (fun _ => ret results))
           files results) =
  Ok (results ++ flat_map (keywordFile env options queryWords) files).
Proof.
  intros env options queryWords files. induction files as [| file files IH]; intro results.
  - cbn. rewrite app_nil_r. reflexivity.
  - rewrite outcome_foldM_cons, outcome_try_catch, outcome_bind.
    cbn [flat_map]. unfold keywordFile at 1.
    change (outcome (call (EvReadFile (f_path file)) (vault_read env file)))
      with (vault_read env file).
    destruct (vault_read env file) as [content | e]; cbv beta iota.
    + rewrite outcome_bind.
      change (outcome (lift (keywordResult env options queryWords file content)))
        with (keywordResult env options queryWords file content).
      destruct (keywordResult env options queryWords file content) as [[r |] | e'];
        cbv beta iota; unfold outcome in *; cbn [snd ret];
        rewrite IH, <- ?app_assoc; reflexivity.
    + unfold outcome in *. cbn [snd ret]. rewrite IH. reflexivity.
Qed.

Lemma keywordSearch_outcome : forall env options files,
  getMarkdownFiles env = Ok files ->
  outcome (keywordSearch env options) =
  Ok (sort_by_comparator byScore
        (flat_map (keywordFile env options (split_ws env (toLowerCase env (o_query options))))
                  files)).
Proof.
  intros env options files Hfiles. unfold keywordSearch.
  rewrite outcome_bind.
  change (outcome (call EvListFiles (getMarkdownFiles env))) with (getMarkdownFiles env).
  rewrite Hfiles. rewrite outcome_bind, keywordSearch_loop. reflexivity.
Qed.

(** A lexical result carries its file, and its id is made of the file's path. *)
Lemma keywordFile_spec : forall env options queryWords file r,
  In r (keywordFile env options queryWords file) ->
  r_file r = Some file /\
  r_id r = String.append "keyword_" (f_path file) /\
  m_path (r_metadata r) = Some (f_path file) /\
  r_finalScore r = None.
Proof.
  intros env options queryWords file r H. unfold keywordFile in H.
  destruct (vault_read env file) as [content | e]; [| contradiction].
  destruct (keywordResult env options queryWords file content) as [[r' |] | e] eqn:E;
    try contradiction.
  destruct H as [H | []]. subst r'.
  unfold keywordResult in E. apply rbind_Ok in E. destruct E as ([score highlights] & _ & E).
  destruct (0 <? score)%nat; [| discriminate].
  apply rbind_Ok in E. destruct E as (created & _ & E).
  apply rbind_Ok in E. destruct E as (modified & _ & E).
  inversion E. repeat split.
Qed.

Lemma keywordFiles_ids : forall env options queryWords files i,
  In i (ids (flat_map (keywordFile env options queryWords) files)) ->
  exists file, In file files /\ i = String.append "keyword_" (f_path file).
Proof.
  intros env options queryWords files i H. unfold ids in H.
  apply in_map_iff in H. destruct H as (r & Hid & Hin).
  apply in_flat_map in Hin. destruct Hin as (file & Hfile & Hr).
  apply keywordFile_spec in Hr. destruct Hr as (_ & Hr & _).
  exists file. split; [exact Hfile | congruence].
Qed.

Lemma keywordFiles_NoDup : forall env options queryWords files,
  NoDup (map f_path files) ->
  NoDup (ids (flat_map (keywordFile env options queryWords) files)).
Proof.
  intros env options queryWords files. induction files as [| file files IH]; intro Hnd.
  - constructor.
  - inversion Hnd as [| ? ? Hnotin Hnd']; subst. cbn [flat_map]. unfold ids.
    rewrite map_app. apply NoDup_app.
    + unfold keywordFile. destruct (vault_read env file) as [content | e]; [| constructor].
      destruct (keywordResult env options queryWords file content) as [[r |] | e];
        repeat constructor; intros [].
    + apply IH. exact Hnd'.
    + intros i Hi Hi'.
      apply keywordFiles_ids in Hi'. destruct Hi' as (file' & Hfile' & Ei').
      apply in_map_iff in Hi. destruct Hi as (r & Hid & Hr).
      apply keywordFile_spec in Hr. destruct Hr as (_ & Hr & _).
      rewrite <- Hid, Hr in Ei'. cbn in Ei'. inversion Ei' as [Epath].
      apply Hnotin. rewrite Epath. apply in_map. exact Hfile'.
Qed.

(** What the lexical strategy returns: results of files of the vault. *)
Lemma keywordSearch_ids : forall env options files keywordResults,
  getMarkdownFiles env = Ok files ->
  outcome (keywordSearch env options) = Ok keywordResults ->
  forall r, In r keywordResults ->
    exists file, In file files /\ r_file r = Some file /\
                 r_id r = String.append "keyword_" (f_path file) /\
                 r_finalScore r = None.
Proof.
  intros env options files kw Hfiles H r Hr.
  rewrite (keywordSearch_outcome env options files Hfiles) in H. inversion H as [Hkw].
  rewrite <- Hkw in Hr. unfold sort_by_comparator in Hr. apply js_sort_In in Hr.
  apply in_flat_map in Hr. destruct Hr as (file & Hfile & Hr).
  apply keywordFile_spec in Hr. destruct Hr as (H1 & H2 & _ & H4).
  exists file. repeat split; assumption.
Qed.

(** In a vault whose paths are distinct no lexical id occurs twice. *)
Lemma keywordSearch_NoDup : forall env options files keywordResults,
  getMarkdownFiles env = Ok files ->
  NoDup (map f_path files) ->
  outcome (keywordSearch env options) = Ok keywordResults ->
  NoDup (ids keywordResults).
Proof.
  intros env options files kw Hfiles Hnd H.
  rewrite (keywordSearch_outcome env options files Hfiles) in H. inversion H as [Hkw].
  set (found := flat_map (keywordFile env options
                            (split_ws env (toLowerCase env (o_query options)))) files).
  apply (Permutation_NoDup (l := ids found)).
  - unfold ids. apply Permutation_map. apply Permutation_sym. apply js_sort_perm.
  - apply keywordFiles_NoDup. exact Hnd.
Qed.

Lemma semanticOrEmpty_In : forall env options s,
  In s (semanticOrEmpty env options) ->
  exists i, r_id s = String.append "semantic_" (string_of_index i).
Proof.
  intros env options s H. apply In_nth_error in H. destruct H as [i H].
  exists i. apply (semanticOrEmpty_nth env options). exact H.
Qed.

(** No id of the semantic strategy is an id of the lexical strategy. *)
Lemma strategies_ids_disjoint : forall env options files keywordResults,
  getMarkdownFiles env = Ok files ->
  outcome (keywordSearch env options) = Ok keywordResults ->
  forall s k, In s (semanticOrEmpty env options) -> In k keywordResults -> r_id s <> r_id k.
Proof.
  intros env options files kw Hfiles Hkw s k Hs Hk E.
  apply semanticOrEmpty_In in Hs. destruct Hs as [i Hs].
  destruct (keywordSearch_ids env options files kw Hfiles Hkw k Hk) as (file & _ & _ & Hid & _).
  rewrite Hs, Hid in E. exact (semantic_keyword_ids _ _ E).
Qed.

(** C10. The ids of the semantic strategy are [semantic_] followed by the
    position of the neighbour in the answer of this call, the ids of the
    lexical strategy are [keyword_] followed by the path of the file, and no
    id is in both result sets.  In a vault whose files have distinct paths,
    therefore: each time a lexical result is added, the lookup of its id in
    the map finds nothing, so the combining branch is not taken; every result
    of the hybrid search is a semantic result with [finalScore = score * 0.7]
    or a lexical result with [finalScore = score * 0.3].  A semantic id does
    not name a document: between two states of the index the same text goes
    from [semantic_0] to [semantic_1]. *)
Theorem id_spaces : forall env options files keywordResults,
  getMarkdownFiles env = Ok files ->
  outcome (keywordSearch env options) = Ok keywordResults ->
  let semanticResults := semanticOrEmpty env options in
  (forall i s, nth_error semanticResults i = Some s ->
               r_id s = String.append "semantic_" (string_of_index i)) /\
  (forall k, In k keywordResults ->
             exists file, In file files /\ r_file k = Some file /\
                          r_id k = String.append "keyword_" (f_path file)) /\
  (forall s k, In s semanticResults -> In k keywordResults -> r_id s <> r_id k) /\
  outcome (hybridSearch env options) = Ok (hybridMerge semanticResults keywordResults) /\
  (NoDup (map f_path files) ->
   (forall before k later,
      keywordResults = before ++ k :: later ->
      map_get String.eqb (r_id k)
        (fold_left addKeyword before (fold_left addSemantic semanticResults [])) = None) /\
   (forall r, In r (hybridMerge semanticResults keywordResults) ->
      (exists s, In s semanticResults /\ r = weighted 0.7 s /\
                 r_finalScore r = Some (r_score r * 0.7)) \/
      (exists k, In k keywordResults /\ r = weighted 0.3 k /\
                 r_finalScore r = Some (r_score r * 0.3)))) /\
  (exists a b,
     In a (semanticOrEmpty indexBefore (demoOptions "invoice" Hybrid)) /\
     In b (semanticOrEmpty indexAfter (demoOptions "invoice" Hybrid)) /\
     r_content a = r_content b /\ r_id a = "semantic_0" /\ r_id b = "semantic_1").
Proof.
  intros env options files kw Hfiles Hkw sem.
  pose proof (keywordSearch_ids env options files kw Hfiles Hkw) as Hkwid.
  pose proof (semanticOrEmpty_NoDup env options) as Hsemnd. fold sem in Hsemnd.
  assert (Hdisjoint : forall s k, In s sem -> In k kw -> r_id s <> r_id k)
    by (apply (strategies_ids_disjoint env options files kw); assumption).
  split; [apply semanticOrEmpty_nth |].
  split.
  { intros k Hk. destruct (Hkwid k Hk) as (file & H1 & H2 & H3 & _).
    exists file. repeat split; assumption. }
  split; [exact Hdisjoint |].
  split.
  { rewrite hybridSearch_outcome, Hkw. reflexivity. }
  split.
  { intro Hnd.
    pose proof (keywordSearch_NoDup env options files kw Hfiles Hnd Hkw) as Hkwnd.
    split.
    - intros before k later E.
      assert (Hbefore : NoDup (ids before) /\ ~ In (r_id k) (ids before)).
      { rewrite E in Hkwnd. unfold ids in Hkwnd. rewrite map_app in Hkwnd.
        cbn [map] in Hkwnd. split.
        - apply NoDup_app_remove_r in Hkwnd. exact Hkwnd.
        - apply NoDup_remove_2 in Hkwnd. intro H. apply Hkwnd.
          apply in_or_app. left. exact H. }
      destruct Hbefore as [Hb1 Hb2].
      rewrite fold_addKeyword_get by exact Hb1.
      apply find_by_id_None in Hb2. rewrite Hb2.
      rewrite fold_addSemantic by (auto; intros s _ []). cbn [app].
      rewrite semantic_map_get by exact Hsemnd.
      assert (Hnot : ~ In (r_id k) (ids sem)).
      { intro H. unfold ids in H. apply in_map_iff in H. destruct H as (s & Es & Hs).
        apply (Hdisjoint s k Hs); [| exact Es].
        rewrite E. apply in_or_app. right. left. reflexivity. }
      apply find_by_id_None in Hnot. rewrite Hnot. reflexivity.
    - intros r Hr. apply hybridMerge_In in Hr; try assumption.
      destruct Hr as [(s & Hs & _ & E) | [(k & Hk & _ & E) | (s & k & Hs & Hk & Hid & _)]].
      + left. exists s. subst r. repeat split. exact Hs.
      + right. exists k. subst r. repeat split. exact Hk.
      + exfalso. exact (Hdisjoint s k Hs Hk Hid). }
  exists (nth 0 (semanticOrEmpty indexBefore (demoOptions "invoice" Hybrid)) documentA).
  exists (nth 1 (semanticOrEmpty indexAfter (demoOptions "invoice" Hybrid)) documentA).
  vm_compute. auto 6.
Qed.

(** In the demo vault the index returns [semantic_0] and the lexical search
    [keyword_B.md]; the two ids differ, the hybrid search is the merge of the
    two lists, and each of its results carries one of the two weights. *)
Lemma id_spaces_witness :
  exists keywordResults,
    outcome (keywordSearch demoEnv (demoOptions "invoice" Hybrid)) = Ok keywordResults /\
    ids keywordResults = ["keyword_B.md"] /\
    ids (semanticOrEmpty demoEnv (demoOptions "invoice" Hybrid)) = ["semantic_0"] /\
    (forall s k, In s (semanticOrEmpty demoEnv (demoOptions "invoice" Hybrid)) ->
                 In k keywordResults -> r_id s <> r_id k) /\
    outcome (hybridSearch demoEnv (demoOptions "invoice" Hybrid)) =
      Ok (hybridMerge (semanticOrEmpty demoEnv (demoOptions "invoice" Hybrid)) keywordResults) /\
    (forall r,
       In r (hybridMerge (semanticOrEmpty demoEnv (demoOptions "invoice" Hybrid))
                         keywordResults) ->
       r_finalScore r = Some (r_score r * 0.7) \/ r_finalScore r = Some (r_score r * 0.3)).
Proof.
  destruct (outcome (keywordSearch demoEnv (demoOptions "invoice" Hybrid)))
    as [keywordResults | e] eqn:Hkw; [| vm_compute in Hkw; discriminate].
  exists keywordResults.
  assert (Hfiles : getMarkdownFiles demoEnv = Ok demoFiles) by reflexivity.
  assert (Hnd : NoDup (map f_path demoFiles)).
  { repeat constructor; cbn; intuition discriminate. }
  destruct (id_spaces demoEnv (demoOptions "invoice" Hybrid) demoFiles keywordResults
              Hfiles Hkw) as (_ & _ & Hdisjoint & Hhybrid & Hdistinct & _).
  destruct (Hdistinct Hnd) as [_ Hweights].
  split; [reflexivity |]. split; [| split; [| split; [| split]]].
  - vm_compute in Hkw. inversion Hkw. reflexivity.
  - vm_compute. reflexivity.
  - exact Hdisjoint.
  - exact Hhybrid.
  - intros r Hr.
    destruct (Hweights r Hr) as [(s & _ & _ & E) | (k & _ & _ & E)]; [left | right]; exact E.
Defined.

(* ------------------------------------------------------------------------- *)
(** ** Order of the hybrid search *)

Lemma num_or_zero_nan : forall x, is_nan (num_or x 0) = false.
Proof.
  intro x. unfold num_or. destruct (falsy x) eqn:E; [reflexivity |].
  apply falsy_not_nan. exact E.
Qed.

(** [searchSimilar] replaces a NaN score by 0. *)
Lemma searchSimilar_scores : forall env queryEmbedding limit neighbors,
  outcome (searchSimilar env queryEmbedding limit) = Ok neighbors ->
  Forall (fun neighbor => is_nan (snd neighbor) = false) neighbors.
Proof.
  intros env queryEmbedding limit neighbors H. unfold searchSimilar in H.
  destruct (qdrantClient env) as [search |]; [| inversion H; constructor].
  rewrite outcome_try_catch, outcome_bind in H.
  change (outcome (call (EvVectorSearch limit) (search queryEmbedding limit)))
    with (search queryEmbedding limit) in H.
  destruct (search queryEmbedding limit) as [points | e]; inversion H; [| constructor].
  apply Forall_forall. intros neighbor Hin. apply in_map_iff in Hin.
  destruct Hin as (point & E & _). subst neighbor. cbn [snd].
  destruct (p_score point) as [score |]; [apply num_or_zero_nan | reflexivity].
Qed.

Lemma semantic_mapR_scores : forall env options neighbors i results,
  Forall (fun neighbor => is_nan (snd neighbor) = false) neighbors ->
  mapR (fun ri => semanticResult env options (fst ri) (snd ri))
       (mapi_from i (fun r j => (r, j)) neighbors) = Ok results ->
  Forall (fun s => is_nan (r_score s) = false) results.
Proof.
  intros env options neighbors. induction neighbors as [| n ns IH]; intros i results Hn H.
  - cbn in H. inversion H. constructor.
  - inversion Hn as [| ? ? Hn1 Hn2]; subst.
    cbn [mapi_from mapR fst snd] in H.
    apply rbind_Ok in H. destruct H as (r & Hr & H).
    apply rbind_Ok in H. destruct H as (rs & Hrs & H). inversion H; subst results.
    constructor; [| apply (IH (S i)); assumption].
    unfold semanticResult in Hr. apply rbind_Ok in Hr. destruct Hr as (h & _ & Hr).
    inversion Hr. cbn [r_score]. exact Hn1.
Qed.

Lemma semanticOrEmpty_scores : forall env options,
  Forall (fun s => is_nan (r_score s) = false) (semanticOrEmpty env options).
Proof.
  intros env options. unfold semanticOrEmpty.
  destruct (outcome (semanticSearch env options)) as [results | e] eqn:H; [| constructor].
  unfold semanticSearch in H.
  destruct (embeddings env) as [embedQuery |]; [| discriminate H].
  rewrite outcome_bind in H.
  change (outcome (call (EvEmbedQuery (o_query options)) (embedQuery (o_query options))))
    with (embedQuery (o_query options)) in H.
  destruct (embedQuery (o_query options)) as [queryEmbedding | e]; [| discriminate H].
  rewrite outcome_bind in H.
  destruct (outcome (searchSimilar env queryEmbedding (o_maxResults options * 2)))
    as [neighbors | e] eqn:Hn; [| discriminate H].
  apply searchSimilar_scores in Hn.
  apply (semantic_mapR_scores env options neighbors 0 results Hn). exact H.
Qed.

(** The hybrid search of a vault with distinct paths returns its results in
    descending order of [finalScore], as long as no weighted lexical score is
    rounded to zero or is NaN. *)
Lemma hybridSearch_descending : forall env options files keywordResults,
  getMarkdownFiles env = Ok files ->
  NoDup (map f_path files) ->
  outcome (keywordSearch env options) = Ok keywordResults ->
  Forall (fun k => falsy (r_score k * 0.3) = false) keywordResults ->
  outcome (hybridSearch env options) =
    Ok (hybridMerge (semanticOrEmpty env options) keywordResults) /\
  descending finalOf (hybridMerge (semanticOrEmpty env options) keywordResults).
Proof.
  intros env options files kw Hfiles Hnd Hkw Hscores.
  pose proof (strategies_ids_disjoint env options files kw Hfiles Hkw) as Hdisjoint.
  pose proof (keywordSearch_NoDup env options files kw Hfiles Hnd Hkw) as Hkwnd.
  split.
  - rewrite hybridSearch_outcome, Hkw. reflexivity.
  - apply hybridMerge_descending.
    + apply semanticOrEmpty_NoDup.
    + exact Hkwnd.
    + intros s Hs Hin. unfold ids in Hin. apply in_map_iff in Hin.
      destruct Hin as (k & E & Hk). apply (Hdisjoint s k Hs Hk). congruence.
    + apply semanticOrEmpty_scores.
    + exact Hscores.
Qed.

(** The match count of a file is at most [bound] for each query word. *)
Lemma scoreWords_loop_bound : forall env content contentLower bound queryWords acc score highlights,
  matchesBelow env bound ->
  foldR (fun (acc : nat * list string) word =>
           let (score, highlights) := acc in
           rbind (re_count env contentLower word) (fun matches =>
           if (0 <? matches)%nat
           then rbind (findWordContext env content word) (fun contexts =>
                Ok ((score + matches)%nat, highlights ++ contexts))
           else Ok ((score + matches)%nat, highlights)))
        queryWords acc = Ok (score, highlights) ->
  (score <= fst acc + length queryWords * bound)%nat.
Proof.
  intros env content contentLower bound queryWords.
  induction queryWords as [| word queryWords IH]; intros [score0 highlights0] score highlights Hb H.
  - cbn in H. inversion H. cbn. lia.
  - cbn [foldR] in H. apply rbind_Ok in H. destruct H as ([score1 highlights1] & H1 & H).
    apply IH in H; [| exact Hb].
    apply rbind_Ok in H1. destruct H1 as (matches & Hm & H1).
    apply Hb in Hm.
    assert (E : score1 = (score0 + matches)%nat).
    { destruct (0 <? matches)%nat.
      - apply rbind_Ok in H1. destruct H1 as (contexts & _ & H1). inversion H1. reflexivity.
      - inversion H1. reflexivity. }
    cbn [fst length] in *. lia.
Qed.

(** The score of a lexical result: the match count of its file, which is not
    zero, over the number of query words. *)
Lemma keywordFile_score : forall env options queryWords file r bound,
  matchesBelow env bound ->
  In r (keywordFile env options queryWords file) ->
  exists score,
    (0 < score <= length queryWords * bound)%nat /\
    r_score r = num_of_nat score / num_of_nat (length queryWords).
Proof.
  intros env options queryWords file r bound Hb H. unfold keywordFile in H.
  destruct (vault_read env file) as [content | e]; [| contradiction].
  destruct (keywordResult env options queryWords file content) as [[r' |] | e] eqn:E;
    try contradiction.
  destruct H as [H | []]. subst r'.
  unfold keywordResult in E. apply rbind_Ok in E. destruct E as ([score highlights] & Hs & E).
  unfold scoreWords in Hs. apply scoreWords_loop_bound with (bound := bound) in Hs; [| exact Hb].
  cbn [fst] in Hs.
  destruct (0 <? score)%nat eqn:Hpos; [| discriminate].
  apply Nat.ltb_lt in Hpos.
  apply rbind_Ok in E. destruct E as (created & _ & E).
  apply rbind_Ok in E. destruct E as (modified & _ & E).
  inversion E. exists score. split; [lia | reflexivity].
Qed.

(** As long as the counts stay below [2^63], no weighted lexical score is
    rounded to zero, and none is NaN. *)
Lemma keywordSearch_weighted : forall env options files keywordResults bound,
  getMarkdownFiles env = Ok files ->
  matchesBelow env bound ->
  (Z.of_nat (length (split_ws env (toLowerCase env (o_query options))) * bound) < 2 ^ 63)%Z ->
  outcome (keywordSearch env options) = Ok keywordResults ->
  Forall (fun k => falsy (r_score k * 0.3) = false) keywordResults.
Proof.
  intros env options files kw bound Hfiles Hb Hsmall H.
  rewrite (keywordSearch_outcome env options files Hfiles) in H. inversion H as [Hkw].
  apply Forall_forall. intros r Hr.
  unfold sort_by_comparator in Hr. apply js_sort_In in Hr.
  apply in_flat_map in Hr. destruct Hr as (file & _ & Hr).
  apply (keywordFile_score env options _ file r bound Hb) in Hr.
  destruct Hr as (score & Hscore & E). rewrite E.
  set (words := length (split_ws env (toLowerCase env (o_query options)))) in *.
  assert (Hwords : (0 < words)%nat) by (destruct words; [cbn in Hscore |]; lia).
  assert (Hbound : (0 < bound)%nat)
    by (destruct bound; [rewrite Nat.mul_0_r in Hscore |]; lia).
  assert (Hle : (words <= words * bound)%nat) by nia.
  apply NumFacts.ratio_weighted_truthy; lia.
Qed.

(** The hybrid search of a vault with distinct paths returns its results in
    descending order of [finalScore], the counts being below [2^63]. *)
Lemma hybridSearch_descending_finalScore : forall env options files keywordResults bound,
  getMarkdownFiles env = Ok files ->
  NoDup (map f_path files) ->
  matchesBelow env bound ->
  (Z.of_nat (length (split_ws env (toLowerCase env (o_query options))) * bound) < 2 ^ 63)%Z ->
  outcome (keywordSearch env options) = Ok keywordResults ->
  outcome (hybridSearch env options) =
    Ok (hybridMerge (semanticOrEmpty env options) keywordResults) /\
  descending finalOf (hybridMerge (semanticOrEmpty env options) keywordResults).
Proof.
  intros env options files kw bound Hfiles Hnd Hb Hsmall Hkw.
  apply (hybridSearch_descending env options files kw Hfiles Hnd Hkw).
  apply (keywordSearch_weighted env options files kw bound Hfiles Hb Hsmall Hkw).
Qed.

(** The demonstration vault: a pattern is found at most once in a text. *)
Lemma demoEnv_matchesBelow : matchesBelow demoEnv 1.
Proof.
  intros content word matches H. cbn in H.
  destruct (String.eqb content word); inversion H; lia.
Qed.

Example demo_hybrid_search_descending :
  descending finalOf
    (hybridMerge (semanticOrEmpty demoEnv (demoOptions "invoice" Hybrid))
                 (flat_map (keywordFile demoEnv (demoOptions "invoice" Hybrid) ["invoice"])
                           demoFiles)).
Proof.
  apply (hybridSearch_descending_finalScore demoEnv (demoOptions "invoice" Hybrid) demoFiles _ 1).
  - reflexivity.
  - repeat constructor; cbn; intuition discriminate.
  - exact demoEnv_matchesBelow.
  - cbn. lia.
  - reflexivity.
Qed.



(* ------------------------------------------------------------------------- *)
(** ** More on the order of binary64 values *)

Module OrderFacts.

Import Num NumFacts.

(** The negated comparator: [-(y - x) > 0] exactly when [y < x]. *)
Lemma opp_sub_pos_ltb : forall x y, (0 <? - (y - x)) = (y <? x).
Proof.
  intros x y. rewrite !ltb_spec, opp_spec, sub_spec.
  change (Prim2SF 0) with (S754_zero false).
  pose proof (SFsub_sign _ _ (Prim2SF_valid y) (Prim2SF_valid x)) as H.
  unfold SFltb at 2.
  destruct (SFcompare (Prim2SF y) (Prim2SF x)) as [[| |] |];
    destruct (SF64sub (Prim2SF y) (Prim2SF x)) as [s | s | | s m e]; cbn in H;
    try contradiction; try discriminate; subst; reflexivity.
Qed.

Lemma ltb_leb : forall x y, (x <? y) = true -> (x <=? y) = true.
Proof.
  intros x y. rewrite ltb_spec, leb_spec. unfold SFltb, SFleb.
  destruct (SFcompare (Prim2SF x) (Prim2SF y)) as [[| |] |]; congruence.
Qed.

Lemma ltb_not_leb : forall x y, (x <? y) = true -> (y <=? x) = false.
Proof.
  intros x y. rewrite ltb_spec, leb_spec. unfold SFltb, SFleb.
  rewrite (SFcompare_antisym (Prim2SF x) (Prim2SF y)).
  destruct (SFcompare (Prim2SF x) (Prim2SF y)) as [[| |] |]; cbn; congruence.
Qed.

Lemma ltb_not_nan : forall x y, (x <? y) = true -> is_nan x = false /\ is_nan y = false.
Proof.
  intros x y. rewrite ltb_spec. unfold SFltb. intro H.
  split; apply not_nan_spec; intro E; rewrite E in H.
  - cbn in H. discriminate.
  - destruct (Prim2SF x) as [[] | [] | | [] ? ?]; cbn in H; discriminate.
Qed.

(** Once a key was beaten by a greater one, nothing the smaller key did not
    lose to can beat the greater one. *)
Lemma ltb_keeps_ahead : forall x y z,
  (x <? y) = true -> (x <? z) = false -> (y <? z) = false.
Proof.
  intros x y z Hxy Hxz.
  destruct (y <? z) eqn:Hyz; [| reflexivity].
  destruct (ltb_not_nan _ _ Hxy) as [Nx _]. destruct (ltb_not_nan _ _ Hyz) as [_ Nz].
  pose proof (not_ltb_leb x z Nx Nz Hxz) as Hzx.
  pose proof (leb_trans _ _ _ Hzx (ltb_leb _ _ Hxy)) as Hzy.
  rewrite (ltb_not_leb _ _ Hyz) in Hzy. discriminate.
Qed.

End OrderFacts.

(** The sort depends on the comparator through its sign only. *)
Lemma js_sort_ext : forall {A : Type} (after after' : A -> A -> bool) (l : list A),
  (forall a b, after a b = after' a b) -> js_sort after l = js_sort after' l.
Proof.
  intros A after after' l H. induction l as [| x l IH]; [reflexivity |].
  change (js_sort after (x :: l)) with (sort_insert after x (js_sort after l)).
  change (js_sort after' (x :: l)) with (sort_insert after' x (js_sort after' l)).
  rewrite IH. clear IH. induction (js_sort after' l) as [| y s IHs]; [reflexivity |].
  cbn. rewrite H, IHs. reflexivity.
Qed.

(** Sorting by the negated comparator orders the keys ascending when none is
    NaN. *)
Lemma sort_by_key_ascending : forall {A : Type} (key : A -> num) (l : list A),
  Forall (fun a => is_nan (key a) = false) l ->
  ascending key (sort_by_comparator (fun a b => - (key b - key a)) l).
Proof.
  intros A key l Hnan. unfold ascending, sort_by_comparator.
  set (after := fun a b : A => is_positive (- (key b - key a))).
  assert (Hafter : forall a b, after a b = (key b <? key a))
    by (intros; apply OrderFacts.opp_sub_pos_ltb).
  apply Sorted_StronglySorted.
  { intros a b c Hab Hbc. apply (NumFacts.leb_trans _ (key b)); assumption. }
  apply Sorted_impl_in with (R := in_order after).
  - intros a b Ha Hb Hab. unfold in_order in Hab. rewrite Hafter in Hab.
    rewrite Forall_forall in Hnan.
    apply NumFacts.not_ltb_leb; try assumption; apply Hnan;
      apply (js_sort_In after); assumption.
  - apply js_sort_sorted. intros a b. rewrite !Hafter. apply NumFacts.ltb_asym.
Qed.

Lemma sortComparator_field : forall env options a b,
  o_sortBy options <> ByTitle ->
  sortComparator env options a b =
  match o_sortOrder options with
  | Desc => sortField env options b - sortField env options a
  | Asc => - (sortField env options b - sortField env options a)
  end.
Proof.
  intros env options a b H. unfold sortComparator, comparison_of, sortField, byRelevance.
  destruct (o_sortBy options); try congruence; reflexivity.
Qed.

(** X1. [sortResults] returns a rearrangement of its input: nothing is
    dropped, added or changed.  For [sortBy] ['relevance'], ['date'] or
    ['size'], when the number compared ([finalScore || score], the time of
    [metadata.modified || 0], [metadata.wordCount || 0]) is NaN for no
    result, the output has these numbers in descending order for
    [sortOrder = 'desc'] and in ascending order for ['asc']. *)
Theorem sortResults_order : forall env options results,
  Permutation (sortResults env results options) results /\
  (o_sortBy options <> ByTitle ->
   Forall (fun r => is_nan (sortField env options r) = false) results ->
   match o_sortOrder options with
   | Desc => descending (sortField env options) (sortResults env results options)
   | Asc => ascending (sortField env options) (sortResults env results options)
   end).
Proof.
  intros env options results. split.
  - unfold sortResults, sort_by_comparator. apply js_sort_perm.
  - intros Hby Hnan. unfold sortResults, sort_by_comparator.
    destruct (o_sortOrder options) eqn:Hord.
    + rewrite (js_sort_ext _ (fun a b => is_positive
                 (- (sortField env options b - sortField env options a)))).
      * apply (sort_by_key_ascending (sortField env options)). exact Hnan.
      * intros a b. rewrite sortComparator_field, Hord by exact Hby. reflexivity.
    + rewrite (js_sort_ext _ (fun a b => is_positive
                 (sortField env options b - sortField env options a))).
      * apply neighbours_descending_all.
        apply (sort_by_key_descending (sortField env options)). exact Hnan.
      * intros a b. rewrite sortComparator_field, Hord by exact Hby. reflexivity.
Qed.

(** Three results sorted by relevance, best first. *)
Lemma sortResults_order_witness :
  descending (sortField demoEnv (relevanceOptions Desc))
    (sortResults demoEnv [bare "1" "x" 2; bare "2" "y" 1; bare "3" "z" 3]
       (relevanceOptions Desc)) /\
  ascending (sortField demoEnv (relevanceOptions Asc))
    (sortResults demoEnv [bare "1" "x" 2; bare "2" "y" 1; bare "3" "z" 3]
       (relevanceOptions Asc)).
Proof.
  split.
  - apply (proj2 (sortResults_order demoEnv (relevanceOptions Desc)
                    [bare "1" "x" 2; bare "2" "y" 1; bare "3" "z" 3])).
    + discriminate.
    + repeat constructor.
  - apply (proj2 (sortResults_order demoEnv (relevanceOptions Asc)
                    [bare "1" "x" 2; bare "2" "y" 1; bare "3" "z" 3])).
    + discriminate.
    + repeat constructor.
Defined.


(* ------------------------------------------------------------------------- *)
(** ** How the reranker degrades *)

Lemma mapR_Err : forall {A B : Type} (f : A -> result B) (l : list A),
  Exists (fun x => exists e, f x = Err e) l -> exists e, mapR f l = Err e.
Proof.
  intros A B f l H. induction H as [x l [e Hx] | x l _ [e IH]].
  - exists e. cbn. rewrite Hx. reflexivity.
  - cbn. destruct (f x) as [b | e']; cbn; [| eauto].
    rewrite IH. cbn. eauto.
Qed.

Lemma rerankResults_ready : forall env query results options rerank,
  voyage_isEnabled env = true -> voyage_provider env = Some rerank -> results <> [] ->
  outcome (rerankResults env query results options) =
  match rerank query (map r_content results) (topK_of options) with
  | Ok data =>
      match mapR (rerankedResult results) (filter (survives options) data) with
      | Ok rerankedResults => Ok (sort_by_comparator byRelevance rerankedResults)
      | Err _ => Ok results
      end
  | Err _ => Ok results
  end.
Proof.
  intros env query results options rerank Hen Hprov Hne.
  unfold rerankResults, rerankOnly, voyage_isReady. rewrite Hen, Hprov. cbn [andb negb orb].
  destruct results as [| r results]; [congruence |]. cbn [length Nat.eqb].
  rewrite outcome_try_catch, outcome_bind, outcome_bind. unfold topK_of.
  change (outcome (call ?ev ?a)) with a.
  destruct (rerank query (map r_content (r :: results))
              (if (o_maxResults options =? 0)%Z then 10%Z else o_maxResults options))
    as [data | e]; [| reflexivity].
  cbn [outcome ret snd]. rewrite outcome_bind.
  change (outcome (lift ?a)) with a. unfold survives.
  destruct (mapR (rerankedResult (r :: results))
              (filter (fun item => o_rerankThreshold options <=? ri_relevance_score item) data));
    reflexivity.
Qed.

Lemma rerankResults_total : forall env query results options,
  exists out, outcome (rerankResults env query results options) = Ok out.
Proof.
  intros env query results options. unfold rerankResults.
  destruct (negb (voyage_isReady env) || (length results =? 0)%nat).
  - exists results. reflexivity.
  - rewrite outcome_try_catch.
    destruct (outcome _) as [out | e]; [exists out | exists results]; reflexivity.
Qed.

(** X2. [rerankResults] never rejects.  It hands back the list it was given,
    without calling the provider, when the rerank integration is not ready or
    the list is empty; and it hands back the list it was given when the
    provider's request fails, or when the provider's answer has a pair at or
    above the threshold whose index is outside the list. *)
Theorem rerank_degrades : forall env query results options,
  (exists out, outcome (rerankResults env query results options) = Ok out) /\
  (voyage_isReady env = false \/ results = [] ->
     rerankResults env query results options = ret results) /\
  (forall rerank,
     voyage_isEnabled env = true -> voyage_provider env = Some rerank -> results <> [] ->
     (forall e,
        rerank query (map r_content results) (topK_of options) = Err e ->
        outcome (rerankResults env query results options) = Ok results) /\
     (forall data,
        rerank query (map r_content results) (topK_of options) = Ok data ->
        Exists (fun item => survives options item = true /\
                            (length results <= ri_index item)%nat) data ->
        outcome (rerankResults env query results options) = Ok results)).
Proof.
  intros env query results options. split; [| split].
  - apply rerankResults_total.
  - intros [H | H]; unfold rerankResults.
    + rewrite H. reflexivity.
    + subst results. rewrite orb_true_r. reflexivity.
  - intros rerank Hen Hprov Hne. split.
    + intros e He. rewrite (rerankResults_ready _ _ _ _ rerank), He by assumption.
      reflexivity.
    + intros data Hdata Hstray.
      rewrite (rerankResults_ready _ _ _ _ rerank), Hdata by assumption.
      destruct (mapR_Err (rerankedResult results) (filter (survives options) data))
        as [e He]; [| rewrite He; reflexivity].
      apply Exists_exists in Hstray. destruct Hstray as (item & Hin & Hsurv & Hidx).
      apply Exists_exists. exists item. split.
      * apply filter_In. split; assumption.
      * exists "TypeError". unfold rerankedResult.
        apply nth_error_None in Hidx. rewrite Hidx. reflexivity.
Qed.

(** A provider that answers 500, and one that names the eighth of two
    documents: the two results come back as they were. *)
Lemma rerank_degrades_witness :
  outcome (rerankResults failingRerankEnv "invoice" twoResults lowThresholdOptions) =
    Ok twoResults /\
  outcome (rerankResults strayRerankEnv "invoice" twoResults lowThresholdOptions) =
    Ok twoResults /\
  rerankResults demoEnv "invoice" twoResults lowThresholdOptions = ret twoResults.
Proof.
  split; [| split].
  - destruct (rerank_degrades failingRerankEnv "invoice" twoResults lowThresholdOptions)
      as (_ & _ & H).
    destruct (H (fun _ _ _ => Err "Voyage AI rerank failed: 500") eq_refl eq_refl
                ltac:(discriminate)) as [Hfail _].
    exact (Hfail "Voyage AI rerank failed: 500" eq_refl).
  - destruct (rerank_degrades strayRerankEnv "invoice" twoResults lowThresholdOptions)
      as (_ & _ & H).
    destruct (H (fun _ _ _ => Ok [ {| ri_index := 0; ri_relevance_score := 0.9 |};
                                   {| ri_index := 7; ri_relevance_score := 0.8 |} ])
                eq_refl eq_refl ltac:(discriminate)) as [_ Hstray].
    apply (Hstray _ eq_refl).
    apply Exists_cons_tl. apply Exists_cons_hd. split; [reflexivity | cbn; lia].
  - apply (proj1 (proj2 (rerank_degrades demoEnv "invoice" twoResults lowThresholdOptions))).
    left. reflexivity.
Defined.


(* ------------------------------------------------------------------------- *)
(** ** The AI relevance analysis *)

Lemma promise_all_caught : forall {A B : Type} (f : A -> M B) (g : A -> B) (l : list A),
  (forall x, outcome (f x) = Ok (g x)) ->
  outcome (promise_all f l) = Ok (map g l).
Proof.
  intros A B f g l H. induction l as [| x l IH]; [reflexivity |].
  cbn [promise_all map]. specialize (H x). unfold outcome in *.
  destruct (f x) as [t1 r1]. destruct (promise_all f l) as [t2 r2].
  cbn [snd] in *. subst r1 r2. reflexivity.
Qed.

Lemma analysis_callback : forall env query r,
  outcome
    (try_catch
       (analysis <- call (EvGenerateText (relevancePrompt query r))
                         (generateText env (relevancePrompt query r)) ;;
        let aiScore := num_or (parseFloat env (trim env analysis)) (r_score r) in
        ret (with_finalScore r (r_score r * 0.5 + aiScore * 0.5)))
       (fun _ => ret r)) = Ok (analyzed env query r).
Proof.
  intros env query r. rewrite outcome_try_catch, outcome_bind. unfold analyzed.
  change (outcome (call ?ev ?a)) with a.
  destruct (generateText env (relevancePrompt query r)); reflexivity.
Qed.

(** X3. [analyzeResultsWithAI] never rejects.  Without a ready generator, or
    for an empty list, it returns the list it was given and asks nothing.
    Otherwise it returns one result for each result given, sorted by the
    relevance comparator: the result itself when its [generateText] call
    throws, and else the result with
    [finalScore = score * 0.5 + aiScore * 0.5], where [aiScore] is the
    number parsed from the answer, or the result's own score when that number
    is NaN or zero. *)
Theorem analysis_blend : forall env query results,
  (vercel_isReady env = false \/ results = [] ->
     analyzeResultsWithAI env query results = ret results) /\
  (vercel_isReady env = true -> results <> [] ->
     outcome (analyzeResultsWithAI env query results) =
       Ok (sort_by_comparator byRelevance (map (analyzed env query) results))) /\
  (forall r,
     (forall e, generateText env (relevancePrompt query r) = Err e ->
                analyzed env query r = r) /\
     (forall analysis,
        generateText env (relevancePrompt query r) = Ok analysis ->
        (falsy (parseFloat env (trim env analysis)) = false ->
           analyzed env query r =
             with_finalScore r
               (r_score r * 0.5 + parseFloat env (trim env analysis) * 0.5)) /\
        (falsy (parseFloat env (trim env analysis)) = true ->
           analyzed env query r =
             with_finalScore r (r_score r * 0.5 + r_score r * 0.5)))).
Proof.
  intros env query results. split; [| split].
  - intros [H | H]; unfold analyzeResultsWithAI.
    + rewrite H. reflexivity.
    + subst results. rewrite orb_true_r. reflexivity.
  - intros Hready Hne. unfold analyzeResultsWithAI. rewrite Hready.
    destruct results as [| r results]; [congruence |]. cbn [negb orb length Nat.eqb].
    rewrite outcome_try_catch, outcome_bind.
    rewrite (promise_all_caught _ (analyzed env query)) by (intro; apply analysis_callback).
    reflexivity.
  - intro r. split.
    + intros e He. unfold analyzed. rewrite He. reflexivity.
    + intros analysis Ha. unfold analyzed, num_or. rewrite Ha.
      split; intro Hf; rewrite Hf; reflexivity.
Qed.

(** The generator rates everything 0.9, or 0, or cannot be reached. *)
Lemma analysis_blend_witness :
  outcome (analyzeResultsWithAI (ratingEnv (Ok "0.9")) "invoice" twoResults) =
    Ok (sort_by_comparator byRelevance
          (map (analyzed (ratingEnv (Ok "0.9")) "invoice") twoResults)) /\
  analyzed (ratingEnv (Ok "0.9")) "invoice" (bare "a" "Document A" 0.5) =
    with_finalScore (bare "a" "Document A" 0.5) (0.5 * 0.5 + 0.9 * 0.5) /\
  analyzed (ratingEnv (Ok "0")) "invoice" (bare "a" "Document A" 0.5) =
    with_finalScore (bare "a" "Document A" 0.5) (0.5 * 0.5 + 0.5 * 0.5) /\
  analyzed (ratingEnv (Err "timeout")) "invoice" (bare "a" "Document A" 0.5) =
    bare "a" "Document A" 0.5.
Proof.
  split; [| split; [| split]].
  - apply (proj1 (proj2 (analysis_blend (ratingEnv (Ok "0.9")) "invoice" twoResults)));
      [reflexivity | discriminate].
  - apply (proj2 (proj2 (analysis_blend (ratingEnv (Ok "0.9")) "invoice" twoResults))
             (bare "a" "Document A" 0.5)) with (analysis := "0.9"); reflexivity.
  - apply (proj2 (proj2 (analysis_blend (ratingEnv (Ok "0")) "invoice" twoResults))
             (bare "a" "Document A" 0.5)) with (analysis := "0"); reflexivity.
  - apply (proj2 (proj2 (analysis_blend (ratingEnv (Err "timeout")) "invoice" twoResults))
             (bare "a" "Document A" 0.5)) with (e := "timeout"); reflexivity.
Defined.

Example analysis_of_two_results :
  match outcome (analyzeResultsWithAI (ratingEnv (Ok "0.9")) "invoice" twoResults) with
  | Ok out => map (fun r => (r_id r, r_finalScore r)) out
  | Err _ => []
  end = [("b", Some (0.8 * 0.5 + 0.9 * 0.5)); ("a", Some (0.5 * 0.5 + 0.9 * 0.5))].
Proof. vm_compute. reflexivity. Qed.


(* ------------------------------------------------------------------------- *)
(** ** Deduplication *)

Lemma ltb_irrefl : forall x : num, (x <? x) = false.
Proof.
  intro x. destruct (x <? x) eqn:E; [| reflexivity].
  rewrite (NumFacts.ltb_asym _ _ E) in E. discriminate.
Qed.

Lemma includes_In : forall l s, includes l s = true <-> In s l.
Proof.
  intros l s. unfold includes. rewrite existsb_exists. split.
  - intros (x & Hin & E). apply String.eqb_eq in E. subst. exact Hin.
  - intro H. exists s. split; [exact H | apply String.eqb_refl].
Qed.

Lemma includes_keys : forall (m : list (string * SearchResult)) k,
  includes (keys m) k = match map_get String.eqb k m with Some _ => true | None => false end.
Proof.
  intros m k. destruct (map_get String.eqb k m) as [v |] eqn:E.
  - apply includes_In. apply (map_get_In String.eqb String.eqb_eq) in E.
    unfold keys. apply in_map_iff. exists (k, v). split; [reflexivity | exact E].
  - apply (map_get_None String.eqb String.eqb_eq) in E.
    destruct (includes (keys m) k) eqn:I; [| reflexivity].
    apply includes_In in I. contradiction.
Qed.

Lemma keyed_set : forall m r, keyed m -> keyed (map_set String.eqb (dedupKey r) r m).
Proof.
  intros m r. induction m as [| [k' v'] m IH]; intros Hm k v Hin; cbn in Hin.
  - destruct Hin as [E | []]. inversion E; subst. reflexivity.
  - destruct (String.eqb (dedupKey r) k') eqn:E.
    + destruct Hin as [Hin | Hin].
      * inversion Hin; subst. apply String.eqb_eq in E. exact E.
      * apply Hm. right. exact Hin.
    + destruct Hin as [Hin | Hin].
      * apply Hm. left. exact Hin.
      * apply IH; [| exact Hin]. intros k0 v0 H0. apply Hm. right. exact H0.
Qed.

Lemma dedupStep_keyed : forall m r, keyed m -> keyed (dedupStep m r).
Proof.
  intros m r Hm. unfold dedupStep.
  destruct (map_get String.eqb (dedupKey r) m) as [e |].
  - destruct (sortKey e <? sortKey r); [apply keyed_set |]; exact Hm.
  - apply keyed_set. exact Hm.
Qed.

Lemma dedupStep_NoDup : forall m r, NoDup (keys m) -> NoDup (keys (dedupStep m r)).
Proof.
  intros m r Hm. unfold dedupStep.
  destruct (map_get String.eqb (dedupKey r) m) as [e |].
  - destruct (sortKey e <? sortKey r);
      [apply (keys_set_NoDup String.eqb String.eqb_eq) |]; exact Hm.
  - apply (keys_set_NoDup String.eqb String.eqb_eq). exact Hm.
Qed.

Lemma dedupStep_keys : forall m r,
  keys (dedupStep m r) =
  if includes (keys m) (dedupKey r) then keys m else keys m ++ [dedupKey r].
Proof.
  intros m r. rewrite includes_keys. unfold dedupStep.
  destruct (map_get String.eqb (dedupKey r) m) as [e |] eqn:E.
  - destruct (sortKey e <? sortKey r); [| reflexivity].
    apply (keys_set_present String.eqb) with (v0 := e). exact E.
  - rewrite (keys_set_absent String.eqb) by exact E.
    unfold keys. rewrite map_app. reflexivity.
Qed.

Lemma dedup_keys : forall results m,
  keys (fold_left dedupStep results m) = keys m ++ distinct (keys m) (map dedupKey results).
Proof.
  induction results as [| r results IH]; intro m; cbn [fold_left map distinct].
  - rewrite app_nil_r. reflexivity.
  - rewrite IH, dedupStep_keys.
    destruct (includes (keys m) (dedupKey r)); [reflexivity |].
    rewrite <- app_assoc. reflexivity.
Qed.

Lemma dedup_invariants : forall results m,
  keyed m -> NoDup (keys m) ->
  keyed (fold_left dedupStep results m) /\ NoDup (keys (fold_left dedupStep results m)).
Proof.
  induction results as [| r results IH]; intros m Hk Hn; cbn [fold_left]; [auto |].
  apply IH; [apply dedupStep_keyed | apply dedupStep_NoDup]; assumption.
Qed.

Lemma dedup_from : forall results m v,
  In v (map_values (fold_left dedupStep results m)) -> In v (map_values m) \/ In v results.
Proof.
  induction results as [| r results IH]; intros m v H; cbn [fold_left] in H; [auto |].
  apply IH in H. destruct H as [H | H]; [| right; right; exact H].
  assert (Hset : In v (map_values (map_set String.eqb (dedupKey r) r m)) ->
                 In v (map_values m) \/ v = r).
  { clear. unfold map_values. induction m as [| [k' v'] m IHm]; cbn.
    - intros [E | []]. auto.
    - destruct (String.eqb (dedupKey r) k'); cbn.
      + intros [E | Hin]; auto.
      + intros [E | Hin]; auto. destruct (IHm Hin); auto. }
  unfold dedupStep in H.
  destruct (map_get String.eqb (dedupKey r) m) as [e |].
  - destruct (sortKey e <? sortKey r); [| left; exact H].
    destruct (Hset H) as [H' | H']; [left; exact H' | right; left; congruence].
  - destruct (Hset H) as [H' | H']; [left; exact H' | right; left; congruence].
Qed.

(** What is kept under a key is only ever replaced by a result with a greater
    sort key. *)
Lemma dedup_grows : forall results m k v,
  map_get String.eqb k m = Some v ->
  exists v', map_get String.eqb k (fold_left dedupStep results m) = Some v' /\
             (v' = v \/ (sortKey v <? sortKey v') = true).
Proof.
  induction results as [| r results IH]; intros m k v H; cbn [fold_left].
  - exists v. auto.
  - assert (Hstep : exists v1, map_get String.eqb k (dedupStep m r) = Some v1 /\
                               (v1 = v \/ (sortKey v <? sortKey v1) = true)).
    { unfold dedupStep. destruct (String.eqb (dedupKey r) k) eqn:E.
      - apply String.eqb_eq in E. subst k. rewrite H.
        destruct (sortKey v <? sortKey r) eqn:L.
        + exists r. split; [apply (map_get_set_same String.eqb String.eqb_eq) | auto].
        + exists v. auto.
      - assert (Hne : dedupKey r <> k)
          by (intro E'; apply String.eqb_eq in E'; congruence).
        exists v. split; [| auto].
        destruct (map_get String.eqb (dedupKey r) m) as [e |].
        + destruct (sortKey e <? sortKey r); [| exact H].
          rewrite (map_get_set_other String.eqb String.eqb_eq) by exact Hne. exact H.
        + rewrite (map_get_set_other String.eqb String.eqb_eq) by exact Hne. exact H. }
    destruct Hstep as (v1 & H1 & Hv1).
    destruct (IH _ _ _ H1) as (v' & H' & Hv'). exists v'. split; [exact H' |].
    destruct Hv1 as [-> | L1]; [exact Hv' |].
    destruct Hv' as [-> | L2]; [right; exact L1 |].
    right. destruct (sortKey v <? sortKey v') eqn:L; [reflexivity |].
    rewrite (OrderFacts.ltb_keeps_ahead _ _ _ L1 L) in L2. discriminate.
Qed.

Lemma dedup_best : forall results m r,
  In r results ->
  exists kept, map_get String.eqb (dedupKey r) (fold_left dedupStep results m) = Some kept /\
               (sortKey kept <? sortKey r) = false.
Proof.
  induction results as [| x results IH]; intros m r Hin; [contradiction |].
  cbn [fold_left]. destruct Hin as [-> | Hin]; [| apply IH; exact Hin].
  assert (Hstep : exists v1, map_get String.eqb (dedupKey r) (dedupStep m r) = Some v1 /\
                             (sortKey v1 <? sortKey r) = false).
  { unfold dedupStep. destruct (map_get String.eqb (dedupKey r) m) as [e |] eqn:E.
    - destruct (sortKey e <? sortKey r) eqn:L.
      + exists r. split; [apply (map_get_set_same String.eqb String.eqb_eq) |].
        apply ltb_irrefl.
      + exists e. auto.
    - exists r. split; [apply (map_get_set_same String.eqb String.eqb_eq) |].
      apply ltb_irrefl. }
  destruct Hstep as (v1 & H1 & L1).
  destruct (dedup_grows results _ _ _ H1) as (v' & H' & Hv'). exists v'.
  split; [exact H' |]. destruct Hv' as [-> | L2]; [exact L1 |].
  apply (OrderFacts.ltb_keeps_ahead _ _ _ L2 L1).
Qed.

(** X4. [deduplicateResults] keeps one result for each key
    ([file.path || title]), in the order in which the keys first occur in its
    input.  Every result it returns is one of the input, and no result of the
    input has a greater [finalScore || score] than the result kept for its
    key. *)
Theorem deduplicate_keeps_best : forall results,
  map dedupKey (deduplicateResults results) = firstOccurrences (map dedupKey results) /\
  NoDup (map dedupKey (deduplicateResults results)) /\
  (forall r, In r (deduplicateResults results) -> In r results) /\
  (forall r, In r results ->
     exists kept, In kept (deduplicateResults results) /\
                  dedupKey kept = dedupKey r /\
                  (sortKey kept <? sortKey r) = false).
Proof.
  intro results.
  change (deduplicateResults results) with (map_values (fold_left dedupStep results [])).
  destruct (dedup_invariants results []) as [Hkeyed Hnodup];
    [intros k v [] | constructor |].
  assert (Hkeys : map dedupKey (map_values (fold_left dedupStep results [])) =
                  keys (fold_left dedupStep results [])).
  { unfold map_values, keys. rewrite map_map. apply map_ext_in.
    intros [k v] Hin. apply Hkeyed. exact Hin. }
  split; [| split; [| split]].
  - rewrite Hkeys, dedup_keys. reflexivity.
  - rewrite Hkeys. exact Hnodup.
  - intros r Hr. apply dedup_from in Hr. destruct Hr as [[] | Hr]. exact Hr.
  - intros r Hr. destruct (dedup_best results [] r Hr) as (kept & Hget & Hbest).
    exists kept. apply (map_get_In String.eqb String.eqb_eq) in Hget.
    split; [| split; [| exact Hbest]].
    + unfold map_values. apply in_map_iff. exists (dedupKey r, kept). auto.
    + apply Hkeyed in Hget. exact Hget.
Qed.

Example deduplicate_of_repeated_titles :
  map r_id (deduplicateResults repeatedResults) = ["3"; "2"].
Proof. vm_compute. reflexivity. Qed.


(* ------------------------------------------------------------------------- *)
(** ** What makes a search fail *)

Lemma analyzeResultsWithAI_total : forall env query results,
  exists out, outcome (analyzeResultsWithAI env query results) = Ok out.
Proof.
  intros env query results. unfold analyzeResultsWithAI.
  destruct (negb (vercel_isReady env) || (length results =? 0)%nat).
  - exists results. reflexivity.
  - rewrite outcome_try_catch.
    destruct (outcome _) as [out | e]; [exists out | exists results]; reflexivity.
Qed.

(** After the strategy nothing can fail: the reranker hands back its input
    when it cannot rerank, and filters, sort and truncation are plain
    computations. *)
Lemma postProcess_outcome : forall env options results,
  exists candidates,
    outcome (postProcess env options results) =
    Ok (slice0 (o_maxResults options)
          (sortResults env (applyFilters env candidates options) options)).
Proof.
  intros env options results. unfold postProcess. rewrite outcome_bind.
  destruct (o_useRerank options && voyage_isReady env).
  - destruct (rerankResults_total env (o_query options) results options) as [out Hout].
    rewrite Hout. exists out. reflexivity.
  - exists results. reflexivity.
Qed.

Lemma pipeline_outcome : forall env options,
  outcome (pipeline env options) =
  match outcome (match o_searchType options with
                 | Semantic => semanticSearch env options
                 | Keyword => keywordSearch env options
                 | Hybrid => hybridSearch env options
                 | AiEnhanced => aiEnhancedSearch env options
                 end) with
  | Ok results => outcome (postProcess env options results)
  | Err e => Err e
  end.
Proof.
  intros env options. unfold pipeline, dispatch. rewrite !outcome_bind. reflexivity.
Qed.

Lemma keywordSearch_listing : forall env options,
  match getMarkdownFiles env with
  | Ok _ => exists results, outcome (keywordSearch env options) = Ok results
  | Err e => outcome (keywordSearch env options) = Err e
  end.
Proof.
  intros env options. destruct (getMarkdownFiles env) as [files | e] eqn:Hfiles.
  - eexists. apply keywordSearch_outcome. exact Hfiles.
  - unfold keywordSearch. rewrite outcome_bind.
    change (outcome (call EvListFiles (getMarkdownFiles env))) with (getMarkdownFiles env).
    rewrite Hfiles. reflexivity.
Qed.

Lemma hybridSearch_listing : forall env options,
  match getMarkdownFiles env with
  | Ok _ => exists results, outcome (hybridSearch env options) = Ok results
  | Err e => outcome (hybridSearch env options) = Err e
  end.
Proof.
  intros env options. pose proof (keywordSearch_listing env options) as H.
  rewrite hybridSearch_outcome.
  destruct (getMarkdownFiles env) as [files | e].
  - destruct H as [kw Hkw]. rewrite Hkw. eexists. reflexivity.
  - rewrite H. reflexivity.
Qed.

Lemma aiEnhancedSearch_listing : forall env options,
  match getMarkdownFiles env with
  | Ok _ => exists results, outcome (aiEnhancedSearch env options) = Ok results
  | Err e => outcome (aiEnhancedSearch env options) = Err e
  end.
Proof.
  intros env options. pose proof (hybridSearch_listing env options) as H.
  unfold aiEnhancedSearch. destruct (negb (vercel_isReady env)); [exact H |].
  rewrite outcome_try_catch.
  destruct (getMarkdownFiles env) as [files | e] eqn:Hfiles.
  - destruct H as [rs Hrs]. rewrite Hrs. clear Hrs.
    destruct (outcome _) as [out | e']; eexists; reflexivity.
  - rewrite outcome_bind.
    change (outcome (call ?ev ?a)) with a.
    destruct (generateQuestions env _ 3) as [expandedQueries | e']; [| exact H].
    rewrite outcome_bind, outcome_foldM_cons, outcome_bind.
    pose proof (hybridSearch_listing env (with_query options (o_query options))) as H'.
    rewrite Hfiles in H'. rewrite H'. exact H.
Qed.

(** X5. A keyword, hybrid or AI-enhanced search that is not answered from the
    cache rejects only when the vault cannot list its files, and then with
    the vault's error and with the engine left as it was: neither a file that
    cannot be read, nor a query word that is no regular expression, nor a
    failure of the embedding provider, the vector index, the reranker or the
    text generator makes the search reject. *)
Theorem search_fails_only_on_listing : forall env clock options st,
  o_searchType options <> Semantic ->
  cacheLookup clock options st = None ->
  match getMarkdownFiles env with
  | Ok _ =>
      exists events results st',
        search env clock options st = ((events, Ok results), st')
  | Err e =>
      exists events, search env clock options st = ((events, Err e), st)
  end.
Proof.
  intros env clock options st Htype Hmiss.
  assert (H : match getMarkdownFiles env with
              | Ok _ => exists results, outcome (pipeline env options) = Ok results
              | Err e => outcome (pipeline env options) = Err e
              end).
  { rewrite pipeline_outcome.
    assert (Hs : match getMarkdownFiles env with
                 | Ok _ =>
                     exists rs,
                       outcome (match o_searchType options with
                                | Semantic => semanticSearch env options
                                | Keyword => keywordSearch env options
                                | Hybrid => hybridSearch env options
                                | AiEnhanced => aiEnhancedSearch env options
                                end) = Ok rs
                 | Err e =>
                     outcome (match o_searchType options with
                              | Semantic => semanticSearch env options
                              | Keyword => keywordSearch env options
                              | Hybrid => hybridSearch env options
                              | AiEnhanced => aiEnhancedSearch env options
                              end) = Err e
                 end).
    { destruct (o_searchType options); [congruence | | |].
      - apply keywordSearch_listing.
      - apply hybridSearch_listing.
      - apply aiEnhancedSearch_listing. }
    destruct (getMarkdownFiles env) as [files | e].
    - destruct Hs as [rs Hrs]. rewrite Hrs.
      destruct (postProcess_outcome env options rs) as [c Hc]. rewrite Hc.
      eexists. reflexivity.
    - rewrite Hs. reflexivity. }
  unfold search. rewrite Hmiss. unfold outcome in H.
  destruct (pipeline env options) as [events [results | e']]; cbn [snd] in H;
    destruct (getMarkdownFiles env) as [files | e].
  - eexists _, _, _. reflexivity.
  - discriminate.
  - destruct H as [rs Hrs]. discriminate.
  - inversion H. subst. eexists. reflexivity.
Qed.

(** With a vault that cannot list its files the hybrid search fails and
    changes nothing; with the demonstration vault it succeeds. *)
Lemma search_fails_only_on_listing_witness :
  (exists events,
     search brokenVaultEnv (demoClock 0) (demoOptions "invoice" Hybrid) newEngine =
     ((events, Err "vault unavailable"), newEngine)) /\
  (exists events results st',
     search noEmbeddingsEnv (demoClock 0) (demoOptions "invoice" Hybrid) newEngine =
     ((events, Ok results), st')).
Proof.
  split.
  - apply (search_fails_only_on_listing brokenVaultEnv (demoClock 0)
             (demoOptions "invoice" Hybrid) newEngine); [discriminate | reflexivity].
  - apply (search_fails_only_on_listing noEmbeddingsEnv (demoClock 0)
             (demoOptions "invoice" Hybrid) newEngine); [discriminate | reflexivity].
Defined.


(* ------------------------------------------------------------------------- *)
(** ** What a search returns *)

Lemma firstn_In : forall {A : Type} (k : nat) (l : list A) (x : A),
  In x (firstn k l) -> In x l.
Proof.
  intros A k l x H. rewrite <- (firstn_skipn k l). apply in_or_app. left. exact H.
Qed.

Lemma slice0_In : forall {A : Type} (n : Z) (l : list A) (x : A),
  In x (slice0 n l) -> In x l.
Proof.
  intros A n l x. unfold slice0. destruct (n <? 0)%Z; apply firstn_In.
Qed.

Lemma slice0_length : forall {A : Type} (n : Z) (l : list A),
  (0 <= n)%Z -> (length (slice0 n l) <= Z.to_nat n)%nat.
Proof.
  intros A n l Hn. unfold slice0.
  destruct (n <? 0)%Z eqn:E; [apply Z.ltb_lt in E; lia |].
  apply firstn_le_length.
Qed.

Lemma Sorted_firstn : forall {A : Type} (R : A -> A -> Prop) (n : nat) (l : list A),
  Sorted R l -> Sorted R (firstn n l).
Proof.
  intros A R n l. revert n. induction l as [| x l IH]; intros n H.
  - rewrite firstn_nil. constructor.
  - destruct n as [| n]; [constructor |]. cbn [firstn].
    inversion H as [| ? ? Hs Hh]; subst. constructor; [apply IH; exact Hs |].
    destruct l as [| y l]; [rewrite firstn_nil; constructor |].
    destruct n as [| n]; [constructor |]. cbn [firstn]. constructor.
    inversion Hh; subst. assumption.
Qed.

Lemma slice0_Sorted : forall {A : Type} (R : A -> A -> Prop) (n : Z) (l : list A),
  Sorted R l -> Sorted R (slice0 n l).
Proof.
  intros A R n l H. unfold slice0. destruct (n <? 0)%Z; apply Sorted_firstn; exact H.
Qed.

(** What the comparators other than the one of titles put first never comes
    directly behind. *)
Lemma sortResults_neighbours : forall env options results,
  o_sortBy options <> ByTitle ->
  Sorted (fun a b =>
            match o_sortOrder options with
            | Desc => (sortField env options a <? sortField env options b) = false
            | Asc => (sortField env options b <? sortField env options a) = false
            end)
         (sortResults env results options).
Proof.
  intros env options results Hby. unfold sortResults, sort_by_comparator.
  set (after := fun a b => is_positive (sortComparator env options a b)).
  assert (Hafter : forall a b,
            after a b = match o_sortOrder options with
                        | Desc => sortField env options a <? sortField env options b
                        | Asc => sortField env options b <? sortField env options a
                        end).
  { intros a b. unfold after, is_positive. rewrite sortComparator_field by exact Hby.
    destruct (o_sortOrder options);
      [apply OrderFacts.opp_sub_pos_ltb | apply NumFacts.sub_pos_ltb]. }
  apply Sorted_impl_in with (R := in_order after).
  - intros a b _ _ H. unfold in_order in H. rewrite Hafter in H.
    destruct (o_sortOrder options); exact H.
  - apply js_sort_sorted. intros a b. rewrite !Hafter.
    destruct (o_sortOrder options); apply NumFacts.ltb_asym.
Qed.

Lemma search_miss_outcome : forall env clock options st events results st',
  cacheLookup clock options st = None ->
  search env clock options st = ((events, Ok results), st') ->
  exists candidates,
    results = slice0 (o_maxResults options)
                (sortResults env (applyFilters env candidates options) options).
Proof.
  intros env clock options st events results st' Hmiss H. unfold search in H.
  rewrite Hmiss in H.
  destruct (pipeline env options) as [t [rs | e]] eqn:Hp; inversion H; subst.
  assert (Ho : outcome (pipeline env options) = Ok results) by (rewrite Hp; reflexivity).
  rewrite pipeline_outcome in Ho.
  destruct (outcome _) as [found | e]; [| discriminate].
  destruct (postProcess_outcome env options found) as [c Hc]. exists c. congruence.
Qed.

(** X6. What a call of [search] that executed a strategy returns: at most
    [maxResults] results (for a [maxResults] that is not negative), each of
    which passes every configured filter; and for [sortBy] other than
    ['title'], when the number compared is NaN for none of them, they are in
    descending order of that number for [sortOrder = 'desc'] and in ascending
    order for ['asc']. *)
Theorem search_result_shape : forall env clock options st events results st',
  cacheLookup clock options st = None ->
  search env clock options st = ((events, Ok results), st') ->
  ((0 <= o_maxResults options)%Z ->
     (length results <= Z.to_nat (o_maxResults options))%nat) /\
  (forall r, In r results ->
     (fileTypeConfigured options = true -> fileTypeTest options r = true) /\
     (forall range, o_dateRange options = Some range -> dateRangeTest env range r = true) /\
     (forall tags, tagsConfigured options = Some tags -> tagsTest tags r = true) /\
     (forall folders, foldersConfigured options = Some folders ->
                      foldersTest folders r = true)) /\
  (o_sortBy options <> ByTitle ->
   Forall (fun r => is_nan (sortField env options r) = false) results ->
   match o_sortOrder options with
   | Desc => descending (sortField env options) results
   | Asc => ascending (sortField env options) results
   end).
Proof.
  intros env clock options st events results st' Hmiss H.
  destruct (search_miss_outcome _ _ _ _ _ _ _ Hmiss H) as [candidates ->].
  split; [| split].
  - apply slice0_length.
  - intros r Hr. apply slice0_In in Hr.
    unfold sortResults, sort_by_comparator in Hr. apply js_sort_In in Hr.
    apply applyFilters_In in Hr. tauto.
  - intros Hby Hnan.
    pose proof (slice0_Sorted _ (o_maxResults options) _
                  (sortResults_neighbours env options
                     (applyFilters env candidates options) Hby)) as Hs.
    rewrite Forall_forall in Hnan.
    destruct (o_sortOrder options).
    + apply Sorted_StronglySorted.
      { intros a b c Hab Hbc. apply (NumFacts.leb_trans _ (sortField env options b));
          assumption. }
      apply Sorted_impl_in with (2 := Hs). intros a b Ha Hb Hab.
      apply NumFacts.not_ltb_leb; auto.
    + apply neighbours_descending_all.
      apply Sorted_impl_in with (2 := Hs). intros a b Ha Hb Hab.
      apply NumFacts.not_ltb_leb; auto.
Qed.

(** A hybrid search of the demonstration vault for at most one result. *)
Lemma search_result_shape_witness :
  exists events results st',
    search demoEnv (demoClock 0) (with_maxResults (demoOptions "invoice" Hybrid) 1) newEngine =
      ((events, Ok results), st') /\
    (length results <= 1)%nat.
Proof.
  eexists _, _, _.
  refine ((fun H => conj H
             (proj1 (search_result_shape demoEnv (demoClock 0)
                       (with_maxResults (demoOptions "invoice" Hybrid) 1) newEngine
                       _ _ _ eq_refl H) _)) _).
  - cbn. lia.
  - vm_compute. reflexivity.
Defined.

(* ------------------------------------------------------------------------- *)
(** ** What the cache key leaves out *)

(** X7. The cache key is made of [query], [searchType], [useRerank],
    [fileTypes], [tags] and [folders] only.  After a call of [search] that
    executed a strategy and returned [results], a call within five minutes
    whose options agree with the first in these six fields is answered with
    the same [results] from the cache, whatever its [maxResults],
    [rerankThreshold], [includeContent], [dateRange], [sortBy] and
    [sortOrder] are. *)
Theorem cache_ignores_other_options :
  forall env1 clock1 options st events results st1 env2 clock2 options',
  cacheLookup clock1 options st = None ->
  search env1 clock1 options st = ((events, Ok results), st1) ->
  o_query options' = o_query options ->
  o_searchType options' = o_searchType options ->
  o_useRerank options' = o_useRerank options ->
  o_fileTypes options' = o_fileTypes options ->
  o_tags options' = o_tags options ->
  o_folders options' = o_folders options ->
  (now_lookup clock2 - now_store clock1 < cacheTimeout)%Z ->
  search env2 clock2 options' st1 = (([], Ok results), st1).
Proof.
  intros env1 clock1 options st events results st1 env2 clock2 options'
         Hmiss H Hq Ht Hr Hf Htags Hfolders Hlive.
  pose proof (search_stores _ _ _ _ _ _ _ Hmiss H) as Hget.
  assert (Hkey : generateCacheKey options' = generateCacheKey options)
    by (unfold generateCacheKey; congruence).
  rewrite <- Hkey in Hget.
  apply (search_cache_hit env2 clock2 options' st1 _ Hget). exact Hlive.
Qed.

(** One result was found for at most ten; a second later the same query for
    at most zero results gets that one result. *)
Lemma cache_ignores_other_options_witness :
  exists events results st1,
    search demoEnv (demoClock 0) (demoOptions "invoice" Keyword) newEngine =
      ((events, Ok results), st1) /\
    length results = 1%nat /\
    search brokenVaultEnv (demoClock 1000)
      (with_maxResults (demoOptions "invoice" Keyword) 0) st1 = (([], Ok results), st1).
Proof.
  eexists _, _, _. split; [vm_compute; reflexivity |]. split; [reflexivity |].
  eapply (cache_ignores_other_options demoEnv (demoClock 0)
            (demoOptions "invoice" Keyword) newEngine);
    try reflexivity.
Defined.


(* ------------------------------------------------------------------------- *)
(** ** What a call that is not answered from the cache executes *)

Lemma reranking_total : forall env options found,
  exists events candidates, reranking env options found = (events, Ok candidates).
Proof.
  intros env options found. unfold reranking.
  destruct (o_useRerank options && voyage_isReady env).
  - destruct (rerankResults_total env (o_query options) found options) as [out Hout].
    destruct (rerankResults env (o_query options) found options) as [events r].
    cbn in Hout. subst r. exists events, out. reflexivity.
  - exists [], found. reflexivity.
Qed.

(** Without a live cache entry for its options, a call of [search] executes
    its strategy. *)
Lemma search_executes : forall env clock options st,
  cacheLookup clock options st = None -> executes env clock options st.
Proof.
  intros env clock options st Hmiss. unfold executes, search. rewrite Hmiss.
  unfold pipeline, dispatch, postProcess.
  fold (strategy env options).
  destruct (strategy env options) as [events [found | e]].
  - destruct (reranking_total env options found) as (events' & candidates & Hr).
    exists events', candidates. split; [exact Hr |].
    unfold reranking in Hr. unfold bind, call. rewrite Hr.
    unfold ret, shaped, stored. cbv beta iota. rewrite app_nil_r. reflexivity.
  - reflexivity.
Qed.

(* ------------------------------------------------------------------------- *)
(** ** The AI-enhanced search without a text generator *)

(** C7, as the engine has it.  When the text generator is not ready, the
    AI-enhanced strategy is the hybrid strategy.  A call of [search] with [searchType = 'ai_enhanced'] and
    a call with [searchType = 'hybrid'] on otherwise the same options, neither
    of them answered from the cache, make the same calls on the collaborators,
    first those of the hybrid strategy, and have the same outcome: the error
    of the hybrid strategy, or what it found, reranked, filtered, sorted and
    truncated. *)
Theorem ai_enhanced_fallback : forall env options,
  vercel_isReady env = false ->
  aiEnhancedSearch env options = hybridSearch env options /\
  forall clock st,
    cacheLookup clock (with_searchType options AiEnhanced) st = None ->
    cacheLookup clock (with_searchType options Hybrid) st = None ->
    exists events result,
      fst (search env clock (with_searchType options AiEnhanced) st) =
        (EvStrategy AiEnhanced :: trace (hybridSearch env options) ++ events, result) /\
      fst (search env clock (with_searchType options Hybrid) st) =
        (EvStrategy Hybrid :: trace (hybridSearch env options) ++ events, result) /\
      match outcome (hybridSearch env options) with
      | Err e => events = [] /\ result = Err e
      | Ok found =>
          exists candidates,
            reranking env options found = (events, Ok candidates) /\
            result = Ok (shaped env options candidates)
      end.
Proof.
  intros env options Hready.
  assert (Hai : aiEnhancedSearch env options = hybridSearch env options)
    by (unfold aiEnhancedSearch; rewrite Hready; reflexivity).
  split; [exact Hai |].
  intros clock st Hmissa Hmissh.
  pose proof (search_executes env clock _ st Hmissa) as Ha.
  pose proof (search_executes env clock _ st Hmissh) as Hh.
  unfold executes in Ha, Hh.
  change (strategy env (with_searchType options AiEnhanced))
    with (aiEnhancedSearch env options) in Ha.
  change (strategy env (with_searchType options Hybrid))
    with (hybridSearch env options) in Hh.
  rewrite Hai in Ha.
  change (o_searchType (with_searchType options AiEnhanced)) with AiEnhanced in Ha.
  change (o_searchType (with_searchType options Hybrid)) with Hybrid in Hh.
  destruct (hybridSearch env options) as [t [found | e]]; cbn [trace outcome fst snd].
  - destruct Ha as (ea & ca & Hra & Ha). destruct Hh as (eh & ch & Hrh & Hh).
    change (reranking env (with_searchType options AiEnhanced) found)
      with (reranking env options found) in Hra.
    change (reranking env (with_searchType options Hybrid) found)
      with (reranking env options found) in Hrh.
    rewrite Hra in Hrh. injection Hrh as <- <-.
    exists ea, (Ok (shaped env options ca)). rewrite Ha, Hh.
    split; [reflexivity |]. split; [reflexivity |].
    exists ca. split; [exact Hra | reflexivity].
  - exists [], (Err e). rewrite Ha, Hh, app_nil_r. repeat split.
Qed.

(** On a new engine, in the demonstration vault, the two calls read the same
    files and return the same two results. *)
Lemma ai_enhanced_fallback_witness :
  trace (fst (search demoEnv (demoClock 0) (demoOptions "invoice" AiEnhanced) newEngine)) =
    [EvStrategy AiEnhanced; EvEmbedQuery "invoice"; EvVectorSearch 20; EvListFiles;
     EvReadFile "B.md"; EvReadFile "C.md"] /\
  outcome (fst (search demoEnv (demoClock 0) (demoOptions "invoice" AiEnhanced) newEngine)) =
  outcome (fst (search demoEnv (demoClock 0) (demoOptions "invoice" Hybrid) newEngine)).
Proof.
  assert (Hready : vercel_isReady demoEnv = false) by reflexivity.
  destruct (ai_enhanced_fallback demoEnv (demoOptions "invoice" Hybrid) Hready) as [_ H].
  destruct (H (demoClock 0) newEngine eq_refl eq_refl) as (events & result & Ha & Hh & Hout).
  change (with_searchType (demoOptions "invoice" Hybrid) AiEnhanced)
    with (demoOptions "invoice" AiEnhanced) in Ha.
  change (with_searchType (demoOptions "invoice" Hybrid) Hybrid)
    with (demoOptions "invoice" Hybrid) in Hh.
  rewrite Ha, Hh. cbn [trace outcome fst snd]. split; [| reflexivity].
  destruct (hybridSearch demoEnv (demoOptions "invoice" Hybrid)) as [t [found | e]] eqn:Hs;
    [| vm_compute in Hs; discriminate].
  cbn [outcome snd] in Hout. destruct Hout as (candidates & Hr & _).
  vm_compute in Hs. injection Hs as <- <-.
  vm_compute in Hr. injection Hr as <- _. reflexivity.
Defined.

(** C7 as stated fails when one of the two calls is answered from the cache.
    The key of the cache holds [searchType] and not [maxResults]: after a
    hybrid search for up to ten results, which returns two, the hybrid search
    for one result is answered from the cache with these two, and the
    AI-enhanced search for one result executes and returns one. *)
Lemma cached_hybrid_differs_from_ai_enhanced :
  vercel_isReady demoEnv = false /\
  option_map (map r_id)
    (match outcome (fst (search demoEnv (demoClock 1000)
                           (with_searchType
                              (with_maxResults (demoOptions "invoice" Hybrid) 1) AiEnhanced)
                           (snd (search demoEnv (demoClock 0) (demoOptions "invoice" Hybrid)
                                   newEngine)))) with
     | Ok results => Some results
     | Err _ => None
     end) = Some ["semantic_0"] /\
  option_map (map r_id)
    (match outcome (fst (search demoEnv (demoClock 1000)
                           (with_searchType
                              (with_maxResults (demoOptions "invoice" Hybrid) 1) Hybrid)
                           (snd (search demoEnv (demoClock 0) (demoOptions "invoice" Hybrid)
                                   newEngine)))) with
     | Ok results => Some results
     | Err _ => None
     end) = Some ["semantic_0"; "keyword_B.md"] /\
  outcome (fst (search demoEnv (demoClock 1000)
                  (with_searchType (with_maxResults (demoOptions "invoice" Hybrid) 1) AiEnhanced)
                  (snd (search demoEnv (demoClock 0) (demoOptions "invoice" Hybrid)
                          newEngine)))) <>
  outcome (fst (search demoEnv (demoClock 1000)
                  (with_searchType (with_maxResults (demoOptions "invoice" Hybrid) 1) Hybrid)
                  (snd (search demoEnv (demoClock 0) (demoOptions "invoice" Hybrid)
                          newEngine)))).
Proof.
  split; [reflexivity |]. split; [vm_compute; reflexivity |].
  split; [vm_compute; reflexivity |].
  intro H.
  apply (f_equal (fun r => match r with Ok results => length results | Err _ => 0%nat end)) in H.
  vm_compute in H. discriminate H.
Qed.

(* ------------------------------------------------------------------------- *)
(** ** The cache within and after its five minutes *)

(** C2. After a call of [search] that returned [results], the cache holds
    them under the key of the options, stamped with the time of the store when
    the call executed a strategy.  A second call with the same options, in
    whatever environment, made while that entry is younger than five minutes
    ([cacheTimeout] = 300000 ms) returns the same list with an empty trace (no
    strategy executed, no collaborator called) and leaves the engine, its
    history included, as it was.  Made when the entry is five minutes old or
    older, the second call executes its strategy again: the strategy's calls
    on the collaborators are made anew, its error is the error of the call,
    and what it finds is reranked, filtered, sorted and truncated, returned,
    stored in place of the old entry and recorded in the history. *)
Theorem cache_idempotence : forall env1 clock1 options st events results st1,
  search env1 clock1 options st = ((events, Ok results), st1) ->
  exists entry,
    map_get cacheKey_eqb (generateCacheKey options) (searchCache st1) = Some entry /\
    c_results entry = results /\
    (cacheLookup clock1 options st = None -> c_timestamp entry = now_store clock1) /\
    forall env2 clock2,
      ((now_lookup clock2 - c_timestamp entry < cacheTimeout)%Z ->
         search env2 clock2 options st1 = (([], Ok results), st1)) /\
      ((cacheTimeout <= now_lookup clock2 - c_timestamp entry)%Z ->
         executes env2 clock2 options st1).
Proof.
  intros env1 clock1 options st events results st1 Hfirst.
  destruct (search_entry _ _ _ _ _ _ _ Hfirst) as (entry & Hget & Hresults & Hstamp).
  exists entry. split; [exact Hget |]. split; [exact Hresults |]. split; [exact Hstamp |].
  intros env2 clock2. split.
  - intro Hlive. rewrite <- Hresults.
    apply (search_cache_hit env2 clock2 options st1 _ Hget). exact Hlive.
  - intro Hexpired. apply search_executes. unfold cacheLookup. rewrite Hget.
    apply Z.ltb_ge in Hexpired. rewrite Hexpired. reflexivity.
Qed.

(** Two calls one minute apart, then a third six minutes after the first: the
    second is answered from the cache; the third asks the embedding provider,
    the index and the vault again, returns what the first returned, stamps
    the cache entry with its own time and is the second entry of the
    history. *)
Lemma cache_idempotence_witness :
  let first := search demoEnv (demoClock 0) (demoOptions "invoice" Hybrid) newEngine in
  let third := search demoEnv (demoClock 360000) (demoOptions "invoice" Hybrid) (snd first) in
  search demoEnv (demoClock 60000) (demoOptions "invoice" Hybrid) (snd first) =
    (([], outcome (fst first)), snd first) /\
  trace (fst third) =
    [EvStrategy Hybrid; EvEmbedQuery "invoice"; EvVectorSearch 20; EvListFiles;
     EvReadFile "B.md"; EvReadFile "C.md"] /\
  outcome (fst third) = outcome (fst first) /\
  option_map c_timestamp
    (map_get cacheKey_eqb (generateCacheKey (demoOptions "invoice" Hybrid))
       (searchCache (snd third))) = Some 360000%Z /\
  map h_resultCount (getSearchHistory (snd third)) = [2%nat; 2%nat].
Proof.
  cbv zeta.
  destruct (search demoEnv (demoClock 0) (demoOptions "invoice" Hybrid) newEngine)
    as [[events [results | e]] st1] eqn:Hfirst; [| vm_compute in Hfirst; discriminate].
  cbn [fst snd outcome].
  destruct (cache_idempotence demoEnv (demoClock 0) (demoOptions "invoice" Hybrid) newEngine
              events results st1 Hfirst) as (entry & _ & _ & Hstamp & Hsecond).
  specialize (Hstamp eq_refl). cbn [demoClock now_store] in Hstamp.
  split.
  - apply (Hsecond demoEnv (demoClock 60000)). rewrite Hstamp. vm_compute. reflexivity.
  - assert (Hthird : executes demoEnv (demoClock 360000) (demoOptions "invoice" Hybrid) st1).
    { apply (Hsecond demoEnv (demoClock 360000)). rewrite Hstamp. vm_compute. discriminate. }
    unfold executes in Hthird.
    destruct (strategy demoEnv (demoOptions "invoice" Hybrid)) as [ev [found | e]] eqn:Hs;
      [| vm_compute in Hs; discriminate].
    destruct Hthird as (ev' & candidates & Hr & Hthird). rewrite Hthird.
    vm_compute in Hs. injection Hs as <- <-.
    vm_compute in Hr. injection Hr as <- <-.
    vm_compute in Hfirst. injection Hfirst as <- <- <-.
    vm_compute. repeat split.
Defined.

(* ------------------------------------------------------------------------- *)
(** ** Clearing the cache and the history *)

(** X8. [clearCache] forgets every cached answer and keeps the history: the
    next call of [search], however soon and whatever its options, executes
    its strategy again, with the strategy's calls on the collaborators, its
    result or its error, and the result stored and recorded anew.
    [clearSearchHistory] empties the history and keeps the cache: a repeated
    call within five minutes is still answered from the cache, and since an
    answer from the cache is not recorded, the history stays empty. *)
Theorem clearing_cache_and_history :
  forall env1 clock1 options st events results st1,
  cacheLookup clock1 options st = None ->
  search env1 clock1 options st = ((events, Ok results), st1) ->
  (getSearchHistory (clearCache st1) = getSearchHistory st1 /\
   forall env2 clock2 options2, executes env2 clock2 options2 (clearCache st1)) /\
  (getSearchHistory (clearSearchHistory st1) = [] /\
   forall env2 clock2,
     (now_lookup clock2 - now_store clock1 < cacheTimeout)%Z ->
     search env2 clock2 options (clearSearchHistory st1) =
       (([], Ok results), clearSearchHistory st1)).
Proof.
  intros env1 clock1 options st events results st1 Hmiss H. split; split.
  - reflexivity.
  - intros env2 clock2 options2. apply search_executes. reflexivity.
  - reflexivity.
  - intros env2 clock2 Hlive.
    pose proof (search_stores _ _ _ _ _ _ _ Hmiss H) as Hget.
    apply (search_cache_hit env2 clock2 options (clearSearchHistory st1) _ Hget).
    exact Hlive.
Qed.

(** A search, then the history cleared, then the same search a second later:
    the history is still empty.  With the cache cleared instead, the same
    search a second later reads the vault again and is the second entry of
    the history. *)
Lemma clearing_cache_and_history_witness :
  let st1 := snd (search demoEnv (demoClock 0) (demoOptions "invoice" Keyword) newEngine) in
  getSearchHistory (snd (search demoEnv (demoClock 1000) (demoOptions "invoice" Keyword)
                           (clearSearchHistory st1))) = [] /\
  trace (fst (search demoEnv (demoClock 1000) (demoOptions "invoice" Keyword)
                (clearCache st1))) =
    [EvStrategy Keyword; EvListFiles; EvReadFile "B.md"; EvReadFile "C.md"] /\
  map h_resultCount
    (getSearchHistory (snd (search demoEnv (demoClock 1000) (demoOptions "invoice" Keyword)
                              (clearCache st1)))) = [1%nat; 1%nat].
Proof.
  cbv zeta.
  destruct (search demoEnv (demoClock 0) (demoOptions "invoice" Keyword) newEngine)
    as [[events [results | e]] st1] eqn:H; [| vm_compute in H; discriminate H].
  cbn [snd].
  destruct (clearing_cache_and_history demoEnv (demoClock 0)
              (demoOptions "invoice" Keyword) newEngine events results st1 eq_refl H)
    as [[_ Hcache] [_ Hhistory]].
  split.
  - rewrite (Hhistory demoEnv (demoClock 1000) eq_refl). reflexivity.
  - specialize (Hcache demoEnv (demoClock 1000) (demoOptions "invoice" Keyword)).
    unfold executes in Hcache.
    destruct (strategy demoEnv (demoOptions "invoice" Keyword)) as [ev [found | e]] eqn:Hs;
      [| vm_compute in Hs; discriminate].
    destruct Hcache as (ev' & candidates & Hr & Hcache). rewrite Hcache.
    vm_compute in Hs. injection Hs as <- <-.
    vm_compute in Hr. injection Hr as <- <-.
    vm_compute in H. injection H as <- <- <-.
    vm_compute. repeat split.
Defined.

(* ------------------------------------------------------------------------- *)
(** ** What the filters keep *)

Lemma filter_filter : forall {A : Type} (f g : A -> bool) (l : list A),
  filter g (filter f l) = filter (fun x => f x && g x) l.
Proof.
  intros A f g l. induction l as [| x l IH]; [reflexivity |]. cbn.
  destruct (f x); cbn; [destruct (g x) |]; rewrite IH; reflexivity.
Qed.

Lemma filter_all : forall {A : Type} (l : list A), filter (fun _ => true) l = l.
Proof. intros A l. induction l as [| x l IH]; cbn; congruence. Qed.

Lemma filter_if : forall {A : Type} (c : bool) (f : A -> bool) (l : list A),
  (if c then filter f l else l) = filter (fun x => if c then f x else true) l.
Proof. intros A [] f l; [reflexivity | symmetry; apply filter_all]. Qed.

Lemma filter_opt : forall {A B : Type} (o : option B) (f : B -> A -> bool) (l : list A),
  match o with Some b => filter (f b) l | None => l end =
  filter (fun x => match o with Some b => f b x | None => true end) l.
Proof. intros A B [b |] f l; [reflexivity | symmetry; apply filter_all]. Qed.

Lemma applyFilters_filter : forall env options results,
  applyFilters env results options = filter (passesFilters env options) results.
Proof.
  intros env options results. unfold applyFilters.
  rewrite (filter_if (fileTypeConfigured options)).
  rewrite (filter_opt (o_dateRange options) (dateRangeTest env)).
  rewrite (filter_opt (tagsConfigured options) tagsTest).
  rewrite (filter_opt (foldersConfigured options) foldersTest).
  rewrite !filter_filter. apply filter_ext. intro r. unfold passesFilters.
  rewrite !andb_assoc. reflexivity.
Qed.

(** X9. [applyFilters] keeps, in their order, the results that pass the test
    of every configured filter, and judges each result by itself: filtering a
    concatenation is filtering its parts, and filtering twice is filtering
    once.  With no file type, no date range, and for [tags] and [folders] no
    array or an empty one, it returns the list it was given. *)
Theorem applyFilters_keeps_order : forall env options results,
  applyFilters env results options = filter (passesFilters env options) results /\
  (forall more,
     applyFilters env (results ++ more) options =
     applyFilters env results options ++ applyFilters env more options) /\
  applyFilters env (applyFilters env results options) options =
    applyFilters env results options /\
  (unfiltered options -> applyFilters env results options = results).
Proof.
  intros env options results. split; [| split; [| split]].
  - apply applyFilters_filter.
  - intro more. rewrite !applyFilters_filter. apply filter_app.
  - rewrite !applyFilters_filter, filter_filter. apply filter_ext.
    intro r. apply andb_diag.
  - intros (Hf & Hd & Ht & Hfo). unfold applyFilters, fileTypeConfigured, tagsConfigured,
      foldersConfigured. rewrite Hf, Hd.
    destruct Ht as [-> | ->], Hfo as [-> | ->]; reflexivity.
Qed.

(** Empty arrays of tags and folders are no filters. *)
Lemma applyFilters_keeps_order_witness :
  applyFilters demoEnv [pathless; pdfResult]
    {| o_query := "invoice"; o_searchType := Hybrid; o_maxResults := 10;
       o_useRerank := false; o_rerankThreshold := 0.5; o_includeContent := true;
       o_fileTypes := []; o_dateRange := None; o_tags := Some []; o_folders := Some [];
       o_sortBy := ByRelevance; o_sortOrder := Desc |} = [pathless; pdfResult].
Proof.
  apply (proj2 (proj2 (proj2 (applyFilters_keeps_order demoEnv _ [pathless; pdfResult])))).
  repeat split; auto.
Defined.


(* ------------------------------------------------------------------------- *)
(** ** Summaries, titles and highlights *)

Lemma length_append : forall a b : string,
  String.length (String.append a b) = (String.length a + String.length b)%nat.
Proof. intros a b. induction a as [| c a IH]; cbn; [reflexivity | rewrite IH; reflexivity]. Qed.

Lemma length_substring : forall (s : string) (n m : nat),
  String.length (substring n m s) = Nat.min m (String.length s - n).
Proof.
  induction s as [| c s IH]; intros n m.
  - destruct n, m; reflexivity.
  - destruct n as [| n].
    + destruct m as [| m]; [reflexivity |]. cbn. rewrite IH. rewrite Nat.sub_0_r. reflexivity.
    + cbn. apply IH.
Qed.

(** X10. A summary has at most 203 characters: the cleaned text itself when
    that has at most 200 characters, and else its first 200 characters
    followed by three dots.  A title made from the start of a text without a
    heading line is at most 50 characters of it, trimmed, followed by three
    dots. *)
Theorem summary_and_title_lengths : forall env content,
  (String.length (extractSummary env content) <= 203)%nat /\
  ((String.length (trim env (strip_markup env content)) <= 200)%nat ->
     extractSummary env content = trim env (strip_markup env content)) /\
  ((200 < String.length (trim env (strip_markup env content)))%nat ->
     extractSummary env content =
       String.append (substring 0 200 (trim env (strip_markup env content))) "..." /\
     String.length (extractSummary env content) = 203%nat) /\
  (Forall (fun line => String.prefix "#" line = false) (split_lines env content) ->
     extractTitle env content = String.append (trim env (substring 0 50 content)) "..." /\
     ((forall s, String.length (trim env s) <= String.length s)%nat ->
        (String.length (extractTitle env content) <= 53)%nat)).
Proof.
  intros env content. unfold extractSummary, extractTitle, prefix_of.
  set (cleaned := trim env (strip_markup env content)).
  destruct (200 <? String.length cleaned)%nat eqn:E.
  - apply Nat.ltb_lt in E.
    assert (L : String.length (String.append (substring 0 200 cleaned) "...") = 203%nat).
    { rewrite length_append, length_substring.
      change (String.length "...") with 3%nat. lia. }
    split; [lia |]. split; [lia |]. split; [auto |].
    intro Hlines. assert (F : find (fun line => String.prefix "#" line)
                                   (split_lines env content) = None).
    { induction Hlines as [| line lines Hl _ IH]; [reflexivity |]. cbn.
      rewrite Hl. exact IH. }
    rewrite F. split; [reflexivity |]. intro Htrim. rewrite length_append.
    specialize (Htrim (substring 0 50 content)). rewrite length_substring in Htrim.
    change (String.length "...") with 3%nat. lia.
  - apply Nat.ltb_ge in E. split; [lia |]. split; [reflexivity |]. split; [lia |].
    intro Hlines. assert (F : find (fun line => String.prefix "#" line)
                                   (split_lines env content) = None).
    { induction Hlines as [| line lines Hl _ IH]; [reflexivity |]. cbn.
      rewrite Hl. exact IH. }
    rewrite F. split; [reflexivity |]. intro Htrim. rewrite length_append.
    specialize (Htrim (substring 0 50 content)). rewrite length_substring in Htrim.
    change (String.length "...") with 3%nat. lia.
Qed.

Lemma findWordContext_length : forall env content word contexts,
  findWordContext env content word = Ok contexts -> (length contexts <= 2)%nat.
Proof.
  intros env content word contexts H. unfold findWordContext in H.
  destruct (re_word_exec env content word) as [indices | e]; [| discriminate].
  cbn [rbind] in H. injection H as <-. rewrite length_map.
  exact (firstn_le_length 2 indices).
Qed.

Lemma extractHighlights_length : forall env content query highlights,
  extractHighlights env content query = Ok highlights -> (length highlights <= 3)%nat.
Proof.
  intros env content query highlights H. unfold extractHighlights in H.
  apply rbind_Ok in H. destruct H as (all & _ & H). injection H as <-.
  exact (firstn_le_length 3 all).
Qed.

Lemma semantic_mapR_highlights : forall env options neighbors i results,
  mapR (fun ri => semanticResult env options (fst ri) (snd ri))
       (mapi_from i (fun r j => (r, j)) neighbors) = Ok results ->
  Forall (fun r => (length (highlights_or_empty r) <= 3)%nat) results.
Proof.
  intros env options neighbors. induction neighbors as [| n ns IH]; intros i results H.
  - cbn in H. inversion H. constructor.
  - cbn [mapi_from mapR] in H. apply rbind_Ok in H. destruct H as (r & Hr & H).
    apply rbind_Ok in H. destruct H as (rs & Hrs & H). inversion H. subst results.
    constructor; [| apply (IH _ _ Hrs)].
    cbn [fst snd] in Hr. unfold semanticResult in Hr. apply rbind_Ok in Hr.
    destruct Hr as (hs & Hhs & Hr). inversion Hr. cbn.
    apply (extractHighlights_length _ _ _ _ Hhs).
Qed.

Lemma keywordFile_highlights : forall env options queryWords file r,
  In r (keywordFile env options queryWords file) ->
  (length (highlights_or_empty r) <= 3)%nat.
Proof.
  intros env options queryWords file r H. unfold keywordFile in H.
  destruct (vault_read env file) as [content | e]; [| contradiction].
  destruct (keywordResult env options queryWords file content) as [[r' |] | e] eqn:E;
    try contradiction.
  destruct H as [H | []]. subst r'.
  unfold keywordResult in E. apply rbind_Ok in E. destruct E as ([score highlights] & _ & E).
  destruct (0 <? score)%nat; [| discriminate].
  apply rbind_Ok in E. destruct E as (created & _ & E).
  apply rbind_Ok in E. destruct E as (modified & _ & E).
  injection E as <-. exact (firstn_le_length 3 highlights).
Qed.

Lemma map_set_values_In : forall (k : string) (v x : SearchResult) m,
  In x (map_values (map_set String.eqb k v m)) -> x = v \/ In x (map_values m).
Proof.
  intros k v x m. unfold map_values. induction m as [| [k' v'] m IH]; cbn.
  - intros [E | []]. auto.
  - destruct (String.eqb k k'); cbn.
    + intros [E | Hin]; auto.
    + intros [E | Hin]; auto. destruct (IH Hin); auto.
Qed.

Lemma combine_highlights : forall semanticResults keywordResults,
  Forall (fun r => (length (highlights_or_empty r) <= 5)%nat) semanticResults ->
  Forall (fun r => (length (highlights_or_empty r) <= 5)%nat) keywordResults ->
  Forall (fun r => (length (highlights_or_empty r) <= 5)%nat)
         (map_values (combine semanticResults keywordResults)).
Proof.
  intros sem kw Hsem Hkw. unfold combine.
  assert (Hs : forall l m,
             Forall (fun r => (length (highlights_or_empty r) <= 5)%nat) l ->
             Forall (fun r => (length (highlights_or_empty r) <= 5)%nat) (map_values m) ->
             Forall (fun r => (length (highlights_or_empty r) <= 5)%nat)
                    (map_values (fold_left addSemantic l m))).
  { induction l as [| s l IH]; intros m Hl Hm; [exact Hm |]. cbn [fold_left].
    inversion Hl; subst. apply IH; [assumption |].
    apply Forall_forall. intros x Hx. unfold addSemantic in Hx.
    apply map_set_values_In in Hx. destruct Hx as [-> | Hx]; [assumption |].
    rewrite Forall_forall in Hm. apply Hm. exact Hx. }
  assert (Hk : forall l m,
             Forall (fun r => (length (highlights_or_empty r) <= 5)%nat) l ->
             Forall (fun r => (length (highlights_or_empty r) <= 5)%nat) (map_values m) ->
             Forall (fun r => (length (highlights_or_empty r) <= 5)%nat)
                    (map_values (fold_left addKeyword l m))).
  { induction l as [| k l IH]; intros m Hl Hm; [exact Hm |]. cbn [fold_left].
    inversion Hl; subst. apply IH; [assumption |].
    apply Forall_forall. intros x Hx. unfold addKeyword in Hx.
    rewrite Forall_forall in Hm.
    destruct (map_get String.eqb (r_id k) m) as [existing |];
      apply map_set_values_In in Hx; destruct Hx as [-> | Hx]; auto.
    exact (firstn_le_length 5 (highlights_or_empty existing ++ highlights_or_empty k)). }
  apply Hk; [exact Hkw |]. apply Hs; [exact Hsem | constructor].
Qed.

Lemma Forall_le_trans : forall (l : list SearchResult) (n m : nat),
  (n <= m)%nat ->
  Forall (fun r => (length (highlights_or_empty r) <= n)%nat) l ->
  Forall (fun r => (length (highlights_or_empty r) <= m)%nat) l.
Proof.
  intros l n m Hnm H. apply Forall_forall. rewrite Forall_forall in H.
  intros x Hx. specialize (H x Hx). lia.
Qed.

Lemma semanticSearch_highlights : forall env options results,
  outcome (semanticSearch env options) = Ok results ->
  Forall (fun r => (length (highlights_or_empty r) <= 3)%nat) results.
Proof.
  intros env options results H. unfold semanticSearch in H.
  destruct (embeddings env) as [embedQuery |]; [| discriminate].
  rewrite outcome_bind in H.
  destruct (outcome (call _ _)) as [queryEmbedding | e]; [| discriminate].
  rewrite outcome_bind in H.
  destruct (outcome (searchSimilar _ _ _)) as [ragResults | e]; [| discriminate].
  apply (semantic_mapR_highlights env options ragResults 0). exact H.
Qed.

Lemma keywordSearch_highlights : forall env options results,
  outcome (keywordSearch env options) = Ok results ->
  Forall (fun r => (length (highlights_or_empty r) <= 3)%nat) results.
Proof.
  intros env options results H.
  pose proof (keywordSearch_listing env options) as Hl.
  destruct (getMarkdownFiles env) as [files | e] eqn:Hfiles; [| congruence].
  rewrite (keywordSearch_outcome env options files Hfiles) in H. inversion H.
  apply Forall_forall. intros r Hr. unfold sort_by_comparator in Hr.
  apply js_sort_In in Hr. apply in_flat_map in Hr. destruct Hr as (file & _ & Hr).
  apply (keywordFile_highlights _ _ _ _ _ Hr).
Qed.

(** X11. The highlights are bounded: [findWordContext] returns at most two
    contexts for a word and [extractHighlights] at most three for a text;
    every result of the semantic and of the lexical strategy carries at most
    three highlights, and every result of the hybrid strategy at most
    five. *)
Theorem highlights_bounded : forall env options results,
  (forall content word contexts,
     findWordContext env content word = Ok contexts -> (length contexts <= 2)%nat) /\
  (forall content query highlights,
     extractHighlights env content query = Ok highlights -> (length highlights <= 3)%nat) /\
  (outcome (semanticSearch env options) = Ok results ->
     Forall (fun r => (length (highlights_or_empty r) <= 3)%nat) results) /\
  (outcome (keywordSearch env options) = Ok results ->
     Forall (fun r => (length (highlights_or_empty r) <= 3)%nat) results) /\
  (outcome (hybridSearch env options) = Ok results ->
     Forall (fun r => (length (highlights_or_empty r) <= 5)%nat) results).
Proof.
  intros env options results. split; [| split; [| split; [| split]]].
  - apply findWordContext_length.
  - apply extractHighlights_length.
  - apply semanticSearch_highlights.
  - apply keywordSearch_highlights.
  - intro H. rewrite hybridSearch_outcome in H.
    destruct (outcome (keywordSearch env options)) as [kw |] eqn:Hkw; [| discriminate].
    inversion H. apply Forall_forall. intros r Hr.
    unfold hybridMerge, sort_by_comparator in Hr. apply js_sort_In in Hr.
    revert r Hr. apply Forall_forall. apply combine_highlights.
    + apply Forall_le_trans with (n := 3%nat); [lia |].
      destruct (outcome (semanticSearch env options)) as [sem |] eqn:Hsem; [| constructor].
      apply (semanticSearch_highlights env options). exact Hsem.
    + apply Forall_le_trans with (n := 3%nat); [lia |].
      apply (keywordSearch_highlights env options). exact Hkw.
Qed.


(* ------------------------------------------------------------------------- *)
(** ** What no strategy produces *)

Lemma untagged_preserved : preserved untagged.
Proof. intros r H. repeat split; intros; exact H. Qed.

Lemma unplaced_preserved : preserved unplaced.
Proof. intros r H. repeat split; intros; exact H. Qed.

Lemma hybridMerge_Forall : forall (P : SearchResult -> Prop) semanticResults keywordResults,
  preserved P -> Forall P semanticResults -> Forall P keywordResults ->
  Forall P (hybridMerge semanticResults keywordResults).
Proof.
  intros P sem kw HP Hsem Hkw.
  assert (Hs : forall l m, Forall P l -> Forall P (map_values m) ->
                           Forall P (map_values (fold_left addSemantic l m))).
  { induction l as [| s l IH]; intros m Hl Hm; [exact Hm |]. cbn [fold_left].
    inversion Hl; subst. apply IH; [assumption |].
    apply Forall_forall. intros x Hx. unfold addSemantic in Hx.
    apply map_set_values_In in Hx. destruct Hx as [-> | Hx].
    - apply HP. assumption.
    - rewrite Forall_forall in Hm. apply Hm. exact Hx. }
  assert (Hk : forall l m, Forall P l -> Forall P (map_values m) ->
                           Forall P (map_values (fold_left addKeyword l m))).
  { induction l as [| k l IH]; intros m Hl Hm; [exact Hm |]. cbn [fold_left].
    inversion Hl; subst. apply IH; [assumption |].
    apply Forall_forall. intros x Hx. unfold addKeyword in Hx.
    rewrite Forall_forall in Hm.
    destruct (map_get String.eqb (r_id k) m) as [existing |] eqn:E;
      apply map_set_values_In in Hx; destruct Hx as [-> | Hx]; auto.
    - apply HP. apply Hm. apply (map_get_In String.eqb String.eqb_eq) in E.
      unfold map_values. apply in_map_iff. exists (r_id k, existing). auto.
    - apply HP. assumption. }
  apply Forall_forall. intros r Hr. unfold hybridMerge, sort_by_comparator in Hr.
  apply js_sort_In in Hr. revert r Hr. apply Forall_forall. unfold combine.
  apply Hk; [exact Hkw |]. apply Hs; [exact Hsem | constructor].
Qed.

Lemma hybridSearch_Forall : forall (P : SearchResult -> Prop) env options results,
  preserved P ->
  (forall rs, outcome (semanticSearch env options) = Ok rs -> Forall P rs) ->
  (forall rs, outcome (keywordSearch env options) = Ok rs -> Forall P rs) ->
  outcome (hybridSearch env options) = Ok results -> Forall P results.
Proof.
  intros P env options results HP Hsem Hkw H. rewrite hybridSearch_outcome in H.
  destruct (outcome (keywordSearch env options)) as [kw |]; [| discriminate].
  inversion H. apply hybridMerge_Forall; [exact HP | | apply Hkw; reflexivity].
  destruct (outcome (semanticSearch env options)) as [sem |]; [| constructor].
  apply Hsem. reflexivity.
Qed.

Lemma deduplicateResults_In : forall results r,
  In r (deduplicateResults results) -> In r results.
Proof.
  intros results r H.
  change (deduplicateResults results) with (map_values (fold_left dedupStep results []))
    in H.
  apply dedup_from in H. destruct H as [[] | H]. exact H.
Qed.

Lemma analyzeResultsWithAI_Forall : forall (P : SearchResult -> Prop) env query results out,
  preserved P -> Forall P results ->
  outcome (analyzeResultsWithAI env query results) = Ok out -> Forall P out.
Proof.
  intros P env query results out HP Hres H. unfold analyzeResultsWithAI in H.
  destruct (negb (vercel_isReady env) || (length results =? 0)%nat).
  - inversion H. subst. exact Hres.
  - rewrite outcome_try_catch, outcome_bind in H.
    rewrite (promise_all_caught _ (analyzed env query)) in H
      by (intro; apply analysis_callback).
    inversion H. apply Forall_forall. intros r Hr.
    unfold sort_by_comparator in Hr. apply js_sort_In in Hr.
    apply in_map_iff in Hr. destruct Hr as (r0 & <- & Hr0).
    rewrite Forall_forall in Hres. specialize (Hres _ Hr0). unfold analyzed.
    destruct (generateText env (relevancePrompt query r0)); [apply HP |]; exact Hres.
Qed.

Lemma expanded_searches_Forall : forall (P : SearchResult -> Prop) env options queries acc out,
  (forall o rs, outcome (hybridSearch env o) = Ok rs -> Forall P rs) ->
  Forall P acc ->
  outcome (foldM (fun allResults query =>
                    results <- hybridSearch env (with_query options query) ;;
                    ret (allResults ++ results))
                 queries acc) = Ok out ->
  Forall P out.
Proof.
  intros P env options queries. induction queries as [| q queries IH]; intros acc out Hh Hacc H.
  - inversion H. subst. exact Hacc.
  - rewrite outcome_foldM_cons, outcome_bind in H.
    destruct (outcome (hybridSearch env (with_query options q))) as [rs |] eqn:Hrs;
      [| discriminate].
    cbn [outcome ret snd] in H. apply (IH (acc ++ rs) out Hh); [| exact H].
    apply Forall_app. split; [exact Hacc | apply (Hh _ _ Hrs)].
Qed.

Lemma aiEnhancedSearch_Forall : forall (P : SearchResult -> Prop) env options results,
  preserved P ->
  (forall o rs, outcome (hybridSearch env o) = Ok rs -> Forall P rs) ->
  outcome (aiEnhancedSearch env options) = Ok results -> Forall P results.
Proof.
  intros P env options results HP Hh H. unfold aiEnhancedSearch in H.
  destruct (negb (vercel_isReady env)); [apply (Hh _ _ H) |].
  rewrite outcome_try_catch in H.
  destruct (outcome (bind _ _)) as [out |] eqn:Htry; [| apply (Hh _ _ H)].
  inversion H. subst out. rewrite outcome_bind in Htry.
  destruct (outcome (call _ _)) as [expandedQueries |]; [| discriminate].
  rewrite outcome_bind in Htry.
  destruct (outcome (foldM _ _ _)) as [allResults |] eqn:Hall; [| discriminate].
  apply (analyzeResultsWithAI_Forall P env (o_query options)
           (deduplicateResults allResults) results HP); [| exact Htry].
  apply Forall_forall. intros r Hr. apply deduplicateResults_In in Hr.
  assert (Hall' : Forall P allResults).
  { apply (expanded_searches_Forall P env options (o_query options :: expandedQueries)
             [] allResults Hh); [constructor | exact Hall]. }
  rewrite Forall_forall in Hall'. apply Hall'. exact Hr.
Qed.

Lemma mapR_In : forall {A B : Type} (f : A -> result B) (l : list A) (bs : list B) (b : B),
  mapR f l = Ok bs -> In b bs -> exists a, In a l /\ f a = Ok b.
Proof.
  intros A B f l. induction l as [| x l IH]; intros bs b H Hb.
  - inversion H. subst. contradiction.
  - cbn [mapR] in H. apply rbind_Ok in H. destruct H as (b0 & Hb0 & H).
    apply rbind_Ok in H. destruct H as (bs0 & Hbs0 & H). inversion H. subst bs.
    destruct Hb as [-> | Hb].
    + exists x. split; [left; reflexivity | exact Hb0].
    + destruct (IH _ _ Hbs0 Hb) as (a & Ha & Hfa). exists a. split; [right |]; assumption.
Qed.

Lemma rerankResults_Forall : forall (P : SearchResult -> Prop) env query results options out,
  preserved P -> Forall P results ->
  outcome (rerankResults env query results options) = Ok out -> Forall P out.
Proof.
  intros P env query results options out HP Hres H. unfold rerankResults in H.
  destruct (negb (voyage_isReady env) || (length results =? 0)%nat).
  - inversion H. subst. exact Hres.
  - rewrite outcome_try_catch in H.
    destruct (outcome (bind _ _)) as [out' |] eqn:Htry; [| inversion H; subst; exact Hres].
    inversion H. subst out'. rewrite outcome_bind in Htry.
    destruct (outcome (rerankOnly _ _ _ _)) as [[data |] |]; try discriminate.
    + rewrite outcome_bind in Htry. change (outcome (lift ?a)) with a in Htry.
      destruct (mapR _ _) as [reranked |] eqn:Hmap; [| discriminate].
      inversion Htry. apply Forall_forall. intros r Hr.
      unfold sort_by_comparator in Hr. apply js_sort_In in Hr.
      destruct (mapR_In _ _ _ _ Hmap Hr) as (item & _ & Hitem).
      unfold rerankedResult in Hitem.
      destruct (nth_error results (ri_index item)) as [original |] eqn:Hnth;
        [| discriminate].
      inversion Hitem. apply HP. rewrite Forall_forall in Hres. apply Hres.
      apply (nth_error_In _ _ Hnth).
    + inversion Htry. subst. exact Hres.
Qed.

Lemma pipeline_Forall : forall (P : SearchResult -> Prop) env options results,
  preserved P ->
  (forall rs,
     outcome (match o_searchType options with
              | Semantic => semanticSearch env options
              | Keyword => keywordSearch env options
              | Hybrid => hybridSearch env options
              | AiEnhanced => aiEnhancedSearch env options
              end) = Ok rs -> Forall P rs) ->
  outcome (pipeline env options) = Ok results -> Forall P results.
Proof.
  intros P env options results HP Hs H. rewrite pipeline_outcome in H.
  destruct (outcome (match o_searchType options with
                     | Semantic => _ | Keyword => _ | Hybrid => _ | AiEnhanced => _
                     end)) as [found |]; [| discriminate].
  specialize (Hs found eq_refl). unfold postProcess in H. rewrite outcome_bind in H.
  assert (Hc : exists candidates,
             Forall P candidates /\
             Ok (slice0 (o_maxResults options)
                   (sortResults env (applyFilters env candidates options) options)) =
             Ok results).
  { destruct (o_useRerank options && voyage_isReady env).
    - destruct (outcome (rerankResults _ _ _ _)) as [out |] eqn:Hout; [| discriminate].
      exists out. split; [| exact H].
      apply (rerankResults_Forall P _ _ _ _ _ HP Hs Hout).
    - exists found. split; [exact Hs | exact H]. }
  destruct Hc as (candidates & Hcand & Hres). inversion Hres.
  apply Forall_forall. intros r Hr. apply slice0_In in Hr.
  unfold sortResults, sort_by_comparator in Hr. apply js_sort_In in Hr.
  apply applyFilters_In in Hr. destruct Hr as [Hr _].
  rewrite Forall_forall in Hcand. apply Hcand. exact Hr.
Qed.

Lemma semanticSearch_bare : forall env options results,
  outcome (semanticSearch env options) = Ok results ->
  Forall (fun r => untagged r /\ unplaced r) results.
Proof.
  intros env options results H. unfold semanticSearch in H.
  destruct (embeddings env) as [embedQuery |]; [| discriminate].
  rewrite outcome_bind in H.
  destruct (outcome (call _ _)) as [queryEmbedding | e]; [| discriminate].
  rewrite outcome_bind in H.
  destruct (outcome (searchSimilar _ _ _)) as [ragResults | e]; [| discriminate].
  change (outcome (lift ?a)) with a in H.
  apply Forall_forall. intros r Hr.
  destruct (mapR_In _ _ _ _ H Hr) as ([n i] & _ & Hn). cbn [fst snd] in Hn.
  unfold semanticResult in Hn. apply rbind_Ok in Hn. destruct Hn as (hs & _ & Hn).
  inversion Hn. split; reflexivity.
Qed.

Lemma keywordSearch_untagged : forall env options results,
  outcome (keywordSearch env options) = Ok results -> Forall untagged results.
Proof.
  intros env options results H.
  pose proof (keywordSearch_listing env options) as Hl.
  destruct (getMarkdownFiles env) as [files | e] eqn:Hfiles; [| congruence].
  rewrite (keywordSearch_outcome env options files Hfiles) in H. inversion H.
  apply Forall_forall. intros r Hr. unfold sort_by_comparator in Hr.
  apply js_sort_In in Hr. apply in_flat_map in Hr. destruct Hr as (file & _ & Hr).
  unfold keywordFile in Hr.
  destruct (vault_read env file) as [content | e]; [| contradiction].
  destruct (keywordResult env options _ file content) as [[r' |] | e] eqn:E;
    try contradiction.
  destruct Hr as [Hr | []]. subst r'.
  unfold keywordResult in E. apply rbind_Ok in E. destruct E as ([score highlights] & _ & E).
  destruct (0 <? score)%nat; [| discriminate].
  apply rbind_Ok in E. destruct E as (created & _ & E).
  apply rbind_Ok in E. destruct E as (modified & _ & E).
  inversion E. reflexivity.
Qed.

Lemma strategies_untagged : forall env options rs,
  outcome (match o_searchType options with
           | Semantic => semanticSearch env options
           | Keyword => keywordSearch env options
           | Hybrid => hybridSearch env options
           | AiEnhanced => aiEnhancedSearch env options
           end) = Ok rs -> Forall untagged rs.
Proof.
  intros env options rs H.
  assert (Hsem : forall o rs, outcome (semanticSearch env o) = Ok rs -> Forall untagged rs).
  { intros o rs' H'. apply semanticSearch_bare in H'.
    apply Forall_forall. rewrite Forall_forall in H'. intros r Hr. apply (H' r Hr). }
  assert (Hh : forall o rs, outcome (hybridSearch env o) = Ok rs -> Forall untagged rs).
  { intros o rs' H'. apply (hybridSearch_Forall untagged env o rs' untagged_preserved);
      [apply Hsem | apply keywordSearch_untagged | exact H']. }
  destruct (o_searchType options).
  - apply (Hsem _ _ H).
  - apply (keywordSearch_untagged _ _ _ H).
  - apply (Hh _ _ H).
  - apply (aiEnhancedSearch_Forall untagged env options rs untagged_preserved Hh H).
Qed.

(** X12. No strategy gives a result tags, and the semantic strategy gives its
    results no path.  So a call of [search] with a tag filter that executes a
    strategy returns no result at all, whatever the strategy and the vault;
    and so does a call for the semantic strategy with a folder filter. *)
Theorem tag_filter_empties_search : forall env clock options st events results st',
  cacheLookup clock options st = None ->
  search env clock options st = ((events, Ok results), st') ->
  (forall r, In r results -> m_tags (r_metadata r) = None) /\
  (forall tags, tagsConfigured options = Some tags -> results = []) /\
  (o_searchType options = Semantic ->
     (forall r, In r results -> m_path (r_metadata r) = None) /\
     (forall folders, foldersConfigured options = Some folders -> results = [])).
Proof.
  intros env clock options st events results st' Hmiss H.
  assert (Ho : outcome (pipeline env options) = Ok results).
  { unfold search in H. rewrite Hmiss in H.
    destruct (pipeline env options) as [t [rs | e]]; inversion H; reflexivity. }
  pose proof (pipeline_Forall untagged env options results untagged_preserved
                (strategies_untagged env options) Ho) as Htags.
  pose proof (search_miss_outcome _ _ _ _ _ _ _ Hmiss H) as [candidates Hc].
  assert (Hfiltered : forall r, In r results -> In r (applyFilters env candidates options)).
  { intros r Hr. rewrite Hc in Hr. apply slice0_In in Hr.
    unfold sortResults, sort_by_comparator in Hr. apply js_sort_In in Hr. exact Hr. }
  rewrite Forall_forall in Htags.
  split; [exact Htags |]. split.
  - intros tags Hconf. destruct results as [| r results]; [reflexivity |].
    assert (Hr : In r (r :: results)) by (left; reflexivity).
    pose proof (Htags r Hr) as Hnone. apply Hfiltered in Hr.
    apply applyFilters_In in Hr. destruct Hr as (_ & _ & _ & Ht & _).
    specialize (Ht tags Hconf). unfold tagsTest in Ht. rewrite Hnone in Ht.
    discriminate.
  - intro Htype.
    assert (Hpath : Forall unplaced results).
    { apply (pipeline_Forall unplaced env options results unplaced_preserved); [| exact Ho].
      rewrite Htype. intros rs Hrs. apply semanticSearch_bare in Hrs.
      apply Forall_forall. rewrite Forall_forall in Hrs. intros r Hr. apply (Hrs r Hr). }
    rewrite Forall_forall in Hpath. split; [exact Hpath |].
    intros folders Hconf. destruct results as [| r results]; [reflexivity |].
    assert (Hr : In r (r :: results)) by (left; reflexivity).
    pose proof (Hpath r Hr) as Hnone. apply Hfiltered in Hr.
    apply applyFilters_In in Hr. destruct Hr as (_ & _ & _ & _ & Hf).
    specialize (Hf folders Hconf). unfold foldersTest in Hf.
    unfold unplaced in Hnone. rewrite Hnone in Hf. discriminate.
Qed.

(** The keyword search that finds [B.md] finds nothing once a tag filter is
    configured. *)
Lemma tag_filter_empties_search_witness :
  exists events st',
    search demoEnv (demoClock 0) (tagOptions Keyword) newEngine = ((events, Ok []), st').
Proof.
  destruct (search demoEnv (demoClock 0) (tagOptions Keyword) newEngine)
    as [[events [results | e]] st'] eqn:H.
  - exists events, st'.
    rewrite (proj1 (proj2 (tag_filter_empties_search demoEnv (demoClock 0)
                             (tagOptions Keyword) newEngine events results st' eq_refl H))
               ["finance"] eq_refl).
    reflexivity.
  - vm_compute in H. discriminate H.
Defined.


(* ------------------------------------------------------------------------- *)
(** ** What the lexical strategy returns *)

(** The ratio of two counts is a positive number. *)
Lemma ratio_positive : forall c n : nat,
  (0 < Z.of_nat c < 2 ^ 63)%Z -> (0 < Z.of_nat n < 2 ^ 63)%Z ->
  (0 <? num_of_nat c / num_of_nat n) = true.
Proof.
  intros c n Hc Hn.
  destruct (NumFacts.num_of_nat_finite c Hc) as (m1 & e1 & E1 & B1).
  destruct (NumFacts.num_of_nat_finite n Hn) as (m2 & e2 & E2 & B2).
  pose proof (Prim2SF_valid (num_of_nat c)) as V1. rewrite E1 in V1.
  pose proof (Prim2SF_valid (num_of_nat n)) as V2. rewrite E2 in V2.
  destruct (NumFacts.SFdiv_finite m1 e1 m2 e2 V1 V2 B1 B2) as (m & e & E & B).
  rewrite ltb_spec, div_spec, E1, E2. unfold SF64div. rewrite E. reflexivity.
Qed.

Lemma flat_map_length_le : forall {A B : Type} (f : A -> list B) (l : list A),
  (forall a, (length (f a) <= 1)%nat) -> (length (flat_map f l) <= length l)%nat.
Proof.
  intros A B f l H. induction l as [| a l IH]; [cbn; lia |].
  cbn [flat_map]. rewrite length_app. specialize (H a). cbn [length]. lia.
Qed.

Lemma keywordFile_length : forall env options queryWords file,
  (length (keywordFile env options queryWords file) <= 1)%nat.
Proof.
  intros env options queryWords file. unfold keywordFile.
  destruct (vault_read env file) as [content | e]; [| cbn; lia].
  destruct (keywordResult env options queryWords file content) as [[r |] | e]; cbn; lia.
Qed.

Lemma keywordFile_fields : forall env options queryWords file r,
  In r (keywordFile env options queryWords file) ->
  r_title r = f_basename file /\
  exists content, vault_read env file = Ok content /\
    r_content r = if o_includeContent options then content else extractSummary env content.
Proof.
  intros env options queryWords file r H. unfold keywordFile in H.
  destruct (vault_read env file) as [content | e]; [| contradiction].
  destruct (keywordResult env options queryWords file content) as [[r' |] | e] eqn:E;
    try contradiction.
  destruct H as [H | []]. subst r'.
  unfold keywordResult in E. apply rbind_Ok in E. destruct E as ([score highlights] & _ & E).
  destruct (0 <? score)%nat; [| discriminate].
  apply rbind_Ok in E. destruct E as (created & _ & E).
  apply rbind_Ok in E. destruct E as (modified & _ & E).
  inversion E. split; [reflexivity |]. exists content. split; reflexivity.
Qed.

(** X13. With a vault that lists its files, [keywordSearch] returns at most
    one result per file, each for a file that could be read: its title is the
    file's base name and its content the file's text, or the summary of it
    when [includeContent] is off.  As long as the match counts stay below
    [2^63], every score is a positive number and the results are in
    descending order of score.  A file that cannot be read, or that matches
    no query word, is left out and does not fail the search. *)
Theorem keyword_results : forall env options files bound,
  getMarkdownFiles env = Ok files ->
  matchesBelow env bound ->
  (Z.of_nat (length (split_ws env (toLowerCase env (o_query options))) * bound) < 2 ^ 63)%Z ->
  exists results,
    outcome (keywordSearch env options) = Ok results /\
    (length results <= length files)%nat /\
    (forall r, In r results ->
       exists file content,
         In file files /\ vault_read env file = Ok content /\
         r_file r = Some file /\
         r_id r = String.append "keyword_" (f_path file) /\
         r_title r = f_basename file /\
         r_content r = (if o_includeContent options then content
                        else extractSummary env content) /\
         (0 <? r_score r) = true) /\
    descending r_score results /\
    (forall file e, In file files -> vault_read env file = Err e ->
       forall r, In r results -> r_file r <> Some file).
Proof.
  intros env options files bound Hfiles Hb Hsmall.
  set (queryWords := split_ws env (toLowerCase env (o_query options))) in *.
  exists (sort_by_comparator byScore (flat_map (keywordFile env options queryWords) files)).
  split; [apply keywordSearch_outcome; exact Hfiles |].
  assert (Hin : forall r,
            In r (sort_by_comparator byScore
                    (flat_map (keywordFile env options queryWords) files)) ->
            exists file, In file files /\ In r (keywordFile env options queryWords file)).
  { intros r Hr. unfold sort_by_comparator in Hr. apply js_sort_In in Hr.
    apply in_flat_map in Hr. exact Hr. }
  assert (Hpos : forall r,
            In r (sort_by_comparator byScore
                    (flat_map (keywordFile env options queryWords) files)) ->
            (0 <? r_score r) = true).
  { intros r Hr. destruct (Hin r Hr) as (file & _ & Hfile).
    destruct (keywordFile_score env options queryWords file r bound Hb Hfile)
      as (score & Hscore & E).
    rewrite E.
    assert (Hwords : (0 < length queryWords)%nat)
      by (destruct (length queryWords); [cbn in Hscore |]; lia).
    assert (Hbound : (0 < bound)%nat)
      by (destruct bound; [rewrite Nat.mul_0_r in Hscore |]; lia).
    assert (Hle : (length queryWords <= length queryWords * bound)%nat) by nia.
    apply ratio_positive; lia. }
  split; [| split; [| split]].
  - unfold sort_by_comparator.
    rewrite (Permutation_length (js_sort_perm _ _)).
    apply flat_map_length_le. intro file. apply keywordFile_length.
  - intros r Hr. destruct (Hin r Hr) as (file & Hfile & Hkf).
    destruct (keywordFile_spec _ _ _ _ _ Hkf) as (H1 & H2 & _).
    destruct (keywordFile_fields _ _ _ _ _ Hkf) as (H3 & content & H4 & H5).
    exists file, content. repeat split; try assumption. apply Hpos. exact Hr.
  - apply neighbours_descending_all.
    apply (sort_by_key_descending r_score). apply Forall_forall. intros r Hr.
    assert (Hr' : In r (sort_by_comparator byScore
                          (flat_map (keywordFile env options queryWords) files)))
      by (unfold sort_by_comparator; apply js_sort_In; exact Hr).
    destruct (OrderFacts.ltb_not_nan _ _ (Hpos r Hr')) as [_ H]. exact H.
  - intros file e Hfile Herr r Hr Habs. destruct (Hin r Hr) as (file' & _ & Hkf).
    destruct (keywordFile_spec _ _ _ _ _ Hkf) as (H1 & _).
    assert (file' = file) by congruence. subst file'.
    unfold keywordFile in Hkf. rewrite Herr in Hkf. contradiction.
Qed.

(** The demonstration vault: [B.md] holds the query word, [C.md] does not. *)
Lemma keyword_results_witness :
  exists results,
    outcome (keywordSearch demoEnv (demoOptions "invoice" Keyword)) = Ok results /\
    (length results <= 2)%nat /\
    descending r_score results.
Proof.
  destruct (keyword_results demoEnv (demoOptions "invoice" Keyword) demoFiles 1 eq_refl
              demoEnv_matchesBelow eq_refl)
    as (results & H1 & H2 & _ & H3 & _).
  exists results. auto.
Defined.


(* ------------------------------------------------------------------------- *)
(** ** What the vector index and the semantic strategy return *)

(** X14. [searchSimilar] never rejects.  Without a vector client it returns
    the empty list and asks nothing; when the client's search throws it
    returns the empty list; otherwise it returns one pair for each point of
    the answer, in order: the point's text, or the empty string, with the
    point's score, or 0 when the score is missing, zero or NaN.  No score it
    returns is NaN. *)
Theorem searchSimilar_never_fails : forall env queryEmbedding limit,
  (qdrantClient env = None -> searchSimilar env queryEmbedding limit = ret []) /\
  (forall search e,
     qdrantClient env = Some search -> search queryEmbedding limit = Err e ->
     searchSimilar env queryEmbedding limit = ([EvVectorSearch limit], Ok [])) /\
  (forall search points,
     qdrantClient env = Some search -> search queryEmbedding limit = Ok points ->
     searchSimilar env queryEmbedding limit =
       ([EvVectorSearch limit],
        Ok (map (fun point =>
                   (match p_text point with Some text => text | None => "" end,
                    match p_score point with
                    | Some score => if falsy score then 0 else score
                    | None => 0
                    end))
                points))) /\
  exists neighbors,
    outcome (searchSimilar env queryEmbedding limit) = Ok neighbors /\
    Forall (fun neighbor => is_nan (snd neighbor) = false) neighbors.
Proof.
  intros env queryEmbedding limit. split; [| split; [| split]].
  - intro H. unfold searchSimilar. rewrite H. reflexivity.
  - intros search e H He. unfold searchSimilar. rewrite H.
    unfold try_catch, bind, call. rewrite He. reflexivity.
  - intros search points H Hp. unfold searchSimilar. rewrite H.
    unfold try_catch, bind, call. rewrite Hp. reflexivity.
  - assert (H : exists neighbors,
               outcome (searchSimilar env queryEmbedding limit) = Ok neighbors).
    { unfold searchSimilar. destruct (qdrantClient env) as [search |]; [| eexists; reflexivity].
      rewrite outcome_try_catch. destruct (outcome _); eexists; reflexivity. }
    destruct H as [neighbors H]. exists neighbors. split; [exact H |].
    apply (searchSimilar_scores _ _ _ _ H).
Qed.

Lemma semantic_mapR_fields : forall env options neighbors i results,
  mapR (fun ri => semanticResult env options (fst ri) (snd ri))
       (mapi_from i (fun r j => (r, j)) neighbors) = Ok results ->
  map r_content results = map fst neighbors /\
  map r_score results = map snd neighbors /\
  map r_title results = map (fun neighbor => extractTitle env (fst neighbor)) neighbors /\
  Forall (fun r => r_file r = None /\ r_finalScore r = None /\ r_rerankScore r = None)
         results.
Proof.
  intros env options neighbors. induction neighbors as [| n ns IH]; intros i results H.
  - cbn in H. inversion H. repeat split. constructor.
  - cbn [mapi_from mapR] in H. apply rbind_Ok in H. destruct H as (r & Hr & H).
    apply rbind_Ok in H. destruct H as (rs & Hrs & H). inversion H. subst results.
    destruct (IH _ _ Hrs) as (H1 & H2 & H3 & H4).
    cbn [fst snd] in Hr. unfold semanticResult in Hr. apply rbind_Ok in Hr.
    destruct Hr as (hs & _ & Hr). inversion Hr. cbn [map].
    rewrite H1, H2, H3. repeat split. constructor; [repeat split | exact H4].
Qed.

(** X15. When [semanticSearch] returns, the embedding provider embedded the
    query and the vector index was asked for [maxResults * 2] neighbours; the
    results are the neighbours in the index's order, one result each, with
    the neighbour's text as content, its score as score and a title made from
    the text; no result has a file, a rerank score or a final score, and no
    score is NaN. *)
Theorem semantic_results : forall env options results,
  outcome (semanticSearch env options) = Ok results ->
  exists embedQuery queryEmbedding neighbors,
    embeddings env = Some embedQuery /\
    embedQuery (o_query options) = Ok queryEmbedding /\
    outcome (searchSimilar env queryEmbedding (o_maxResults options * 2)) = Ok neighbors /\
    map r_content results = map fst neighbors /\
    map r_score results = map snd neighbors /\
    map r_title results = map (fun neighbor => extractTitle env (fst neighbor)) neighbors /\
    Forall (fun r => r_file r = None /\ r_finalScore r = None /\ r_rerankScore r = None)
           results /\
    Forall (fun r => is_nan (r_score r) = false) results.
Proof.
  intros env options results H. unfold semanticSearch in H.
  destruct (embeddings env) as [embedQuery |]; [| discriminate].
  rewrite outcome_bind in H.
  change (outcome (call ?ev ?a)) with a in H.
  destruct (embedQuery (o_query options)) as [queryEmbedding | e] eqn:Hq; [| discriminate].
  rewrite outcome_bind in H.
  destruct (outcome (searchSimilar env queryEmbedding (o_maxResults options * 2)))
    as [neighbors | e] eqn:Hn; [| discriminate].
  change (outcome (lift ?a)) with a in H.
  exists embedQuery, queryEmbedding, neighbors.
  destruct (semantic_mapR_fields env options neighbors 0 results H) as (H1 & H2 & H3 & H4).
  repeat split; try assumption; try reflexivity.
  apply (semantic_mapR_scores env options neighbors 0 results); [| exact H].
  apply (searchSimilar_scores _ _ _ _ Hn).
Qed.

Lemma semantic_results_witness :
  exists results,
    outcome (semanticSearch demoEnv (demoOptions "invoice" Semantic)) = Ok results /\
    map r_content results = ["Document A"] /\
    map r_score results = [0.9].
Proof.
  destruct (outcome (semanticSearch demoEnv (demoOptions "invoice" Semantic)))
    as [results | e] eqn:H.
  - exists results. split; [reflexivity |].
    destruct (semantic_results demoEnv (demoOptions "invoice" Semantic) results H)
      as (embedQuery & queryEmbedding & neighbors & He & Hq & Hn & Hc & Hs & _).
    injection He as <-. injection Hq as <-.
    vm_compute in Hn. injection Hn as <-. split; assumption.
  - vm_compute in H. discriminate H.
Defined.


(* ------------------------------------------------------------------------- *)
(** ** The order of the hybrid search, and a query that is no pattern *)

(** X16. With a vault that lists files of distinct paths, and match counts
    below [2^63], the hybrid search returns its results in descending order
    of [finalScore]. *)
Theorem hybrid_search_ranked : forall env options files bound,
  getMarkdownFiles env = Ok files ->
  NoDup (map f_path files) ->
  matchesBelow env bound ->
  (Z.of_nat (length (split_ws env (toLowerCase env (o_query options))) * bound) < 2 ^ 63)%Z ->
  exists results,
    outcome (hybridSearch env options) = Ok results /\
    descending finalOf results.
Proof.
  intros env options files bound Hfiles Hnd Hb Hsmall.
  pose proof (keywordSearch_outcome env options files Hfiles) as Hkw.
  destruct (hybridSearch_descending_finalScore env options files _ bound
              Hfiles Hnd Hb Hsmall Hkw) as [H1 H2].
  eexists. split; [exact H1 | exact H2].
Qed.

Lemma hybrid_search_ranked_witness :
  exists results : list SearchResult,
    outcome (hybridSearch demoEnv (demoOptions "invoice" Hybrid)) = Ok results /\
    descending finalOf results.
Proof.
  apply (hybrid_search_ranked demoEnv (demoOptions "invoice" Hybrid) demoFiles 1).
  - reflexivity.
  - repeat constructor; cbn; intuition discriminate.
  - exact demoEnv_matchesBelow.
  - reflexivity.
Defined.





(* ------------------------------------------------------------------------- *)
(** ** Saved searches *)

Lemma wellKeyed_set : forall m k s,
  wellKeyed m -> ss_id s = k -> wellKeyed (map_set String.eqb k s m).
Proof.
  intros m k s [Hnd Hk] Hid. split.
  - apply (keys_set_NoDup String.eqb String.eqb_eq). exact Hnd.
  - clear Hnd. induction m as [| [k' s'] m IH]; intros k0 s0 Hin; cbn in Hin.
    + destruct Hin as [E | []]. inversion E; subst. reflexivity.
    + destruct (String.eqb k k') eqn:E.
      * apply String.eqb_eq in E. subst k'. destruct Hin as [Hin | Hin].
        -- inversion Hin; subst. reflexivity.
        -- apply Hk. right. exact Hin.
      * destruct Hin as [Hin | Hin].
        -- apply Hk. left. exact Hin.
        -- apply IH; [| exact Hin]. intros k1 s1 H1. apply Hk. right. exact H1.
Qed.

Lemma map_delete_In : forall (m : list (string * SavedSearch)) k x,
  In x (map_delete String.eqb k m) -> In x m.
Proof.
  intros m k x. induction m as [| [k' s'] m IH]; cbn; [auto |].
  destruct (String.eqb k k'); cbn; [auto |]. intros [H | H]; auto.
Qed.

Lemma map_delete_keys : forall (m : list (string * SavedSearch)) k x,
  In x (keys (map_delete String.eqb k m)) -> In x (keys m).
Proof.
  intros m k x. unfold keys. induction m as [| [k' s'] m IH]; cbn; [auto |].
  destruct (String.eqb k k'); cbn; [auto |]. intros [H | H]; auto.
Qed.

Lemma wellKeyed_delete : forall m k, wellKeyed m -> wellKeyed (map_delete String.eqb k m).
Proof.
  intros m k [Hnd Hk]. split.
  - clear Hk. induction m as [| [k' s'] m IH]; cbn; [constructor |].
    inversion Hnd as [| ? ? Hnotin Hnd']; subst.
    destruct (String.eqb k k'); [exact Hnd' |]. cbn. constructor; [| apply IH; exact Hnd'].
    intro H. apply Hnotin. apply (map_delete_keys _ _ _ H).
  - intros k0 s0 Hin. apply Hk. apply (map_delete_In _ _ _ Hin).
Qed.

Lemma map_get_delete_same : forall (m : list (string * SavedSearch)) k,
  NoDup (keys m) -> map_get String.eqb k (map_delete String.eqb k m) = None.
Proof.
  intros m k Hnd. induction m as [| [k' s'] m IH]; [reflexivity |]. cbn.
  inversion Hnd as [| ? ? Hnotin Hnd']; subst.
  destruct (String.eqb k k') eqn:E.
  - apply String.eqb_eq in E. subst k'.
    apply (map_get_None String.eqb String.eqb_eq). exact Hnotin.
  - cbn. rewrite E. apply IH. exact Hnd'.
Qed.

Lemma map_get_delete_other : forall (m : list (string * SavedSearch)) k k',
  k <> k' -> map_get String.eqb k' (map_delete String.eqb k m) = map_get String.eqb k' m.
Proof.
  intros m k k' Hne. induction m as [| [k0 s0] m IH]; [reflexivity |]. cbn.
  destruct (String.eqb k k0) eqn:E.
  - apply String.eqb_eq in E. subst k0.
    assert (E' : String.eqb k' k = false)
      by (apply String.eqb_neq; congruence).
    rewrite E'. reflexivity.
  - cbn. rewrite IH. reflexivity.
Qed.

Lemma map_delete_absent : forall (m : list (string * SavedSearch)) k,
  map_get String.eqb k m = None -> map_delete String.eqb k m = m.
Proof.
  intros m k. induction m as [| [k' s'] m IH]; [reflexivity |]. cbn.
  destruct (String.eqb k k'); [discriminate |]. intro H. rewrite IH by exact H. reflexivity.
Qed.

Lemma loadSavedSearches_wellKeyed : forall s, wellKeyed (loadSavedSearches s).
Proof.
  intro s. unfold loadSavedSearches.
  assert (H : forall l m, wellKeyed m ->
              wellKeyed (fold_left (fun m search =>
                                      map_set String.eqb (ss_id search) search m) l m)).
  { induction l as [| x l IH]; intros m Hm; [exact Hm |]. cbn [fold_left].
    apply IH. apply wellKeyed_set; [exact Hm | reflexivity]. }
  apply H. split; [constructor | intros k v []].
Qed.

Lemma searchWithSettings_saved : forall env clock options p,
  savedSearches (snd (searchWithSettings env clock options p)) = savedSearches p /\
  st_savedSearches (settings (snd (searchWithSettings env clock options p))) =
    st_savedSearches (settings p).
Proof.
  intros env clock options p. unfold searchWithSettings.
  destruct (search env clock options (engine p)) as [answer st].
  destruct (executed env clock options (engine p)); split; reflexivity.
Qed.

(** In every state the saved searches are kept under their ids. *)
Lemma reachable_wellKeyed : forall p, reachable p -> wellKeyed (savedSearches p).
Proof.
  intros p H. induction H as [s | p now created lastUsed name query options filters _ IH
                               | p env lastUsed clock searchId _ IH
                               | p searchId _ IH
                               | p env clock options _ IH
                               | p _ IH | p _ IH].
  - apply loadSavedSearches_wellKeyed.
  - cbn. apply wellKeyed_set; [exact IH | reflexivity].
  - unfold executeSavedSearch.
    destruct (map_get String.eqb searchId (savedSearches p)) as [savedSearch |] eqn:E;
      [| exact IH].
    rewrite (proj1 (searchWithSettings_saved _ _ _ _)). cbn.
    apply wellKeyed_set; [exact IH |]. cbn.
    apply (map_get_In String.eqb String.eqb_eq) in E. apply (proj2 IH). exact E.
  - cbn. apply wellKeyed_delete. exact IH.
  - rewrite (proj1 (searchWithSettings_saved _ _ _ _)). exact IH.
  - exact IH.
  - exact IH.
Qed.

(** X18. [executeSavedSearch] with an id under which nothing is saved throws
    ['Saved search not found'], searches nothing and changes nothing.  That
    is so for an id that was deleted: in every state of the plugin, after
    [deleteSavedSearch] the id is gone, every other saved search is still
    there, and deleting an id that is not there leaves the saved searches as
    they were. *)
Theorem saved_search_not_found : forall p env lastUsed clock searchId,
  reachable p ->
  (map_get String.eqb searchId (savedSearches p) = None ->
     executeSavedSearch env lastUsed clock searchId p =
       (([], Err "Saved search not found"), p)) /\
  executeSavedSearch env lastUsed clock searchId (deleteSavedSearch searchId p) =
    (([], Err "Saved search not found"), deleteSavedSearch searchId p) /\
  (forall other, other <> searchId ->
     map_get String.eqb other (savedSearches (deleteSavedSearch searchId p)) =
     map_get String.eqb other (savedSearches p)) /\
  (map_get String.eqb searchId (savedSearches p) = None ->
     savedSearches (deleteSavedSearch searchId p) = savedSearches p).
Proof.
  intros p env lastUsed clock searchId Hp.
  pose proof (reachable_wellKeyed p Hp) as [Hnd _].
  split; [| split; [| split]].
  - intro H. unfold executeSavedSearch. rewrite H. reflexivity.
  - unfold executeSavedSearch. cbn [deleteSavedSearch saveSavedSearches savedSearches
                                     with_savedSearches].
    rewrite map_get_delete_same by exact Hnd. reflexivity.
  - intros other Hne. cbn. apply map_get_delete_other. congruence.
  - intro H. cbn. apply map_delete_absent. exact H.
Qed.

Lemma saved_search_not_found_witness :
  fst (executeSavedSearch demoEnv "2024-01-01T00:00:00.000Z" (demoClock 0)
         "search_1700000000000" (deleteSavedSearch "search_1700000000000" invoices)) =
    ([], Err "Saved search not found") /\
  fst (executeSavedSearch demoEnv "2024-01-01T00:00:00.000Z" (demoClock 0)
         "search_1" invoices) = ([], Err "Saved search not found").
Proof.
  assert (H : reachable invoices) by (apply reach_saveSearch; apply reach_new).
  split.
  - rewrite (proj1 (proj2 (saved_search_not_found invoices demoEnv
                             "2024-01-01T00:00:00.000Z" (demoClock 0)
                             "search_1700000000000" H))).
    reflexivity.
  - rewrite (proj1 (saved_search_not_found invoices demoEnv "2024-01-01T00:00:00.000Z"
                      (demoClock 0) "search_1" H) eq_refl).
    reflexivity.
Defined.

(** X19. [executeSavedSearch] with the id of a saved search runs [search]
    with the saved options.  Whether that search returns, is answered from
    the cache or throws, the saved search has its [useCount] raised by one
    and its [lastUsed] set to the time of the call; it keeps its place among
    the saved searches, and the settings hold the saved searches as they now
    are. *)
Theorem execute_saved_search : forall p env lastUsed clock searchId savedSearch,
  map_get String.eqb searchId (savedSearches p) = Some savedSearch ->
  fst (executeSavedSearch env lastUsed clock searchId p) =
    fst (search env clock (ss_options savedSearch) (engine p)) /\
  engine (snd (executeSavedSearch env lastUsed clock searchId p)) =
    snd (search env clock (ss_options savedSearch) (engine p)) /\
  map_get String.eqb searchId
    (savedSearches (snd (executeSavedSearch env lastUsed clock searchId p))) =
    Some (used savedSearch lastUsed) /\
  ss_useCount (used savedSearch lastUsed) = S (ss_useCount savedSearch) /\
  ss_lastUsed (used savedSearch lastUsed) = lastUsed /\
  keys (savedSearches (snd (executeSavedSearch env lastUsed clock searchId p))) =
    keys (savedSearches p) /\
  st_savedSearches (settings (snd (executeSavedSearch env lastUsed clock searchId p))) =
    Some (map_values
            (savedSearches (snd (executeSavedSearch env lastUsed clock searchId p)))).
Proof.
  intros p env lastUsed clock searchId savedSearch H. unfold executeSavedSearch.
  rewrite H.
  set (p1 := saveSavedSearches
               (with_savedSearches p
                  (map_set String.eqb searchId (used savedSearch lastUsed)
                     (savedSearches p)))).
  destruct (searchWithSettings_saved env clock (ss_options savedSearch) p1) as [Hs Hset].
  rewrite Hs, Hset.
  assert (He : fst (searchWithSettings env clock (ss_options savedSearch) p1) =
               fst (search env clock (ss_options savedSearch) (engine p)) /\
               engine (snd (searchWithSettings env clock (ss_options savedSearch) p1)) =
               snd (search env clock (ss_options savedSearch) (engine p))).
  { unfold searchWithSettings. change (engine p1) with (engine p).
    destruct (search env clock (ss_options savedSearch) (engine p)) as [answer st].
    destruct (executed env clock (ss_options savedSearch) (engine p)); split; reflexivity. }
  destruct He as [He1 He2].
  split; [exact He1 |]. split; [exact He2 |]. split; [| split; [| split; [| split]]].
  - apply (map_get_set_same String.eqb String.eqb_eq).
  - reflexivity.
  - reflexivity.
  - apply (keys_set_present String.eqb) with (v0 := savedSearch). exact H.
  - reflexivity.
Qed.

(** The saved search for invoices, run twice. *)
Lemma execute_saved_search_witness :
  option_map ss_useCount
    (map_get String.eqb (savedId 1700000000000)
       (savedSearches
          (snd (executeSavedSearch demoEnv "2024-01-02T00:00:00.000Z" (demoClock 1000)
                  (savedId 1700000000000)
                  (snd (executeSavedSearch demoEnv "2024-01-01T00:00:00.000Z" (demoClock 0)
                          (savedId 1700000000000) invoices)))))) = Some 2%nat.
Proof.
  set (p1 := snd (executeSavedSearch demoEnv "2024-01-01T00:00:00.000Z" (demoClock 0)
                    (savedId 1700000000000) invoices)).
  assert (H0 : map_get String.eqb (savedId 1700000000000) (savedSearches invoices) =
               Some {| ss_id := savedId 1700000000000; ss_name := "Invoices";
                       ss_query := "invoice"; ss_options := demoOptions "invoice" Keyword;
                       ss_filters := []; ss_created := "2023-11-14T22:13:20.000Z";
                       ss_lastUsed := "2023-11-14T22:13:20.000Z"; ss_useCount := 0 |})
    by reflexivity.
  pose proof (execute_saved_search invoices demoEnv "2024-01-01T00:00:00.000Z" (demoClock 0)
                (savedId 1700000000000) _ H0) as (_ & _ & H1 & _).
  fold p1 in H1.
  pose proof (execute_saved_search p1 demoEnv "2024-01-02T00:00:00.000Z" (demoClock 1000)
                (savedId 1700000000000) _ H1) as (_ & _ & H2 & _).
  rewrite H2. reflexivity.
Defined.

Lemma string_of_Z_inj : forall a b, string_of_Z a = string_of_Z b -> a = b.
Proof.
  intros a b H. unfold string_of_Z in H.
  assert (Hn : forall z, Z.to_int z <> Decimal.Pos Decimal.Nil /\
                         Z.to_int z <> Decimal.Neg Decimal.Nil).
  { intros [| p | p]; cbn; split; try discriminate; intro E; inversion E as [E'];
      apply (DecimalPos.Unsigned.to_uint_nonnil p E'). }
  apply DecimalZ.to_int_inj.
  assert (E : NilZero.int_of_string (NilZero.string_of_int (Z.to_int a)) =
              NilZero.int_of_string (NilZero.string_of_int (Z.to_int b)))
    by (rewrite H; reflexivity).
  rewrite !NilZero.isi in E by apply Hn. inversion E. reflexivity.
Qed.

Lemma savedId_inj : forall a b, savedId a = savedId b -> a = b.
Proof.
  intros a b H. unfold savedId in H. cbn in H. inversion H.
  apply string_of_Z_inj. assumption.
Qed.

(** X20. A saved search is kept under [search_] followed by the time of the
    call in milliseconds, with [useCount] zero; saving leaves the searches
    saved at other times as they are.  Two searches saved within the same
    millisecond have the same id: the second takes the place of the first,
    and the number of saved searches does not grow. *)
Theorem save_search_ids : forall p now created lastUsed name query options filters,
  map_get String.eqb (savedId now)
    (savedSearches (saveSearch now created lastUsed name query options filters p)) =
    Some {| ss_id := savedId now; ss_name := name; ss_query := query;
            ss_options := options; ss_filters := filters; ss_created := created;
            ss_lastUsed := lastUsed; ss_useCount := 0 |} /\
  (forall other, other <> now ->
     map_get String.eqb (savedId other)
       (savedSearches (saveSearch now created lastUsed name query options filters p)) =
     map_get String.eqb (savedId other) (savedSearches p)) /\
  (forall created' lastUsed' name' query' options' filters',
     keys (savedSearches
             (saveSearch now created' lastUsed' name' query' options' filters'
                (saveSearch now created lastUsed name query options filters p))) =
     keys (savedSearches (saveSearch now created lastUsed name query options filters p)) /\
     map_get String.eqb (savedId now)
       (savedSearches
          (saveSearch now created' lastUsed' name' query' options' filters'
             (saveSearch now created lastUsed name query options filters p))) =
     Some {| ss_id := savedId now; ss_name := name'; ss_query := query';
             ss_options := options'; ss_filters := filters'; ss_created := created';
             ss_lastUsed := lastUsed'; ss_useCount := 0 |}).
Proof.
  intros p now created lastUsed name query options filters. split; [| split].
  - cbn. apply (map_get_set_same String.eqb String.eqb_eq).
  - intros other Hne. cbn. apply (map_get_set_other String.eqb String.eqb_eq).
    intro E. apply savedId_inj in E. congruence.
  - intros created' lastUsed' name' query' options' filters'. split.
    + cbn [saveSearch saveSavedSearches with_savedSearches savedSearches ss_id].
      eapply (keys_set_present String.eqb).
      apply (map_get_set_same String.eqb String.eqb_eq).
    + cbn. apply (map_get_set_same String.eqb String.eqb_eq).
Qed.

Example saved_id_of_a_time : savedId 1700000000000 = "search_1700000000000".
Proof. vm_compute. reflexivity. Qed.

Lemma load_values : forall (m2 m1 : list (string * SavedSearch)),
  wellKeyed (m1 ++ m2) ->
  fold_left (fun m search => map_set String.eqb (ss_id search) search m)
            (map_values m2) m1 = m1 ++ m2.
Proof.
  induction m2 as [| [k s] m2 IH]; intros m1 H; cbn [map_values map fold_left snd].
  - rewrite app_nil_r. reflexivity.
  - destruct H as [Hnd Hk].
    assert (Hid : ss_id s = k) by (apply Hk; apply in_or_app; right; left; reflexivity).
    rewrite Hid.
    assert (Habs : map_get String.eqb k m1 = None).
    { apply (map_get_None String.eqb String.eqb_eq). unfold keys in *.
      rewrite map_app in Hnd. cbn in Hnd. apply NoDup_remove_2 in Hnd.
      intro Hin. apply Hnd. apply in_or_app. left. exact Hin. }
    rewrite (keys_set_absent String.eqb) by exact Habs.
    change (fold_left ?f (map snd m2) ?a) with (fold_left f (map_values m2) a).
    rewrite IH.
    + rewrite <- app_assoc. reflexivity.
    + rewrite <- app_assoc. split; assumption.
Qed.

Lemma reachable_restart : forall p, reachable p -> loadSavedSearches (settings p) = savedSearches p.
Proof.
  intros p H.
  assert (Hsave : forall q, wellKeyed (savedSearches q) ->
                  loadSavedSearches (settings (saveSavedSearches q)) = savedSearches q).
  { intros q Hq. unfold loadSavedSearches. cbn [saveSavedSearches settings st_savedSearches].
    apply (load_values (savedSearches q) []). exact Hq. }
  pose proof (reachable_wellKeyed p H) as Hwk.
  induction H as [s | p now created lastUsed name query options filters Hp IH
                    | p env lastUsed clock searchId Hp IH
                    | p searchId Hp IH
                    | p env clock options Hp IH
                    | p Hp IH | p Hp IH].
  - reflexivity.
  - apply (Hsave (with_savedSearches p _)). exact Hwk.
  - unfold executeSavedSearch in *.
    destruct (map_get String.eqb searchId (savedSearches p)) as [savedSearch |] eqn:E;
      [| apply IH; exact Hwk].
    unfold loadSavedSearches.
    destruct (searchWithSettings_saved env clock (ss_options savedSearch)
                (saveSavedSearches
                   (with_savedSearches p
                      (map_set String.eqb searchId (used savedSearch lastUsed)
                         (savedSearches p))))) as [Hs Hset].
    rewrite Hs, Hset in *.
    apply (Hsave (with_savedSearches p _)). exact Hwk.
  - apply (Hsave (with_savedSearches p _)). exact Hwk.
  - destruct (searchWithSettings_saved env clock options p) as [Hs Hset].
    unfold loadSavedSearches. rewrite Hs, Hset in *. apply IH. exact Hwk.
  - apply IH. exact Hwk.
  - apply IH. exact Hwk.
Qed.

(** X21. In every state of the plugin, an engine built anew from the
    settings has the saved searches of the running engine, each under its id
    and in the same order, with their use counts and times.  Its history and
    its cache are empty: the history that was written to the settings is not
    read back. *)
Theorem restart_restores_saved_searches : forall p,
  reachable p ->
  savedSearches (newPlugin (settings p)) = savedSearches p /\
  getSearchHistory (engine (newPlugin (settings p))) = [] /\
  searchCache (engine (newPlugin (settings p))) = [].
Proof.
  intros p H. split; [| split]; [| reflexivity | reflexivity].
  apply reachable_restart. exact H.
Qed.

Lemma restart_restores_saved_searches_witness :
  savedSearches (newPlugin (settings (snd (executeSavedSearch demoEnv
                   "2024-01-01T00:00:00.000Z" (demoClock 0) (savedId 1700000000000)
                   invoices)))) =
  savedSearches (snd (executeSavedSearch demoEnv "2024-01-01T00:00:00.000Z" (demoClock 0)
                        (savedId 1700000000000) invoices)).
Proof.
  apply (restart_restores_saved_searches
           (snd (executeSavedSearch demoEnv "2024-01-01T00:00:00.000Z" (demoClock 0)
                   (savedId 1700000000000) invoices))).
  apply reach_executeSavedSearch. apply reach_saveSearch. apply reach_new.
Defined.

(** X22. [getSavedSearches] returns every saved search once, and when the
    time of [lastUsed] is NaN for none of them, the most recently used first.
    In every state of the plugin no two of them have the same id. *)
Theorem saved_searches_by_last_use : forall env p,
  Permutation (getSavedSearches env p) (map_values (savedSearches p)) /\
  (Forall (fun s => is_nan (date_time env (ss_lastUsed s)) = false)
          (map_values (savedSearches p)) ->
   descending (fun s => date_time env (ss_lastUsed s)) (getSavedSearches env p)) /\
  (reachable p -> NoDup (map ss_id (getSavedSearches env p))).
Proof.
  intros env p. split; [| split].
  - unfold getSavedSearches, sort_by_comparator. apply js_sort_perm.
  - intro Hnan. apply neighbours_descending_all.
    apply (sort_by_key_descending (fun s => date_time env (ss_lastUsed s))). exact Hnan.
  - intro Hp. destruct (reachable_wellKeyed p Hp) as [Hnd Hk].
    assert (Hids : map ss_id (map_values (savedSearches p)) = keys (savedSearches p)).
    { unfold map_values, keys. rewrite map_map. apply map_ext_in.
      intros [k s] Hin. apply Hk. exact Hin. }
    apply (Permutation_NoDup (l := map ss_id (map_values (savedSearches p)))).
    + apply Permutation_map. apply Permutation_sym.
      unfold getSavedSearches, sort_by_comparator. apply js_sort_perm.
    + rewrite Hids. exact Hnd.
Qed.

Lemma saved_searches_by_last_use_witness :
  NoDup (map ss_id (getSavedSearches demoEnv invoices)) /\
  descending (fun s => date_time demoEnv (ss_lastUsed s)) (getSavedSearches demoEnv invoices).
Proof.
  destruct (saved_searches_by_last_use demoEnv invoices) as (_ & Hd & Hn). split.
  - apply Hn. apply reach_saveSearch. apply reach_new.
  - apply Hd. repeat constructor.
Defined.


(* ------------------------------------------------------------------------- *)
(** ** The text generator is never ready *)

Module VercelAIFacts.

Import VercelAI.

Lemma newProvider_unconfigured : unconfigured newProvider.
Proof.
  split; [reflexivity |]. split; [reflexivity |].
  repeat constructor; cbn; eauto.
Qed.

(** The providers of the constructor are plain objects: calling one throws,
    which [addProvider] turns into [false]. *)
Lemma addProvider_unconfigured : forall config p,
  unconfigured p -> addProvider config p = (false, p).
Proof.
  intros config p (_ & _ & Hobj). unfold addProvider.
  destruct (map_get String.eqb (pc_name config) (providers p)) as [entry |] eqn:E;
    [| reflexivity].
  apply (map_get_In String.eqb String.eqb_eq) in E.
  rewrite Forall_forall in Hobj. destruct (Hobj _ E) as (name & baseUrl & Hentry).
  cbn in Hentry. subst entry. reflexivity.
Qed.

Lemma addProviders_unconfigured : forall cs p n,
  unconfigured p -> addProviders cs p n = (n, p).
Proof.
  induction cs as [| config cs IH]; intros p n Hp; [reflexivity |].
  cbn [addProviders]. rewrite addProvider_unconfigured by exact Hp. apply IH. exact Hp.
Qed.

Lemma setDefaultProvider_unconfigured : forall providerName p,
  unconfigured p -> setDefaultProvider providerName p = (false, p).
Proof.
  intros providerName p (Hc & _). unfold setDefaultProvider. rewrite Hc. reflexivity.
Qed.

Lemma reachable_unconfigured : forall v,
  reachable v -> unconfigured (provider v) /\ isInitialized v = false.
Proof.
  intros v H. induction H as [| v cs _ [IH1 IH2] | v _ [IH1 IH2] | v config _ [IH1 IH2]
                               | v providerName _ [IH1 IH2]].
  - split; [apply newProvider_unconfigured | reflexivity].
  - unfold initialize. rewrite addProviders_unconfigured by exact IH1. cbn. auto.
  - split; [exact IH1 | reflexivity].
  - cbn. rewrite addProvider_unconfigured by exact IH1. auto.
  - cbn. rewrite setDefaultProvider_unconfigured by exact IH1. auto.
Qed.

End VercelAIFacts.

(** X23. In every state of the text-generator integration, [isReady] is
    false.  The providers the constructor registers are plain objects, so the
    call [provider({...})] in [addProvider] throws; [addProvider] catches
    that and answers [false] without recording the configuration, and
    [initialize], having added no provider, answers [false] and leaves
    [isInitialized] as it was.  With no configuration recorded,
    [generateText] and [generateQuestions] reject.  For the engine this
    means: the AI-enhanced strategy is the hybrid strategy, and
    [analyzeResultsWithAI] hands back its input. *)
Theorem text_generator_never_ready : forall v,
  VercelAI.reachable v ->
  VercelAI.isReady v = false /\
  (forall config,
     VercelAI.addProvider config (VercelAI.provider v) = (false, VercelAI.provider v)) /\
  (forall cs, VercelAI.initialize cs v = (false, v)) /\
  (forall messages providerName,
     exists e, VercelAI.generateText messages providerName (VercelAI.provider v) = Err e) /\
  (forall lines trim content count,
     exists e,
       VercelAI.generateQuestions lines trim content count (VercelAI.provider v) = Err e) /\
  (forall env lines options,
     aiEnhancedSearch (with_vercel env v lines) options =
     hybridSearch (with_vercel env v lines) options) /\
  (forall env lines query results,
     analyzeResultsWithAI (with_vercel env v lines) query results = ret results).
Proof.
  intros v H. destruct (VercelAIFacts.reachable_unconfigured v H) as [Hu Hi].
  assert (Ht : forall messages providerName,
             exists e, VercelAI.generateText messages providerName (VercelAI.provider v) =
                       Err e).
  { intros messages providerName. unfold VercelAI.generateText, VercelAI.getProvider.
    destruct Hu as (Hc & _). rewrite Hc.
    destruct (map_get String.eqb _ (VercelAI.providers (VercelAI.provider v)));
      cbn; eexists; reflexivity. }
  split; [exact Hi |]. split; [| split; [| split; [| split; [| split]]]].
  - intro config. apply VercelAIFacts.addProvider_unconfigured. exact Hu.
  - intro cs. unfold VercelAI.initialize.
    rewrite VercelAIFacts.addProviders_unconfigured by exact Hu. cbn.
    destruct v as [p i]. cbn in *. reflexivity.
  - exact Ht.
  - intros lines trim content count. unfold VercelAI.generateQuestions.
    destruct (Ht (VercelAI.questionsPrompt content count) None) as [e He].
    rewrite He. exists e. reflexivity.
  - intros env lines options. unfold aiEnhancedSearch, vercel_isReady. cbn.
    unfold VercelAI.isReady. rewrite Hi. reflexivity.
  - intros env lines query results. unfold analyzeResultsWithAI, vercel_isReady. cbn.
    unfold VercelAI.isReady. rewrite Hi. reflexivity.
Qed.

(** The integration after [initialize] with a configuration for OpenAI. *)
Lemma text_generator_never_ready_witness :
  VercelAI.isReady
    (snd (VercelAI.initialize
            [ {| VercelAI.pc_name := "openai"; VercelAI.pc_apiKey := "sk-test";
                 VercelAI.pc_baseUrl := None; VercelAI.pc_model := "gpt-4";
                 VercelAI.pc_enabled := true |} ]
            VercelAI.newIntegration)) = false.
Proof.
  apply (text_generator_never_ready
           (snd (VercelAI.initialize
                   [ {| VercelAI.pc_name := "openai"; VercelAI.pc_apiKey := "sk-test";
                        VercelAI.pc_baseUrl := None; VercelAI.pc_model := "gpt-4";
                        VercelAI.pc_enabled := true |} ]
                   VercelAI.newIntegration))).
  apply VercelAI.reach_initialize. apply VercelAI.reach_new.
Defined.


(* ------------------------------------------------------------------------- *)
(** ** The search command *)

(** X24. [openEnhancedSearch] does nothing when the prompt is cancelled or
    left empty: no search, and the engine as it was.  Otherwise it searches
    with the default strategy of the settings for at most 20 Markdown
    results by relevance.  When the search executes a strategy, the modal
    shows at most 20 results, each backed by no file or by a file with the
    extension [md], and none followed by one with a greater
    [finalScore || score]; a search that throws is reported in a notice, with
    the engine as it was. *)
Theorem search_command : forall env clock s answer st,
  (answer = None \/ answer = Some "" ->
     openEnhancedSearch env clock s answer st = ([], ShownNothing, st)) /\
  (forall query events shown st',
     answer = Some query -> query <> "" ->
     cacheLookup clock (commandOptions s query) st = None ->
     openEnhancedSearch env clock s answer st = (events, shown, st') ->
     match shown with
     | ShownNothing => False
     | ShownResults results =>
         (length results <= 20)%nat /\
         (forall r, In r results ->
            r_file r = None \/ exists f, r_file r = Some f /\ f_extension f = "md") /\
         Sorted (fun a b => (sortKey a <? sortKey b) = false) results
     | ShownNotice message =>
         exists e, message = String.append "Search failed: " e /\
                   outcome (pipeline env (commandOptions s query)) = Err e /\
                   st' = st
     end).
Proof.
  intros env clock s answer st. split.
  - intros [-> | ->]; reflexivity.
  - intros query events shown st' -> Hne Hmiss H. unfold openEnhancedSearch in H.
    assert (Ht : truthy_str (Some query) = true).
    { cbn. destruct (String.eqb query "") eqn:E; [| reflexivity].
      apply String.eqb_eq in E. contradiction. }
    rewrite Ht in H.
    destruct (search env clock (commandOptions s query) st) as [[ev [results | e]] st1]
      eqn:Hs; inversion H; subst.
    + destruct (search_miss_outcome _ _ _ _ _ _ _ Hmiss Hs) as [candidates Hc].
      split; [| split].
      * rewrite Hc. apply (slice0_length 20). lia.
      * intros r Hr. rewrite Hc in Hr. apply slice0_In in Hr.
        unfold sortResults, sort_by_comparator in Hr. apply js_sort_In in Hr.
        apply applyFilters_In in Hr. destruct Hr as (_ & Hf & _).
        specialize (Hf eq_refl). unfold fileTypeTest in Hf.
        destruct (r_file r) as [f |]; [right | left; reflexivity].
        exists f. split; [reflexivity |]. cbn in Hf. rewrite orb_false_r in Hf.
        apply String.eqb_eq in Hf. exact Hf.
      * rewrite Hc. apply slice0_Sorted.
        apply (sortResults_neighbours env (commandOptions s query)). discriminate.
    + exists e. split; [reflexivity |]. unfold search in Hs. rewrite Hmiss in Hs.
      destruct (pipeline env (commandOptions s query)) as [t [rs | e']];
        inversion Hs; subst. split; reflexivity.
Qed.

Lemma search_command_witness :
  exists events results st',
    openEnhancedSearch demoEnv (demoClock 0) demoSettings (Some "invoice") newEngine =
      (events, ShownResults results, st') /\
    (length results <= 20)%nat.
Proof.
  destruct (openEnhancedSearch demoEnv (demoClock 0) demoSettings (Some "invoice") newEngine)
    as [[events shown] st'] eqn:H.
  pose proof (proj2 (search_command demoEnv (demoClock 0) demoSettings (Some "invoice")
                       newEngine) "invoice" events shown st' eq_refl
                ltac:(discriminate) eq_refl H) as Hshape.
  destruct shown as [| results | message].
  - destruct Hshape.
  - exists events, results, st'. split; [reflexivity | apply Hshape].
  - vm_compute in H. discriminate H.
Defined.


(* ------------------------------------------------------------------------- *)
(** ** The rerank provider *)

Module VoyageAIFacts.

Import VoyageAI.

Lemma rerankSearchResults_nonempty : forall service query searchResults topK threshold,
  searchResults <> [] ->
  rerankSearchResults service query searchResults topK threshold =
  match service query (map hit_text searchResults)
          (if (Z.min topK (Z.of_nat (length searchResults)) =? 0)%Z then 10%Z
           else Z.min topK (Z.of_nat (length searchResults))) with
  | Ok response =>
      match mapR (reranked searchResults (model response))
                 (filter (fun r => threshold <=? relevance_score r) (data response)) with
      | Ok rerankedResults => Ok rerankedResults
      | Err _ => Ok (map unranked (slice0 topK searchResults))
      end
  | Err _ => Ok (map unranked (slice0 topK searchResults))
  end.
Proof.
  intros service query searchResults topK threshold Hne. unfold rerankSearchResults, rerank.
  destruct searchResults as [| h hs]; [congruence |]. cbn [length Nat.eqb].
  rewrite length_map. cbn [length].
  destruct (service query (map hit_text (h :: hs)) _) as [response | e]; [| reflexivity].
  cbn [rbind]. destruct (mapR _ _); reflexivity.
Qed.

Lemma enhance_finalScore : forall r,
  en_finalScore (enhance true r) = en_score (enhance true r) * 0.3 +
                                   en_rerankScore (enhance true r) * 0.7.
Proof. reflexivity. Qed.


End VoyageAIFacts.



Lemma rerankSearchResults_total : forall service query searchResults topK threshold,
  exists out,
    VoyageAI.rerankSearchResults service query searchResults topK threshold = Ok out.
Proof.
  intros. unfold VoyageAI.rerankSearchResults.
  destruct (length searchResults =? 0)%nat; [eexists; reflexivity |].
  destruct (rbind _ _); eexists; reflexivity.
Qed.

Lemma byFinalScore_sorted : forall l,
  Sorted (fun a b => (VoyageAI.en_finalScore a <? VoyageAI.en_finalScore b) = false)
         (sort_by_comparator VoyageAI.byFinalScore l).
Proof.
  intro l. unfold sort_by_comparator.
  set (after := fun a b => is_positive (VoyageAI.byFinalScore a b)).
  assert (Hafter : forall a b,
            after a b = (VoyageAI.en_finalScore a <? VoyageAI.en_finalScore b))
    by (intros; apply NumFacts.sub_pos_ltb).
  apply Sorted_impl_in with (R := in_order after).
  - intros a b _ _ H. unfold in_order in H. rewrite Hafter in H. exact H.
  - apply js_sort_sorted. intros a b. rewrite !Hafter. apply NumFacts.ltb_asym.
Qed.

(** X26. [enhancedSearch] never rejects.  While the integration is not ready
    it returns the results it was given, in their order, each with its score
    as [rerankScore] and as [finalScore], and sends nothing.  While it is
    ready, every result it returns has
    [finalScore = score * 0.3 + rerankScore * 0.7], none is followed by one
    with a greater [finalScore], and they are in descending order of
    [finalScore] when none is NaN; with a service that fails every request,
    it returns at most 20 results, each with its own score as
    [rerankScore]. *)
Theorem enhanced_search : forall v query initialResults,
  exists out,
    VoyageAI.enhancedSearch v query initialResults = Ok out /\
    (VoyageAI.isReady v = false -> out = map VoyageAI.untouched initialResults) /\
    (VoyageAI.isReady v = true ->
       Forall (fun e => VoyageAI.en_finalScore e =
                        VoyageAI.en_score e * 0.3 + VoyageAI.en_rerankScore e * 0.7) out /\
       Sorted (fun a b => (VoyageAI.en_finalScore a <? VoyageAI.en_finalScore b) = false) out /\
       (Forall (fun e => is_nan (VoyageAI.en_finalScore e) = false) out ->
          descending VoyageAI.en_finalScore out) /\
       (forall service,
          VoyageAI.provider v = Some service ->
          (forall documents top_k, exists e, service query documents top_k = Err e) ->
          (length out <= 20)%nat /\
          Forall (fun e => VoyageAI.en_rerankScore e = VoyageAI.en_score e) out)).
Proof.
  intros v query initialResults. unfold VoyageAI.enhancedSearch.
  destruct (VoyageAI.provider v) as [service |] eqn:Hprov.
  - destruct (VoyageAI.isReady v) eqn:Hready.
    + unfold VoyageAI.enhanceSearch.
      destruct (rerankSearchResults_total service query
                  (slice0 (20 * 2) initialResults) 20 0.1) as [rs Hrs].
      rewrite Hrs. cbn [rbind]. eexists. split; [reflexivity |].
      split; [discriminate |]. intros _.
      assert (Hin : forall e,
                In e (sort_by_comparator VoyageAI.byFinalScore
                        (map (VoyageAI.enhance true) rs)) ->
                exists r, In r rs /\ e = VoyageAI.enhance true r).
      { intros e He. unfold sort_by_comparator in He. apply js_sort_In in He.
        apply in_map_iff in He. destruct He as (r & <- & Hr). eauto. }
      split; [| split; [| split]].
      * apply Forall_forall. intros e He. destruct (Hin e He) as (r & _ & ->). reflexivity.
      * apply byFinalScore_sorted.
      * intro Hnan. apply neighbours_descending_all.
        apply Sorted_impl_in with (2 := byFinalScore_sorted _).
        rewrite Forall_forall in Hnan. intros a b Ha Hb Hab.
        apply NumFacts.not_ltb_leb; auto.
      * intros service' Hs Hdown. inversion Hs. subst service'.
        assert (Hfall : rs = map VoyageAI.unranked
                              (slice0 20 (slice0 (20 * 2) initialResults))).
        { destruct (slice0 (20 * 2) initialResults) as [| h hs] eqn:Hsl.
          - cbn in Hrs. inversion Hrs. reflexivity.
          - rewrite VoyageAIFacts.rerankSearchResults_nonempty in Hrs by discriminate.
            destruct (Hdown (map VoyageAI.hit_text (h :: hs))
                        (if (Z.min 20 (Z.of_nat (length (h :: hs))) =? 0)%Z then 10%Z
                         else Z.min 20 (Z.of_nat (length (h :: hs))))) as [e He].
            rewrite He in Hrs. inversion Hrs. reflexivity. }
        split.
        -- unfold sort_by_comparator. rewrite (Permutation_length (js_sort_perm _ _)).
           rewrite Hfall, !length_map. apply (slice0_length 20). lia.
        -- apply Forall_forall. intros e He. destruct (Hin e He) as (r & Hr & ->).
           rewrite Hfall in Hr. apply in_map_iff in Hr. destruct Hr as (h & <- & _).
           reflexivity.
    + eexists. split; [reflexivity |]. split; [reflexivity | discriminate].
  - eexists. split; [reflexivity |]. split; [reflexivity |].
    unfold VoyageAI.isReady. rewrite Hprov, andb_false_r. discriminate.
Qed.

(** X27. The readiness of the rerank integration.  When nothing else runs
    during the connection test, [initialize] answers what [isReady] is
    afterwards, which is true exactly when the test got back at least one
    embedding: a failed [initialize] ends the readiness an earlier one
    established.  [destroy] ends it too.  While the integration is not ready,
    [rerankOnly] answers [null] and [enhancedSearch] hands back its input.
    [initialize] awaits the connection test after it has set the provider
    and before it sets [isEnabled].  Whatever ran during the test, [isReady]
    is afterwards true exactly when [initialize] answers [true] and a
    provider is still there: when [destroy] runs in between and the test
    passes, [initialize] answers [true] and leaves the integration enabled
    without a provider, which is not ready. *)
Theorem rerank_readiness : forall v,
  (forall service connection,
     VoyageAI.isReady (snd (VoyageAI.initialize service connection v)) =
       fst (VoyageAI.initialize service connection v) /\
     VoyageAI.provider (snd (VoyageAI.initialize service connection v)) = Some service /\
     (fst (VoyageAI.initialize service connection v) = true <->
      exists n, connection = Ok n /\ (0 < n)%nat)) /\
  VoyageAI.isReady (VoyageAI.destroyIntegration v) = false /\
  (VoyageAI.isReady v = false ->
     (forall query documents topK, VoyageAI.rerankOnly v query documents topK = Ok None) /\
     (forall query initialResults,
        VoyageAI.enhancedSearch v query initialResults =
          Ok (map VoyageAI.untouched initialResults))) /\
  (forall connection,
     VoyageAI.isReady (snd (VoyageAI.initialize_finish connection v)) =
       fst (VoyageAI.initialize_finish connection v) &&
       match VoyageAI.provider v with Some _ => true | None => false end) /\
  (forall service n,
     (0 < n)%nat ->
     fst (VoyageAI.initialize_finish (Ok n)
            (VoyageAI.destroyIntegration (VoyageAI.initialize_start service v))) = true /\
     VoyageAI.isEnabled
       (snd (VoyageAI.initialize_finish (Ok n)
               (VoyageAI.destroyIntegration (VoyageAI.initialize_start service v)))) = true /\
     VoyageAI.isReady
       (snd (VoyageAI.initialize_finish (Ok n)
               (VoyageAI.destroyIntegration (VoyageAI.initialize_start service v)))) = false).
Proof.
  intro v. split; [| split; [| split; [| split]]].
  - intros service connection. split; [| split].
    + unfold VoyageAI.isReady. cbn. apply andb_true_r.
    + reflexivity.
    + unfold VoyageAI.initialize, VoyageAI.initialize_finish. cbn [fst].
      destruct connection as [n | e].
      * split.
        -- intro Hn. apply Nat.ltb_lt in Hn. exists n. auto.
        -- intros (n' & E & Hn'). inversion E. subst. apply Nat.ltb_lt. exact Hn'.
      * split; [discriminate |]. intros (n & E & _). discriminate E.
  - reflexivity.
  - intro Hnot. split.
    + intros query documents topK. unfold VoyageAI.rerankOnly.
      destruct (VoyageAI.provider v); [rewrite Hnot |]; reflexivity.
    + intros query initialResults. unfold VoyageAI.enhancedSearch.
      destruct (VoyageAI.provider v); [rewrite Hnot |]; reflexivity.
  - intro connection. reflexivity.
  - intros service n Hn. destruct n as [| n]; [inversion Hn |]. repeat split.
Qed.

(** A successful [initialize] makes the integration ready and a failed one
    after it ends that; a [destroy] during the connection test leaves the
    integration not ready, and [rerankOnly] answers [null]. *)
Lemma rerank_readiness_witness :
  VoyageAI.isReady (snd (VoyageAI.initialize VoyageAI.judging (Ok 1%nat)
                           VoyageAI.newIntegration)) = true /\
  VoyageAI.isReady (snd (VoyageAI.initialize VoyageAI.down (Err "timeout")
                           (snd (VoyageAI.initialize VoyageAI.judging (Ok 1%nat)
                                   VoyageAI.newIntegration)))) = false /\
  VoyageAI.rerankOnly
    (snd (VoyageAI.initialize_finish (Ok 1%nat)
            (VoyageAI.destroyIntegration
               (VoyageAI.initialize_start VoyageAI.judging VoyageAI.newIntegration))))
    "q" ["a"; "b"] 2 = Ok None.
Proof.
  split; [| split].
  - rewrite (proj1 (proj1 (rerank_readiness VoyageAI.newIntegration)
                      VoyageAI.judging (Ok 1%nat))).
    reflexivity.
  - rewrite (proj1 (proj1 (rerank_readiness
                             (snd (VoyageAI.initialize VoyageAI.judging (Ok 1%nat)
                                     VoyageAI.newIntegration)))
                      VoyageAI.down (Err "timeout"))).
    reflexivity.
  - apply (proj1 (proj2 (proj2 (rerank_readiness
                      (snd (VoyageAI.initialize_finish (Ok 1%nat)
                              (VoyageAI.destroyIntegration
                                 (VoyageAI.initialize_start VoyageAI.judging
                                    VoyageAI.newIntegration)))))))).
    + apply (proj2 (proj2 (proj2 (proj2 (rerank_readiness VoyageAI.newIntegration))))
                   VoyageAI.judging 1%nat).
      apply Nat.lt_0_1.
Defined.

Example enhanced_search_of_three_hits :
  match VoyageAI.enhancedSearch
          (snd (VoyageAI.initialize VoyageAI.judging (Ok 1%nat) VoyageAI.newIntegration))
          "q" VoyageAI.hits with
  | Ok out => map (fun e => (VoyageAI.en_text e, VoyageAI.en_finalScore e)) out
  | Err _ => []
  end = [("c", 0.7 * 0.3 + 0.8 * 0.7); ("b", 0.9 * 0.3 + 0.4 * 0.7)].
Proof. vm_compute. reflexivity. Qed.
